(** * instrumentation-api: data-access layer, flexible JSON decoder and handlers

    A shallow embedding of the Go sources (package [models] and package
    [handlers]) together with the properties stated for them.

    Layout: first every definition (data, the SQL driver, the model
    functions, the decoder, the handlers), then the lemmas and theorems. *)

From Stdlib Require Import List ZArith NArith String Ascii Strings.Byte Bool Lia Floats.
From Stdlib Require Import Sorting.Sorted Sorting.Permutation.
Import ListNotations.

(* ================================================================== *)
(** * Part I. Definitions *)
(* ================================================================== *)

(** ** Basic Go data *)

(** [uuid.UUID] is a [[16]byte]; it is read here as the number it spells. *)
Definition UUID := N.
Bind Scope N_scope with UUID.

(** [time.Time]: an instant, in nanoseconds since the Unix epoch. *)
Definition Time := Z.
Bind Scope Z_scope with Time.

(** A Go [error], identified with its message. *)
Definition error := string.
Bind Scope string_scope with error.

(** What a Go call of type [(T, error)] can do: return a value, return an
    error, or panic at run time (index out of range). *)
Inductive result (A : Type) : Type :=
| Ok (a : A)
| Err (e : error)
| Panic (msg : string).

Arguments Ok {A} a.
Arguments Err {A} e.
Arguments Panic {A} msg.

(** ** Package [timeseries] (imported as [ts]) *)

(** Modelled from the spec: package [timeseries] is not among the sources.
    [ts.Measurement] is one (timestamp, value) point; the sources read its
    fields [Time] and [Value] (a [float64]). *)
Record Measurement := mkMeasurement {
  m_Time : Time;
  m_Value : float
}.

(** Modelled from the spec: [ts.MeasurementCollection] groups a timeseries
    identifier with an ordered sequence of points (fields [TimeseriesID] and
    [Items] in the sources). *)
Record MeasurementCollection := mkMeasurementCollection {
  mc_TimeseriesID : UUID;
  mc_Items : list Measurement
}.

(** Modelled from the spec: [ts.TimeWindow], a window given by its lower and
    upper bounds (fields [After] and [Before] in the sources). *)
Record TimeWindow := mkTimeWindow {
  tw_After : Time;
  tw_Before : Time
}.

(** ** The relational store *)

(** A row of table [timeseries_measurement]. *)
Record MeasurementRow := mkMeasurementRow {
  r_timeseries_id : UUID;
  r_time : Time;
  r_value : float
}.

(** A row of table [plot_configuration]. *)
Record PlotConfigurationRow := mkPlotConfigurationRow {
  pcr_id : UUID;
  pcr_slug : string;
  pcr_name : string;
  pcr_project_id : UUID;
  pcr_creator : UUID;
  pcr_create_date : Time;
  pcr_updater : option UUID;
  pcr_update_date : option Time
}.

(** Modelled from the spec: [AuditInfo], embedded in the entities, is not
    among the sources: creator and updater identifiers with the create and
    update timestamps (fields [Creator], [CreateDate], [Updater],
    [UpdateDate] in the sources). *)
Record AuditInfo := mkAuditInfo {
  Creator : UUID;
  CreateDate : Time;
  Updater : option UUID;
  UpdateDate : option Time
}.

(** [models.Project]: a row of view [v_project]. *)
Record Project := mkProject {
  p_ID : UUID;
  p_FederalID : option string;
  p_OfficeID : option UUID;
  p_Image : option string;
  p_Deleted : bool;
  p_Slug : string;
  p_Name : string;
  p_Timeseries : list UUID;
  p_InstrumentCount : Z;
  p_InstrumentGroupCount : Z;
  p_Audit : AuditInfo
}.

(** [models.PlotConfiguration]. *)
Record PlotConfiguration := mkPlotConfiguration {
  pc_ID : UUID;
  pc_Name : string;
  pc_Slug : string;
  pc_ProjectID : UUID;
  pc_TimeseriesID : list UUID;
  pc_Audit : AuditInfo
}.

(** The tables and views the modelled functions touch.  Tables are lists of
    rows: order and duplicates are what the constraints below speak about. *)
Record Tables := mkTables {
  timeseries : list UUID;                                (* column [id] *)
  timeseries_measurement : list MeasurementRow;
  plot_configuration : list PlotConfigurationRow;
  plot_configuration_timeseries : list (UUID * UUID);    (* (plot_configuration_id, timeseries_id) *)
  v_project : list Project
}.

Definition same_key (tsid : UUID) (t : Time) (r : MeasurementRow) : bool :=
  (r_timeseries_id r =? tsid)%N && (r_time r =? t)%Z.

(** Modelled from the spec: constraint [timeseries_unique_time], named by
    the upsert statement and declared in the schema, which is not among the
    sources: no two rows of [timeseries_measurement] share
    [(timeseries_id, time)]. *)
Definition timeseries_unique_time (rows : list MeasurementRow) : Prop :=
  NoDup (map (fun r => (r_timeseries_id r, r_time r)) rows).

(** Modelled from the spec: constraint [plot_configuration_unique_timeseries],
    named by the insert statement of [UpdatePlotConfiguration]: association
    rows are keyed by the pair, no two of them are the same pair. *)
Definition plot_configuration_unique_timeseries (rows : list (UUID * UUID)) : Prop :=
  NoDup rows.

(** *** The statements the sources send *)

(** [INSERT INTO timeseries_measurement (timeseries_id, time, value)
     VALUES ($1, $2, $3)
     ON CONFLICT ON CONSTRAINT timeseries_unique_time
     DO UPDATE SET value = EXCLUDED.value]:
    the conflicting row gets the new value, otherwise a row is added.
    The second component is the number of rows affected. *)
Fixpoint upsert_measurement (tsid : UUID) (t : Time) (v : float)
         (rows : list MeasurementRow) : list MeasurementRow * nat :=
  match rows with
  | [] => ([mkMeasurementRow tsid t v], 1)
  | r :: rs =>
      if same_key tsid t r
      then (mkMeasurementRow (r_timeseries_id r) (r_time r) v :: rs, 1)
      else let (rs', n) := upsert_measurement tsid t v rs in (r :: rs', n)
  end.

Definition mem_uuid (x : UUID) (l : list UUID) : bool :=
  existsb (fun y => (y =? x)%N) l.

Definition pair_eqb (a b : UUID * UUID) : bool :=
  (fst a =? fst b)%N && (snd a =? snd b)%N.

(** [DELETE FROM plot_configuration_timeseries
     WHERE plot_configuration_id = ? AND timeseries_id NOT IN (?, ..., ?)]. *)
Definition delete_assoc_not_in (pcid : UUID) (tsids : list UUID)
           (rows : list (UUID * UUID)) : list (UUID * UUID) * nat :=
  let doomed := fun a : UUID * UUID => (fst a =? pcid)%N && negb (mem_uuid (snd a) tsids) in
  (filter (fun a => negb (doomed a)) rows, List.length (filter doomed rows)).

(** [INSERT INTO plot_configuration_timeseries (plot_configuration_id, timeseries_id)
     VALUES ($1, $2)
     ON CONFLICT ON CONSTRAINT plot_configuration_unique_timeseries DO NOTHING]. *)
Definition insert_assoc_do_nothing (pcid tsid : UUID)
           (rows : list (UUID * UUID)) : list (UUID * UUID) * nat :=
  if existsb (pair_eqb (pcid, tsid)) rows
  then (rows, 0)
  else (rows ++ [(pcid, tsid)], 1).

(** [UPDATE plot_configuration SET name = $3, updater = $4, update_date = $5
     WHERE project_id = $1 AND id = $2]. *)
Definition update_plot_configuration (project_id id : UUID) (name : string)
           (updater : option UUID) (update_date : option Time)
           (rows : list PlotConfigurationRow) : list PlotConfigurationRow * nat :=
  let hit := fun r => (pcr_project_id r =? project_id)%N && (pcr_id r =? id)%N in
  (map (fun r => if hit r
                 then mkPlotConfigurationRow (pcr_id r) (pcr_slug r) name (pcr_project_id r)
                        (pcr_creator r) (pcr_create_date r) updater update_date
                 else r) rows,
   List.length (filter hit rows)).

(** A prepared statement together with the arguments of one [Exec]. *)
Inductive Stmt : Type :=
| UpsertMeasurement (tsid : UUID) (t : Time) (v : float)
| UpdatePlotConfigurationStmt (project_id id : UUID) (name : string)
    (updater : option UUID) (update_date : option Time)
| DeleteAssocNotIn (pcid : UUID) (tsids : list UUID)
| InsertAssocDoNothing (pcid tsid : UUID).

(** What executing a statement does to the tables, with the rows affected. *)
Definition exec_stmt (s : Stmt) (t : Tables) : Tables * nat :=
  match s with
  | UpsertMeasurement tsid tm v =>
      let (rows, n) := upsert_measurement tsid tm v (timeseries_measurement t) in
      (mkTables (timeseries t) rows (plot_configuration t)
                (plot_configuration_timeseries t) (v_project t), n)
  | UpdatePlotConfigurationStmt prj id name upd date =>
      let (rows, n) := update_plot_configuration prj id name upd date (plot_configuration t) in
      (mkTables (timeseries t) (timeseries_measurement t) rows
                (plot_configuration_timeseries t) (v_project t), n)
  | DeleteAssocNotIn pcid tsids =>
      let (rows, n) := delete_assoc_not_in pcid tsids (plot_configuration_timeseries t) in
      (mkTables (timeseries t) (timeseries_measurement t) (plot_configuration t)
                rows (v_project t), n)
  | InsertAssocDoNothing pcid tsid =>
      let (rows, n) := insert_assoc_do_nothing pcid tsid (plot_configuration_timeseries t) in
      (mkTables (timeseries t) (timeseries_measurement t) (plot_configuration t)
                rows (v_project t), n)
  end.

(** *** The driver *)

(** One entry per call made to the database driver, in the order made.
    [EvExec s None] is an [Exec] that returned an error, [EvExec s (Some n)]
    one that affected [n] rows; the booleans say whether the call succeeded. *)
Inductive Event : Type :=
| EvBegin (ok : bool)
| EvPrepare (ok : bool)
| EvExec (s : Stmt) (rows_affected : option nat)
| EvClose (ok : bool)
| EvCommit (ok : bool)
| EvRollback
| EvQuery (ok : bool)
| EvNext (ok : bool)
| EvScan (ok : bool).

(** The database as the program sees it: the committed tables, the number
    of driver calls made so far, and their log. *)
Record World := mkWorld {
  committed : Tables;
  clock : nat;
  trace : list Event
}.

Definition tick (w : World) (e : Event) : World :=
  mkWorld (committed w) (S (clock w)) (trace w ++ [e]).

Section Driver.

(** Whether the [n]-th driver call fails, and with which error: the
    connection, the server and its constraints are outside the program. *)
Variable fault : nat -> option error.

(** [db.Begin()] / [db.Beginx()]: the transaction starts from the committed
    tables; the handle is the transaction's private copy. *)
Definition db_Begin (w : World) : World * (Tables + error) :=
  match fault (clock w) with
  | Some err => (tick w (EvBegin false), inr err)
  | None => (tick w (EvBegin true), inl (committed w))
  end.

(** [txn.Prepare(query)] / [tx.Preparex(query)]. *)
Definition tx_Prepare (w : World) : World * option error :=
  match fault (clock w) with
  | Some err => (tick w (EvPrepare false), Some err)
  | None => (tick w (EvPrepare true), None)
  end.

(** [stmt.Exec(args...)] inside transaction [txn]. *)
Definition stmt_Exec (s : Stmt) (txn : Tables) (w : World) : World * (Tables + error) :=
  match fault (clock w) with
  | Some err => (tick w (EvExec s None), inr err)
  | None =>
      let (txn', n) := exec_stmt s txn in
      (tick w (EvExec s (Some n)), inl txn')
  end.

(** [stmt.Close()]. *)
Definition stmt_Close (w : World) : World * option error :=
  match fault (clock w) with
  | Some err => (tick w (EvClose false), Some err)
  | None => (tick w (EvClose true), None)
  end.

(** [txn.Commit()]: on success the transaction's tables become the
    committed ones. *)
Definition tx_Commit (txn : Tables) (w : World) : World * option error :=
  match fault (clock w) with
  | Some err => (tick w (EvCommit false), Some err)
  | None => (mkWorld txn (S (clock w)) (trace w ++ [EvCommit true]), None)
  end.

(** [txn.Rollback()]: the transaction's tables are dropped; the sources
    ignore its error. *)
Definition tx_Rollback (w : World) : World := tick w EvRollback.

(** ** models/timeseries_measurements.go *)

(** The inner loop [for _, m := range c.Items]. *)
Fixpoint exec_items (tsid : UUID) (items : list Measurement)
         (txn : Tables) (w : World) : World * (Tables + error) :=
  match items with
  | [] => (w, inl txn)
  | m :: ms =>
      match stmt_Exec (UpsertMeasurement tsid (m_Time m) (m_Value m)) txn w with
      | (w1, inr err) => (w1, inr err)
      | (w1, inl txn1) => exec_items tsid ms txn1 w1
      end
  end.

(** The outer loop [for _, c := range mc]. *)
Fixpoint exec_collections (mc : list MeasurementCollection)
         (txn : Tables) (w : World) : World * (Tables + error) :=
  match mc with
  | [] => (w, inl txn)
  | c :: cs =>
      match exec_items (mc_TimeseriesID c) (mc_Items c) txn w with
      | (w1, inr err) => (w1, inr err)
      | (w1, inl txn1) => exec_collections cs txn1 w1
      end
  end.

(** [CreateOrUpdateTimeseriesMeasurements]. *)
Definition CreateOrUpdateTimeseriesMeasurements
           (mc : list MeasurementCollection) (w : World)
  : World * result (list MeasurementCollection) :=
  match db_Begin w with
  | (w1, inr err) => (w1, Err err)
  | (w1, inl txn) =>
      match tx_Prepare w1 with
      | (w2, Some err) => (tx_Rollback w2, Err err)
      | (w2, None) =>
          match exec_collections mc txn w2 with
          | (w3, inr err) => (tx_Rollback w3, Err err)
          | (w3, inl txn') =>
              match stmt_Close w3 with
              | (w4, Some err) => (tx_Rollback w4, Err err)
              | (w4, None) =>
                  match tx_Commit txn' w4 with
                  | (w5, Some err) => (tx_Rollback w5, Err err)
                  | (w5, None) => (w5, Ok mc)
                  end
              end
          end
      end
  end.

(** [db.Select(&dest, query, args...)] and [db.Queryx(query, args...)]: the
    rows the query denotes on the committed tables, or the driver's error. *)
Definition db_Query {A : Type} (q : Tables -> list A) (w : World) : World * (list A + error) :=
  match fault (clock w) with
  | Some err => (tick w (EvQuery false), inr err)
  | None => (tick w (EvQuery true), inl (q (committed w)))
  end.

(** [FROM timeseries_measurement M INNER JOIN timeseries T ON T.id = M.timeseries_id]. *)
Definition measurement_join_timeseries (t : Tables) : list (MeasurementRow * UUID) :=
  flat_map
    (fun m => map (fun tid => (m, tid))
                  (filter (fun tid => (tid =? r_timeseries_id m)%N) (timeseries t)))
    (timeseries_measurement t).

(** [ORDER BY M.time DESC], by insertion. *)
Fixpoint insert_time_desc (x : MeasurementRow * UUID) (l : list (MeasurementRow * UUID))
  : list (MeasurementRow * UUID) :=
  match l with
  | [] => [x]
  | y :: ys =>
      if (r_time (fst y) <=? r_time (fst x))%Z
      then x :: l
      else y :: insert_time_desc x ys
  end.

Definition order_by_time_desc (l : list (MeasurementRow * UUID)) : list (MeasurementRow * UUID) :=
  fold_right insert_time_desc [] l.

(** [listTimeseriesMeasurementsSQL() +
     " WHERE T.id = $1 AND M.time > $2 AND M.time < $3 ORDER BY M.time DESC"],
    each row scanned into a [ts.Measurement]. *)
Definition listTimeseriesMeasurements_rows (id : UUID) (after before : Time) (t : Tables)
  : list Measurement :=
  map (fun x => mkMeasurement (r_time (fst x)) (r_value (fst x)))
      (order_by_time_desc
         (filter (fun x => (snd x =? id)%N
                           && (after <? r_time (fst x))%Z
                           && (r_time (fst x) <? before)%Z)
                 (measurement_join_timeseries t))).

(** [ListTimeseriesMeasurements]. *)
Definition ListTimeseriesMeasurements (timeseriesID : UUID) (tw : TimeWindow) (w : World)
  : World * result MeasurementCollection :=
  match db_Query (listTimeseriesMeasurements_rows timeseriesID (tw_After tw) (tw_Before tw)) w with
  | (w1, inr err) => (w1, Err err)
  | (w1, inl items) => (w1, Ok (mkMeasurementCollection timeseriesID items))
  end.

(** ** models/projects.go and models/plot_configuration.go *)

(** [rows.Scan(...)]: a driver call that may fail on any row. *)
Definition rows_Scan (w : World) : World * option error :=
  match fault (clock w) with
  | Some err => (tick w (EvScan false), Some err)
  | None => (tick w (EvScan true), None)
  end.

(** [rows.Next()]: a driver call that fetches the next row.  It answers
    [false] when the rows are exhausted and also when the driver fails; in
    that case the error is kept for [rows.Err()]. *)
Definition rows_Next (w : World) : World * option error :=
  match fault (clock w) with
  | Some err => (tick w (EvNext false), Some err)
  | None => (tick w (EvNext true), None)
  end.

(** The loop [for rows.Next() { ... pp = append(pp, p) }] shared by
    [ProjectFactory] and [PlotConfigFactory].  [rows] are the rows the query
    matched and that are still to be fetched.  When [rows.Next()] fails the
    loop ends as it does after the last row: the factories never read
    [rows.Err()] and return what they have with a [nil] error.  On a scan
    error they return a fresh empty slice and the error. *)
Fixpoint factory_loop {A : Type} (rows pp : list A) (w : World)
  : World * (list A * option error) :=
  match rows_Next w with
  | (w0, Some _) => (w0, (pp, None))
  | (w0, None) =>
      match rows with
      | [] => (w0, (pp, None))
      | r :: rs =>
          match rows_Scan w0 with
          | (w1, Some err) => (w1, ([], Some err))
          | (w1, None) => factory_loop rs (pp ++ [r]) w1
          end
      end
  end.

Definition ProjectFactory (rows : list Project) (w : World)
  : World * (list Project * option error) :=
  factory_loop rows [] w.

Definition PlotConfigFactory (rows : list PlotConfiguration) (w : World)
  : World * (list PlotConfiguration * option error) :=
  factory_loop rows [] w.

(** Go's [&pp[0]]: the first element, or a run-time panic on an empty slice. *)
Definition index0 {A : Type} (pp : list A) : result A :=
  match nth_error pp 0 with
  | Some p => Ok p
  | None => Panic "index out of range [0] with length 0"
  end.

(** [listProjectsSQL + " WHERE id = $1"]. *)
Definition getProject_rows (id : UUID) (t : Tables) : list Project :=
  filter (fun p => (p_ID p =? id)%N) (v_project t).

(** [GetProject]. *)
Definition GetProject (id : UUID) (w : World) : World * result Project :=
  match db_Query (getProject_rows id) w with
  | (w1, inr err) => (w1, Err err)
  | (w1, inl rows) =>
      match ProjectFactory rows w1 with
      | (w2, (_, Some err)) => (w2, Err err)
      | (w2, (pp, None)) => (w2, index0 pp)
      end
  end.

(** Modelled from the spec: the view [v_plot_configuration], whose SQL is not
    among the sources.  It lists each plot configuration with the timeseries
    associated to it in [plot_configuration_timeseries] (the final reconciled
    state that [UpdatePlotConfiguration] re-reads after commit). *)
Definition v_plot_configuration (t : Tables) : list PlotConfiguration :=
  map (fun r =>
         mkPlotConfiguration (pcr_id r) (pcr_name r) (pcr_slug r) (pcr_project_id r)
           (map snd (filter (fun a => (fst a =? pcr_id r)%N) (plot_configuration_timeseries t)))
           (mkAuditInfo (pcr_creator r) (pcr_create_date r) (pcr_updater r) (pcr_update_date r)))
      (plot_configuration t).

(** [ListPlotConfigurationsSQL + " WHERE project_id = $1 AND id = $2"]. *)
Definition getPlotConfiguration_rows (projectID plotconfigID : UUID) (t : Tables)
  : list PlotConfiguration :=
  filter (fun p => (pc_ProjectID p =? projectID)%N && (pc_ID p =? plotconfigID)%N)
         (v_plot_configuration t).

(** [GetPlotConfiguration]: the factory's error is assigned and never read. *)
Definition GetPlotConfiguration (projectID plotconfigID : UUID) (w : World)
  : World * result PlotConfiguration :=
  match db_Query (getPlotConfiguration_rows projectID plotconfigID) w with
  | (w1, inr err) => (w1, Err err)
  | (w1, inl rows) =>
      match PlotConfigFactory rows w1 with
      | (w2, (pp, _)) => (w2, index0 pp)
      end
  end.

(** [sqlx.In(query, pc.ID, pc.TimeseriesID)] (library jmoiron/sqlx): the
    slice argument is expanded in place into one bind variable per element,
    and an empty slice is refused with an error.  The result is the flat
    argument list [pc.ID, ts_1, ..., ts_n]. *)
Definition sqlx_In (id : UUID) (tsids : list UUID) : list UUID + error :=
  match tsids with
  | [] => inr "empty slice passed to 'in' query"%string
  | _ :: _ => inl (id :: tsids)
  end.

(** The loop [for _, tsid := range pc.TimeseriesID] of [UpdatePlotConfiguration]. *)
Fixpoint exec_inserts (pcid : UUID) (tsids : list UUID) (tx : Tables) (w : World)
  : World * (Tables + error) :=
  match tsids with
  | [] => (w, inl tx)
  | tsid :: rest =>
      match stmt_Exec (InsertAssocDoNothing pcid tsid) tx w with
      | (w1, inr err) => (w1, inr err)
      | (w1, inl tx1) => exec_inserts pcid rest tx1 w1
      end
  end.

(** [UpdatePlotConfiguration].  The paths that return without
    [tx.Rollback()] are kept as they are in the source. *)
Definition UpdatePlotConfiguration (pc : PlotConfiguration) (w : World)
  : World * result PlotConfiguration :=
  match db_Begin w with
  | (w1, inr err) => (w1, Err err)
  | (w1, inl tx) =>
  match tx_Prepare w1 with                                   (* stmt1 *)
  | (w2, Some err) => (tx_Rollback w2, Err err)
  | (w2, None) =>
  match sqlx_In (pc_ID pc) (pc_TimeseriesID pc) with
  | inr err => (tx_Rollback w2, Err err)
  | inl args =>
  match tx_Prepare w2 with                                   (* stmt2 *)
  | (w3, Some err) => (tx_Rollback w3, Err err)
  | (w3, None) =>
  match tx_Prepare w3 with                                   (* stmt3 *)
  | (w4, Some err) => (w4, Err err)
  | (w4, None) =>
  match stmt_Exec (UpdatePlotConfigurationStmt (pc_ProjectID pc) (pc_ID pc) (pc_Name pc)
                     (Updater (pc_Audit pc)) (UpdateDate (pc_Audit pc))) tx w4 with
  | (w5, inr err) => (tx_Rollback w5, Err err)
  | (w5, inl tx1) =>
  match stmt_Exec (DeleteAssocNotIn (hd 0%N args) (tl args)) tx1 w5 with
  | (w6, inr err) => (tx_Rollback w6, Err err)
  | (w6, inl tx2) =>
  match exec_inserts (pc_ID pc) (pc_TimeseriesID pc) tx2 w6 with
  | (w7, inr err) => (tx_Rollback w7, Err err)
  | (w7, inl tx3) =>
  match stmt_Close w7 with                                   (* stmt1 *)
  | (w8, Some err) => (w8, Err err)
  | (w8, None) =>
  match stmt_Close w8 with                                   (* stmt2 *)
  | (w9, Some err) => (w9, Err err)
  | (w9, None) =>
  match stmt_Close w9 with                                   (* stmt3 *)
  | (w10, Some err) => (w10, Err err)
  | (w10, None) =>
  match tx_Commit tx3 w10 with
  | (w11, Some err) => (tx_Rollback w11, Err err)
  | (w11, None) => GetPlotConfiguration (pc_ProjectID pc) (pc_ID pc) w11
  end end end end end end end end end end end end.

End Driver.

(** ** The flexible collection decoder *)

(** The bytes [bytes.TrimLeft] would drop as JSON white space:
    space, tab, line feed, carriage return. *)
Definition is_json_space (c : byte) : bool :=
  match c with
  | x20 | x09 | x0a | x0d => true
  | _ => false
  end.

Fixpoint trim_left_space (b : list byte) : list byte :=
  match b with
  | [] => []
  | c :: rest => if is_json_space c then trim_left_space rest else b
  end.

(** Modelled from the spec: helper [JSONType] of package [models], called by
    every [UnmarshalJSON] below, is not among the sources.  It inspects the
    first significant character of the payload: an array opener gives
    ["ARRAY"], an object opener gives ["OBJECT"], anything else (empty,
    [null], any other leading token) gives neither. *)
Definition JSONType (b : list byte) : string :=
  match trim_left_space b with
  | x5b :: _ => "ARRAY"       (* '[' *)
  | x7b :: _ => "OBJECT"      (* '{' *)
  | _ => ""
  end.

(** [models.InstrumentGroup]. *)
Record InstrumentGroup := mkInstrumentGroup {
  ig_ID : UUID;
  ig_Deleted : bool;
  ig_Slug : string;
  ig_Name : string;
  ig_Description : string;
  ig_ProjectID : option UUID;
  ig_InstrumentCount : Z;
  ig_TimeseriesCount : Z;
  ig_Audit : AuditInfo
}.

(** [models.InstrumentNote]. *)
Record InstrumentNote := mkInstrumentNote {
  in_ID : UUID;
  in_InstrumentID : UUID;
  in_Title : string;
  in_Body : string;
  in_Time : Time;
  in_Creator : Z;
  in_CreateDate : Time;
  in_Updater : Z;
  in_UpdateDate : Time
}.

(** What [encoding/json] offers for an entity type [T]: [json.Unmarshal(b, &x)]
    for [x] of type [T] and for [x] of type [[]T].  Both take the bytes and
    the current content of the destination and give its new content with
    the error, if any.  [zero] is the value of [var x T]. *)
Class JSONEntity (T : Type) := {
  zero : T;
  json_Unmarshal : list byte -> T -> T * option error;
  json_Unmarshal_slice : list byte -> list T -> list T * option error
}.

Section FlexibleDecoder.

Context {T : Type} `{JSONEntity T}.

(** The body shared, up to the entity type, by
    [TimeseriesMeasurementCollectionCollection.UnmarshalJSON],
    [InstrumentGroupCollection.UnmarshalJSON],
    [InstrumentNoteCollection.UnmarshalJSON] and
    [ProjectCollection.UnmarshalJSON]: the receiver's [Items] before the
    call and the payload give [Items] after the call and the error. *)
Definition UnmarshalJSON (Items : list T) (b : list byte) : list T * option error :=
  if String.eqb (JSONType b) "ARRAY" then
    match json_Unmarshal_slice b Items with
    | (items, Some err) => (items, Some err)
    | (items, None) => (items, None)
    end
  else if String.eqb (JSONType b) "OBJECT" then
    match json_Unmarshal b zero with
    | (_, Some err) => (Items, Some err)
    | (mc, None) => ([mc], None)
    end
  else ([], None).

End FlexibleDecoder.

(** The four methods of the sources. *)
Definition TimeseriesMeasurementCollectionCollection_UnmarshalJSON
  `{JSONEntity MeasurementCollection} := @UnmarshalJSON MeasurementCollection _.
Definition InstrumentGroupCollection_UnmarshalJSON
  `{JSONEntity InstrumentGroup} := @UnmarshalJSON InstrumentGroup _.
Definition InstrumentNoteCollection_UnmarshalJSON
  `{JSONEntity InstrumentNote} := @UnmarshalJSON InstrumentNote _.
Definition ProjectCollection_UnmarshalJSON
  `{JSONEntity Project} := @UnmarshalJSON Project _.

(** *** What [encoding/json] does with an array

    Modelled from the documentation of [encoding/json], which is not among
    the sources: to unmarshal a JSON array into a slice, Unmarshal resets
    the slice length to zero and then appends each element to the slice.
    The elements of an array are found here as the library's scanner finds
    them: they are separated by the commas that are outside every string,
    array and object opened inside the array. *)

(** The bytes that matter for finding the elements. *)
Inductive JSONByte : Type :=
| JQuote | JBackslash | JOpen | JCloseBracket | JCloseBrace | JComma | JOther.

Definition json_byte (c : byte) : JSONByte :=
  match c with
  | x22 => JQuote
  | x5c => JBackslash
  | x5b | x7b => JOpen
  | x5d => JCloseBracket
  | x7d => JCloseBrace
  | x2c => JComma
  | _ => JOther
  end.

(** Outside of a string literal, inside one, or inside one right after a
    backslash. *)
Inductive ScanMode : Type := Outside | InString | Escaped.

(** The scan of what follows the opening bracket of an array.  [depth]
    counts the arrays and objects opened since and not yet closed, [cur]
    holds the bytes of the element being read (latest first) and [acc] the
    elements already read (latest first).  The bracket that closes the array
    must be followed by white space only. *)
Fixpoint split_elements (b : list byte) (depth : nat) (mode : ScanMode)
         (cur : list byte) (acc : list (list byte)) : option (list (list byte)) :=
  match b with
  | [] => None
  | c :: rest =>
      match mode with
      | Escaped => split_elements rest depth InString (c :: cur) acc
      | InString =>
          match json_byte c with
          | JBackslash => split_elements rest depth Escaped (c :: cur) acc
          | JQuote => split_elements rest depth Outside (c :: cur) acc
          | _ => split_elements rest depth InString (c :: cur) acc
          end
      | Outside =>
          match json_byte c, depth with
          | JQuote, _ => split_elements rest depth InString (c :: cur) acc
          | JOpen, _ => split_elements rest (S depth) Outside (c :: cur) acc
          | JCloseBracket, 0 =>
              if forallb is_json_space rest
              then Some (match acc with
                         | [] => if forallb is_json_space cur then [] else [rev cur]
                         | _ :: _ => rev (rev cur :: acc)
                         end)
              else None
          | JCloseBrace, 0 => None
          | JCloseBracket, S d => split_elements rest d Outside (c :: cur) acc
          | JCloseBrace, S d => split_elements rest d Outside (c :: cur) acc
          | JComma, 0 => split_elements rest 0 Outside [] (rev cur :: acc)
          | _, _ => split_elements rest depth Outside (c :: cur) acc
          end
      end
  end.

(** The texts of the elements of the array that payload [b] holds, in the
    order of the payload. *)
Definition json_array_elements (b : list byte) : option (list (list byte)) :=
  match trim_left_space b with
  | x5b :: rest => split_elements rest 0 Outside [] []
  | _ => None
  end.

(** The law of [encoding/json] for arrays, for a destination slice that is
    empty (as [var] declares it, which is how the handlers declare the
    collections they bind): when every element of the array decodes as the
    entity type, the slice receives the decoded elements, one per element
    and in the order of the array. *)
Definition json_arrays_law {T : Type} (J : JSONEntity T) : Prop :=
  forall (b : list byte) (elems : list (list byte)),
    json_array_elements b = Some elems ->
    Forall (fun e => snd (json_Unmarshal e zero) = None) elems ->
    json_Unmarshal_slice b []
    = (map (fun e => fst (json_Unmarshal e zero)) elems, None).

(** Whether [b], read from the given state, is a complete text: its strings,
    arrays and objects are closed when it ends and not before, and it has no
    comma outside of them. *)
Fixpoint value_text_from (b : list byte) (depth : nat) (mode : ScanMode) : bool :=
  match b with
  | [] => match depth, mode with
          | 0, Outside => true
          | _, _ => false
          end
  | c :: rest =>
      match mode with
      | Escaped => value_text_from rest depth InString
      | InString =>
          match json_byte c with
          | JBackslash => value_text_from rest depth Escaped
          | JQuote => value_text_from rest depth Outside
          | _ => value_text_from rest depth InString
          end
      | Outside =>
          match json_byte c, depth with
          | JQuote, _ => value_text_from rest depth InString
          | JOpen, _ => value_text_from rest (S depth) Outside
          | JCloseBracket, 0 => false
          | JCloseBrace, 0 => false
          | JCloseBracket, S d => value_text_from rest d Outside
          | JCloseBrace, S d => value_text_from rest d Outside
          | JComma, 0 => false
          | _, _ => value_text_from rest depth Outside
          end
      end
  end.

(** The text of one JSON object: it opens with a brace and is complete. *)
Definition object_text (e : list byte) : bool :=
  match e with
  | x7b :: _ => value_text_from e 0 Outside
  | _ => false
  end.

(** The payload that is the array of the given element texts: an opening
    bracket, the elements separated by commas, a closing bracket. *)
Fixpoint join_comma (elems : list (list byte)) : list byte :=
  match elems with
  | [] => []
  | e :: rest =>
      match rest with
      | [] => e
      | _ :: _ => e ++ x2c :: join_comma rest
      end
  end.

Definition array_text (elems : list (list byte)) : list byte :=
  x5b :: join_comma elems ++ [x5d].

(** ** Package [handlers] *)

(** [net/http] status codes. *)
Definition StatusOK : Z := 200.
Definition StatusCreated : Z := 201.
Definition StatusBadRequest : Z := 400.
Definition StatusInternalServerError : Z := 500.


(** A call into the data-access layer (package [models]) with the arguments
    that identify it.  A bound [InstrumentStatusCollection] is represented by
    the [ID]s of its items, the only field the handlers touch. *)
Inductive ModelCall : Type :=
| models_ListInstrumentStatus (instrumentID : UUID)
| models_GetInstrumentStatus (id : UUID)
| models_CreateOrUpdateInstrumentStatus (instrumentID : UUID) (ids : list UUID)
| models_DeleteInstrumentStatus (id : UUID)
| models_ComputedTimeseries (instrumentIDs : list UUID) (tw : TimeWindow) (interval : Z)
| models_ListAwareParameters
| models_ListAwarePlatformParameterConfig
| models_ListInstrumentNotes
| models_ListInstrumentInstrumentNotes (instrumentID : UUID)
| models_GetInstrumentNote (id : UUID)
| models_CreateInstrumentNote (notes : list InstrumentNote)
| models_UpdateInstrumentNote (n : InstrumentNote)
| models_DeleteInstrumentNote (id : UUID).

(** What a handler writes as the body. *)
Inductive Payload : Type :=
| Text (s : string)              (* [c.String(code, s)] *)
| JSONError (e : error)          (* [c.JSON(code, err)] *)
| JSONResult (from : ModelCall)  (* [c.JSON(code, v)], [v] returned by the call *)
| JSONEmptyObject.               (* [c.JSON(code, make(map[string]interface{}))] *)

Record Response := mkResponse {
  Status : Z;
  Body : Payload
}.

(** The [echo.Context] of one request: path parameters, raw body, and the
    identifier of the profile that the middleware stored under ["profile"]. *)
Record Request := mkRequest {
  Param : string -> string;
  RawBody : list byte;
  profile_ID : Z
}.

Section Handlers.

(** [uuid.Parse] and [uuid.NewRandom] (the latter by call number). *)
Variable uuid_Parse : string -> UUID + error.
Variable uuid_NewRandom : nat -> UUID + error.

(** [c.Bind(&sc)], [c.Bind(&nc)] and [c.Bind(&n)]: the bound value or the
    binder's error.  [c.Bind(&n)] starts from the [n] it is given. *)
Variable Bind_InstrumentStatusCollection : Request -> list UUID + error.
Variable Bind_InstrumentNoteCollection : Request -> list InstrumentNote + error.
Variable Bind_InstrumentNote : Request -> InstrumentNote -> InstrumentNote + error.

(** [time.Now()]. *)
Variable time_Now : Time.

(** The data-access layer: the error a call returns, if any. *)
Variable models : ModelCall -> option error.

(** A handler gives its response and the data-access calls it made. *)
Definition HandlerFunc := Request -> Response * list ModelCall.

(** handlers/instrument_status.go *)



(** The loop [for idx := range sc.Items] assigning a fresh [ID] to each item. *)
Fixpoint assign_fresh_ids (items : list UUID) (idx : nat) : list UUID + error :=
  match items with
  | [] => inl []
  | _ :: rest =>
      match uuid_NewRandom idx with
      | inr err => inr err
      | inl id =>
          match assign_fresh_ids rest (S idx) with
          | inr err => inr err
          | inl ids => inl (id :: ids)
          end
      end
  end.

Definition CreateOrUpdateInstrumentStatus : HandlerFunc := fun c =>
  match uuid_Parse (Param c "instrument_id") with
  | inr _ => (mkResponse StatusBadRequest (Text "Malformed ID"), [])
  | inl instrumentID =>
      match Bind_InstrumentStatusCollection c with
      | inr err => (mkResponse StatusBadRequest (JSONError err), [])
      | inl items =>
          match assign_fresh_ids items 0 with
          | inr err => (mkResponse StatusInternalServerError (JSONError err), [])
          | inl ids =>
              let call := models_CreateOrUpdateInstrumentStatus instrumentID ids in
              match models call with
              | Some err => (mkResponse StatusInternalServerError (JSONError err), [call])
              | None => (mkResponse StatusCreated JSONEmptyObject, [call])
              end
          end
      end
  end.



(** The handlers of the AWARE parameters. *)



(** The handlers of instrument notes. *)

Definition ListInstrumentNotes : HandlerFunc := fun c =>
  let call := models_ListInstrumentNotes in
  match models call with
  | Some err => (mkResponse StatusInternalServerError (JSONError err), [call])
  | None => (mkResponse StatusOK (JSONResult call), [call])
  end.

Definition ListInstrumentInstrumentNotes : HandlerFunc := fun c =>
  match uuid_Parse (Param c "instrument_id") with
  | inr _ => (mkResponse StatusBadRequest (Text "Malformed ID"), [])
  | inl iID =>
      let call := models_ListInstrumentInstrumentNotes iID in
      match models call with
      | Some err => (mkResponse StatusInternalServerError (JSONError err), [call])
      | None => (mkResponse StatusOK (JSONResult call), [call])
      end
  end.

Definition GetInstrumentNote : HandlerFunc := fun c =>
  match uuid_Parse (Param c "note_id") with
  | inr _ => (mkResponse StatusBadRequest (Text "Malformed ID"), [])
  | inl nID =>
      let call := models_GetInstrumentNote nID in
      match models call with
      | Some err => (mkResponse StatusInternalServerError (JSONError err), [call])
      | None => (mkResponse StatusOK (JSONResult call), [call])
      end
  end.

Definition CreateInstrumentNote : HandlerFunc := fun c =>
  match Bind_InstrumentNoteCollection c with
  | inr err => (mkResponse StatusBadRequest (JSONError err), [])
  | inl items =>
      let t := time_Now in
      let stamped :=
        map (fun n => mkInstrumentNote (in_ID n) (in_InstrumentID n) (in_Title n) (in_Body n)
                        (in_Time n) (profile_ID c) t (in_Updater n) (in_UpdateDate n)) items in
      let call := models_CreateInstrumentNote stamped in
      match models call with
      | Some err => (mkResponse StatusInternalServerError (JSONError err), [call])
      | None => (mkResponse StatusCreated (JSONResult call), [call])
      end
  end.

Definition UpdateInstrumentNote : HandlerFunc := fun c =>
  match uuid_Parse (Param c "note_id") with
  | inr err => (mkResponse StatusBadRequest (JSONError err), [])
  | inl noteID =>
      let n0 := mkInstrumentNote noteID 0%N "" "" 0%Z 0%Z 0%Z 0%Z 0%Z in
      match Bind_InstrumentNote c n0 with
      | inr err => (mkResponse StatusBadRequest (JSONError err), [])
      | inl n =>
          if negb (noteID =? in_ID n)%N
          then (mkResponse StatusBadRequest
                  (Text "url note_id does not match object id in body"), [])
          else
            let t := time_Now in
            let n' := mkInstrumentNote (in_ID n) (in_InstrumentID n) (in_Title n) (in_Body n)
                        (in_Time n) (in_Creator n) (in_CreateDate n) (profile_ID c) t in
            let call := models_UpdateInstrumentNote n' in
            match models call with
            | Some err => (mkResponse StatusBadRequest (JSONError err), [call])
            | None => (mkResponse StatusOK (JSONResult call), [call])
            end
      end
  end.

Definition DeleteInstrumentNote : HandlerFunc := fun c =>
  match uuid_Parse (Param c "note_id") with
  | inr err => (mkResponse StatusBadRequest (JSONError err), [])
  | inl noteID =>
      let call := models_DeleteInstrumentNote noteID in
      match models call with
      | Some err => (mkResponse StatusInternalServerError (JSONError err), [call])
      | None => (mkResponse StatusOK JSONEmptyObject, [call])
      end
  end.



End Handlers.

(** ** Vocabulary of the statements *)

(** The points of a batch in the order the two loops visit them. *)
Definition points (mc : list MeasurementCollection) : list (UUID * Measurement) :=
  flat_map (fun c => map (fun m => (mc_TimeseriesID c, m)) (mc_Items c)) mc.

(** The statement executed for one point. *)
Definition upsert_of (p : UUID * Measurement) : Stmt :=
  UpsertMeasurement (fst p) (m_Time (snd p)) (m_Value (snd p)).

(** The rows of [timeseries_measurement] stored for [(tsid, t)], and for
    the series [tsid]. *)
Definition rows_at (tsid : UUID) (t : Time) (tb : Tables) : list MeasurementRow :=
  filter (same_key tsid t) (timeseries_measurement tb).

Definition rows_of_series (tsid : UUID) (tb : Tables) : list MeasurementRow :=
  filter (fun r => (r_timeseries_id r =? tsid)%N) (timeseries_measurement tb).

(** The key of a row under constraint [timeseries_unique_time]. *)
Definition row_key (r : MeasurementRow) : UUID * Time := (r_timeseries_id r, r_time r).

(** Points listed from the latest to the earliest. *)
Definition time_descending (items : list Measurement) : Prop :=
  StronglySorted (fun a b => (m_Time b <= m_Time a)%Z) items.

(** Strictly inside the window: after [tw.After] and before [tw.Before]. *)
Definition in_window (tw : TimeWindow) (t : Time) : Prop :=
  (tw_After tw < t /\ t < tw_Before tw)%Z.

(** The tables after upserting a list of points one after the other. *)
Definition upsert_all (ps : list (UUID * Measurement)) (tb : Tables) : Tables :=
  fold_left (fun t p => fst (exec_stmt (upsert_of p) t)) ps tb.

(** The two nested loops of [CreateOrUpdateTimeseriesMeasurements] read as
    one loop over [points]. *)
Fixpoint exec_points (fault : nat -> option error) (ps : list (UUID * Measurement))
         (txn : Tables) (w : World) : World * (Tables + error) :=
  match ps with
  | [] => (w, inl txn)
  | p :: rest =>
      match stmt_Exec fault (upsert_of p) txn w with
      | (w1, inr err) => (w1, inr err)
      | (w1, inl txn1) => exec_points fault rest txn1 w1
      end
  end.

(** No driver call fails among the [n] calls made from clock value [c] on. *)
Definition no_fault (fault : nat -> option error) (c n : nat) : Prop :=
  forall i, i < n -> fault (c + i) = None.

(** An [Exec] on [plot_configuration_timeseries] that deleted or inserted
    at least one row. *)
Definition changes_associations (e : Event) : bool :=
  match e with
  | EvExec (DeleteAssocNotIn _ _) (Some (S _)) => true
  | EvExec (InsertAssocDoNothing _ _) (Some (S _)) => true
  | _ => false
  end.

(** The association table after the inserts of [UpdatePlotConfiguration]. *)
Definition insert_all (pcid : UUID) (tsids : list UUID) (rows : list (UUID * UUID))
  : list (UUID * UUID) :=
  fold_left (fun rs t => fst (insert_assoc_do_nothing pcid t rs)) tsids rows.

(** The persisted associations of owner [pcid] are the desired ones:
    every row of the owner is for a desired timeseries, and every desired
    timeseries has its row. *)
Definition reconciled (pcid : UUID) (tsids : list UUID) (rows : list (UUID * UUID)) : Prop :=
  (forall a, In a rows -> fst a = pcid -> mem_uuid (snd a) tsids = true)
  /\ (forall t, In t tsids -> existsb (pair_eqb (pcid, t)) rows = true).

(** From [w] to [w'] the association table did not change and no logged
    statement deleted or inserted an association. *)
Definition quiet (w w' : World) : Prop :=
  plot_configuration_timeseries (committed w') = plot_configuration_timeseries (committed w)
  /\ exists evs, trace w' = trace w ++ evs
                 /\ Forall (fun e => changes_associations e = false) evs.

(** The first significant byte of a payload: the first one that is not
    JSON white space, if there is one. *)
Definition leading (b : list byte) : option byte := hd_error (trim_left_space b).

(** The bytes of an ASCII text. *)
Definition bytes (s : string) : list byte := list_byte_of_string s.






(** ** Concrete data for the examples *)

(** A driver that never fails, and one whose [k]-th call fails with [e]. *)
Definition never_fails : nat -> option error := fun _ => None.

Definition fails_at (k : nat) (e : error) : nat -> option error :=
  fun n => if Nat.eqb n k then Some e else None.

(** [h] o'clock on the first day of the epoch. *)
Definition hour (h : Z) : Time := (h * 3600 * 1000000000)%Z.

(** Series 1 holds 10:00 -> 1.0 and 11:00 -> 2.0; series 2 holds one point. *)
Definition ex_tables : Tables :=
  mkTables [1%N; 2%N]
           [mkMeasurementRow 1 (hour 10) 1.0%float;
            mkMeasurementRow 2 (hour 11) 9.5%float;
            mkMeasurementRow 1 (hour 11) 2.0%float]
           [] [] [].

Definition ex_world : World := mkWorld ex_tables 0 [].

(** The batch [{S, 11:00, 3.0}, {S, 12:00, 4.0}] for series 1. *)
Definition ex_batch : list MeasurementCollection :=
  [mkMeasurementCollection 1
     [mkMeasurement (hour 11) 3.0%float; mkMeasurement (hour 12) 4.0%float]].

(** Plot configuration 5 of project 3 is associated with timeseries 10 and
    11; plot configuration 6 with timeseries 10. *)
Definition ex_pc_tables : Tables :=
  mkTables [10%N; 11%N; 12%N] []
           [mkPlotConfigurationRow 5 "plot-a" "Plot A" 3 100 (hour 8) None None;
            mkPlotConfigurationRow 6 "plot-b" "Plot B" 3 100 (hour 8) None None]
           [(5%N, 10%N); (6%N, 10%N); (5%N, 11%N)]
           [].

Definition ex_pc_world : World := mkWorld ex_pc_tables 0 [].

(** The desired state of plot configuration 5: timeseries 11 and 12. *)
Definition ex_pc : PlotConfiguration :=
  mkPlotConfiguration 5 "Plot A" "plot-a" 3 [11%N; 12%N]
    (mkAuditInfo 100 (hour 8) (Some 101%N) (Some (hour 9))).

(** The desired state of plot configuration 5: no timeseries at all. *)
Definition ex_pc_none : PlotConfiguration :=
  mkPlotConfiguration 5 "Plot A" "plot-a" 3 []
    (mkAuditInfo 100 (hour 8) (Some 101%N) (Some (hour 9))).

(** A stand-in for [encoding/json] on the payloads made of empty objects:
    [{}] decodes to the destination unchanged (no field is set), [[]] to the
    empty slice, [[{}]] and [[{},{}]] to one and two zero values; anything
    else is refused.  Leading white space is skipped. *)
Definition bytes_eqb (a b : list byte) : bool :=
  if list_eq_dec Byte.byte_eq_dec a b then true else false.

#[export] Instance ex_json : JSONEntity MeasurementCollection := {|
  zero := mkMeasurementCollection 0 [];
  json_Unmarshal := fun b x =>
    if bytes_eqb (trim_left_space b) (bytes "{}") then (x, None)
    else (x, Some "json: cannot unmarshal"%string);
  json_Unmarshal_slice := fun b xs =>
    if bytes_eqb (trim_left_space b) (bytes "[]") then ([], None)
    else if bytes_eqb (trim_left_space b) (bytes "[{}]")
    then ([mkMeasurementCollection 0 []], None)
    else if bytes_eqb (trim_left_space b) (bytes "[{},{}]")
    then ([mkMeasurementCollection 0 []; mkMeasurementCollection 0 []], None)
    else (xs, Some "json: cannot unmarshal"%string)
|}.

(** A stand-in for [encoding/json] that obeys the law of arrays.  An
    element is decoded when it is the empty object, which sets no field, or
    an object whose only member is [timeseries_id] with a one-digit value;
    an array is decoded element by element, stopping at the first element
    that is refused. *)
Definition ex_entity_text (d : byte) : list byte :=
  x7b :: x22 :: list_byte_of_string "timeseries_id" ++ [x22; x3a; d; x7d].

Definition digit_value (d : byte) : option N :=
  match d with
  | x30 => Some 0%N | x31 => Some 1%N | x32 => Some 2%N | x33 => Some 3%N
  | x34 => Some 4%N | x35 => Some 5%N | x36 => Some 6%N | x37 => Some 7%N
  | x38 => Some 8%N | x39 => Some 9%N
  | _ => None
  end.

Definition ex_unmarshal (b : list byte) (x : MeasurementCollection)
  : MeasurementCollection * option error :=
  let t := trim_left_space b in
  if bytes_eqb t [x7b; x7d] then (x, None)
  else match nth_error t 17 with
       | Some d =>
           match digit_value d with
           | Some n =>
               if bytes_eqb t (ex_entity_text d)
               then (mkMeasurementCollection n (mc_Items x), None)
               else (x, Some "json: cannot unmarshal"%string)
           | None => (x, Some "json: cannot unmarshal"%string)
           end
       | None => (x, Some "json: cannot unmarshal"%string)
       end.

Fixpoint ex_unmarshal_elements (elems : list (list byte))
  : list MeasurementCollection * option error :=
  match elems with
  | [] => ([], None)
  | e :: rest =>
      match ex_unmarshal e (mkMeasurementCollection 0 []) with
      | (x, Some err) => ([], Some err)
      | (x, None) =>
          match ex_unmarshal_elements rest with
          | (xs, Some err) => (x :: xs, Some err)
          | (xs, None) => (x :: xs, None)
          end
      end
  end.

Definition ex_encoding_json : JSONEntity MeasurementCollection := {|
  zero := mkMeasurementCollection 0 [];
  json_Unmarshal := ex_unmarshal;
  json_Unmarshal_slice := fun b xs =>
    match json_array_elements b with
    | Some elems => ex_unmarshal_elements elems
    | None => (xs, Some "unexpected end of JSON input"%string)
    end
|}.

(** A request for instrument [1], a parser that accepts every identifier
    as [1], and a data-access layer that is down. *)
Definition ex_request : Request :=
  mkRequest (fun _ => "00000000-0000-0000-0000-000000000001"%string) [] 100.

Definition ex_uuid_Parse : string -> UUID + error := fun _ => inl 1%N.

Definition ex_models_down : ModelCall -> option error :=
  fun _ => Some "pq: the database system is shutting down"%string.

(** Project 1 exists; no project 9 does. *)
Definition ex_project_tables : Tables :=
  mkTables [] [] [] []
    [mkProject 1 None None None false "project-one" "Project One" [] 0 0
       (mkAuditInfo 100 (hour 8) None None)].

Definition ex_project_world : World := mkWorld ex_project_tables 0 [].


Definition ex_uuid_NewRandom : nat -> UUID + error := fun n => inl (N.of_nat n).

Definition ex_Bind_InstrumentStatusCollection : Request -> list UUID + error :=
  fun _ => inl [].

Definition ex_Bind_InstrumentNoteCollection : Request -> list InstrumentNote + error :=
  fun _ => inl [].

Definition ex_Bind_InstrumentNote : Request -> InstrumentNote -> InstrumentNote + error :=
  fun _ n => inl n.


(** ** Further functions of the sources *)

(** [TimeseriesMeasurementCollectionCollection.TimeseriesIDs]:
    [dd := make([]uuid.UUID, 0)], then one [append] per item. *)
Definition TimeseriesIDs (Items : list MeasurementCollection) : list UUID :=
  fold_left (fun dd item => dd ++ [mc_TimeseriesID item]) Items [].

(** The stored rows of series [id] strictly inside the window, as points. *)
Definition stored_points_in_window (id : UUID) (tw : TimeWindow) (tb : Tables)
  : list Measurement :=
  map (fun r => mkMeasurement (r_time r) (r_value r))
      (filter (fun r => (r_timeseries_id r =? id)%N
                        && (tw_After tw <? r_time r)%Z
                        && (r_time r <? tw_Before tw)%Z)
              (timeseries_measurement tb)).

(** A query without [ORDER BY] returns the matching rows in an order that
    the server chooses.  The functions that send such a query take that
    choice as [row_order]; all that is known of it is [arranges]: what it
    returns is a rearrangement of what matched. *)
Definition arranges {A : Type} (row_order : list A -> list A) : Prop :=
  forall l, Permutation (row_order l) l.

(** [ListPlotConfigurationSlugs]: [db.Select] of
    [SELECT slug FROM plot_configuration]; a fresh empty slice with the
    error when it fails. *)
Definition ListPlotConfigurationSlugs (fault : nat -> option error)
           (row_order : list string -> list string) (w : World)
  : World * (list string * option error) :=
  match db_Query fault (fun t => row_order (map pcr_slug (plot_configuration t))) w with
  | (w1, inr err) => (w1, ([], Some err))
  | (w1, inl ss) => (w1, (ss, None))
  end.

(** [ListPlotConfigurationsSQL + " WHERE project_id = $1"]. *)
Definition listPlotConfigurations_rows (projectID : UUID) (t : Tables)
  : list PlotConfiguration :=
  filter (fun p => (pc_ProjectID p =? projectID)%N) (v_plot_configuration t).

(** [ListPlotConfigurations]: [db.Queryx], then [PlotConfigFactory] over the
    rows in the order the server sends them. *)
Definition ListPlotConfigurations (fault : nat -> option error)
           (row_order : list PlotConfiguration -> list PlotConfiguration)
           (projectID : UUID) (w : World)
  : World * (list PlotConfiguration * option error) :=
  match db_Query fault (fun t => row_order (listPlotConfigurations_rows projectID t)) w with
  | (w1, inr err) => (w1, ([], Some err))
  | (w1, inl rows) => PlotConfigFactory fault rows w1
  end.

(** The tables after the three statements of [UpdatePlotConfiguration]: the
    update of the plot configuration, the delete of the associations that
    are not desired, one insert per desired timeseries. *)
Definition reconcile_tables (pc : PlotConfiguration) (tb : Tables) : Tables :=
  fold_left (fun t tsid => fst (exec_stmt (InsertAssocDoNothing (pc_ID pc) tsid) t))
            (pc_TimeseriesID pc)
            (fst (exec_stmt (DeleteAssocNotIn (pc_ID pc) (pc_TimeseriesID pc))
                    (fst (exec_stmt (UpdatePlotConfigurationStmt (pc_ProjectID pc) (pc_ID pc)
                                       (pc_Name pc) (Updater (pc_Audit pc))
                                       (UpdateDate (pc_Audit pc))) tb)))).

(** *** Go maps, as association lists *)

(** [m[k]] with the comma-ok form: the value bound to [k], if any. *)
Fixpoint assoc_get {K V : Type} (eqb : K -> K -> bool) (k : K) (m : list (K * V))
  : option V :=
  match m with
  | [] => None
  | (k', v) :: rest => if eqb k' k then Some v else assoc_get eqb k rest
  end.

(** [m[k] = v]: the binding of [k] is replaced, or added. *)
Fixpoint assoc_set {K V : Type} (eqb : K -> K -> bool) (k : K) (v : V) (m : list (K * V))
  : list (K * V) :=
  match m with
  | [] => [(k, v)]
  | (k', v') :: rest =>
      if eqb k' k then (k, v) :: rest else (k', v') :: assoc_set eqb k v rest
  end.

(** [map[uuid.UUID]map[string]bool]. *)
Definition NamesMap := list (UUID * list (string * bool)).

(** [m[p][s]], which is [false] when either key is missing. *)
Definition names_lookup (m : NamesMap) (p : UUID) (s : string) : bool :=
  match assoc_get N.eqb p m with
  | Some inner =>
      match assoc_get String.eqb s inner with
      | Some b => b
      | None => false
      end
  | None => false
  end.

(** [ORDER BY project_id], by insertion. *)
Fixpoint insert_by_project (x : UUID * string) (l : list (UUID * string))
  : list (UUID * string) :=
  match l with
  | [] => [x]
  | y :: ys => if (fst x <=? fst y)%N then x :: l else y :: insert_by_project x ys
  end.

Definition order_by_project_id (l : list (UUID * string)) : list (UUID * string) :=
  fold_right insert_by_project [] l.

(** [sqlx.In(sql, projectIDs)] with a single slice argument: an empty slice
    is refused, otherwise the arguments are the elements of the slice. *)
Definition sqlx_In_slice (ids : list UUID) : list UUID + error :=
  match ids with
  | [] => inr "empty slice passed to 'in' query"%string
  | _ :: _ => inl ids
  end.

Section ProjectInstrumentNames.

Variable fault : nat -> option error.

(** Table [instrument], which record [Tables] does not carry: its columns
    [project_id] and [name], read off the committed tables. *)
Variable instrument : Tables -> list (UUID * string).

(** [strings.ToUpper]. *)
Variable strings_ToUpper : string -> string.

(** [SELECT project_id, name FROM instrument WHERE project_id IN (?)
     ORDER BY project_id]. *)
Definition projectInstrumentNames_rows (args : list UUID) (t : Tables)
  : list (UUID * string) :=
  order_by_project_id (filter (fun n => mem_uuid (fst n) args) (instrument t)).

(** The loop that makes the map.  [_pID] starts as the zero UUID; writing
    into [m[n.ProjectID]] when that inner map was never made is Go's panic
    on a nil map. *)
Fixpoint names_loop (nn : list (UUID * string)) (m : NamesMap) (_pID : UUID)
  : result NamesMap :=
  match nn with
  | [] => Ok m
  | n :: rest =>
      let '(m1, pID1) :=
        if negb (fst n =? _pID)%N
        then (assoc_set N.eqb (fst n) [] m, fst n)
        else (m, _pID) in
      match assoc_get N.eqb (fst n) m1 with
      | None => Panic "assignment to entry in nil map"
      | Some inner =>
          names_loop rest
            (assoc_set N.eqb (fst n)
               (assoc_set String.eqb (strings_ToUpper (snd n)) true inner) m1)
            pID1
      end
  end.

(** [projectInstrumentNamesMap]. *)
Definition projectInstrumentNamesMap (projectIDs : list UUID) (w : World)
  : World * result NamesMap :=
  match sqlx_In_slice projectIDs with
  | inr err => (w, Err err)
  | inl args =>
      match db_Query fault (projectInstrumentNames_rows args) w with
      | (w1, inr err) => (w1, Err err)
      | (w1, inl nn) => (w1, names_loop nn [] 0%N)
      end
  end.

End ProjectInstrumentNames.

(** Some instrument of project [p] has a name whose upper-case form is [s]. *)
Definition has_name (strings_ToUpper : string -> string) (nn : list (UUID * string))
           (p : UUID) (s : string) : Prop :=
  exists name, In (p, name) nn /\ strings_ToUpper name = s.

(** Upper case on ASCII letters, for the examples. *)
Definition ex_upper_ascii (c : ascii) : ascii :=
  let n := nat_of_ascii c in
  if (Nat.leb 97 n && Nat.leb n 122)%bool then ascii_of_nat (n - 32) else c.

Fixpoint ex_ToUpper (s : string) : string :=
  match s with
  | EmptyString => EmptyString
  | String c rest => String (ex_upper_ascii c) (ex_ToUpper rest)
  end.

(** Instruments of projects 3 and 4. *)
Definition ex_instrument : Tables -> list (UUID * string) :=
  fun _ => [(4%N, "PZ-2"%string); (3%N, "pz-1"%string); (3%N, "Pz-9"%string)].

(** [models.IDAndSlug] and [models.IDAndSlugCollection], as
    [InstrumentGroupCollection.Shorten] builds them. *)
Record IDAndSlug := mkIDAndSlug {
  ias_ID : UUID;
  ias_Slug : string
}.

(** [InstrumentGroupCollection.Shorten]: [ss.Items] starts as a fresh empty
    slice and gets one [append] per item; the result is [ss.Items]. *)
Definition Shorten (Items : list InstrumentGroup) : list IDAndSlug :=
  fold_left (fun ss n => ss ++ [mkIDAndSlug (ig_ID n) (ig_Slug n)]) Items [].

(** Two notes that differ at most in [Creator] and [CreateDate]. *)
Definition same_but_creation (a b : InstrumentNote) : Prop :=
  in_ID a = in_ID b /\ in_InstrumentID a = in_InstrumentID b
  /\ in_Title a = in_Title b /\ in_Body a = in_Body b /\ in_Time a = in_Time b
  /\ in_Updater a = in_Updater b /\ in_UpdateDate a = in_UpdateDate b.

(** Two notes that differ at most in [Updater] and [UpdateDate]. *)
Definition same_but_update (a b : InstrumentNote) : Prop :=
  in_ID a = in_ID b /\ in_InstrumentID a = in_InstrumentID b
  /\ in_Title a = in_Title b /\ in_Body a = in_Body b /\ in_Time a = in_Time b
  /\ in_Creator a = in_Creator b /\ in_CreateDate a = in_CreateDate b.

(** ** The data-access functions of instrument notes (package [models]) *)

(** [sql.ErrNoRows]. *)
Definition ErrNoRows : error := "sql: no rows in result set".

Module Notes.

(** Table [instrument_note] as committed, with the number of driver calls
    made so far. *)
Record Store := mkStore {
  instrument_note : list InstrumentNote;
  calls : nat
}.

Definition called (s : Store) : Store := mkStore (instrument_note s) (S (calls s)).

(** [SET title = $2, body = $3, time = $4, updater = $5, update_date = $6]
    applied to row [r] with the values of [n]. *)
Definition set_columns (n r : InstrumentNote) : InstrumentNote :=
  mkInstrumentNote (in_ID r) (in_InstrumentID r) (in_Title n) (in_Body n) (in_Time n)
                   (in_Creator r) (in_CreateDate r) (in_Updater n) (in_UpdateDate n).

Definition has_id (id : UUID) (r : InstrumentNote) : bool := (in_ID r =? id)%N.

Section WithDriver.

(** Whether the [k]-th driver call fails, and with which error. *)
Variable fault : nat -> option error.

(** The order in which the server returns the rows of
    [listInstrumentNotesSQL()], which has no [ORDER BY]. *)
Variable row_order : list InstrumentNote -> list InstrumentNote.

(** [ListInstrumentNotes]: [db.Select] of [listInstrumentNotesSQL()], every
    row. *)
Definition ListInstrumentNotes (s : Store) : Store * (list InstrumentNote * option error) :=
  match fault (calls s) with
  | Some err => (called s, ([], Some err))
  | None => (called s, (row_order (instrument_note s), None))
  end.

(** [ListInstrumentInstrumentNotes]: [... WHERE N.instrument_id = $1]. *)
Definition ListInstrumentInstrumentNotes (instrumentID : UUID) (s : Store)
  : Store * (list InstrumentNote * option error) :=
  match fault (calls s) with
  | Some err => (called s, ([], Some err))
  | None =>
      (called s,
       (row_order
          (filter (fun r => (in_InstrumentID r =? instrumentID)%N) (instrument_note s)),
        None))
  end.

(** [GetInstrumentNote]: [db.Get] scans the first row and reports
    [sql.ErrNoRows] when there is none. *)
Definition GetInstrumentNote (id : UUID) (s : Store) : Store * result InstrumentNote :=
  match fault (calls s) with
  | Some err => (called s, Err err)
  | None =>
      match filter (has_id id) (instrument_note s) with
      | [] => (called s, Err ErrNoRows)
      | n :: _ => (called s, Ok n)
      end
  end.

(** The loop [for _, n := range notes] of [CreateInstrumentNote]: each
    [stmt.Exec(n.ID, ...)] hands one row to the COPY. *)
Fixpoint copy_rows (notes copied : list InstrumentNote) (s : Store)
  : Store * (list InstrumentNote + error) :=
  match notes with
  | [] => (s, inl copied)
  | n :: rest =>
      match fault (calls s) with
      | Some err => (called s, inr err)
      | None => copy_rows rest (copied ++ [n]) (called s)
      end
  end.

(** [CreateInstrumentNote]: begin, prepare the COPY, one [Exec] per note,
    the closing [Exec()], [Close], [Commit]; every error is returned as it
    comes, without rollback, and only the commit makes the rows visible. *)
Definition CreateInstrumentNote (notes : list InstrumentNote) (s : Store)
  : Store * option error :=
  match fault (calls s) with                                   (* db.Begin *)
  | Some err => (called s, Some err)
  | None =>
  let s1 := called s in
  match fault (calls s1) with                                  (* txn.Prepare *)
  | Some err => (called s1, Some err)
  | None =>
  match copy_rows notes [] (called s1) with
  | (s2, inr err) => (s2, Some err)
  | (s2, inl copied) =>
  match fault (calls s2) with                                  (* stmt.Exec() *)
  | Some err => (called s2, Some err)
  | None =>
  let s3 := called s2 in
  match fault (calls s3) with                                  (* stmt.Close *)
  | Some err => (called s3, Some err)
  | None =>
  let s4 := called s3 in
  match fault (calls s4) with                                  (* txn.Commit *)
  | Some err => (called s4, Some err)
  | None => (mkStore (instrument_note s4 ++ copied) (S (calls s4)), None)
  end end end end end end.

(** [UpdateInstrumentNote]: [UPDATE instrument_note SET ... WHERE id = $1
    RETURNING ...] through [QueryRowx(...).StructScan], which scans the
    first returned row and reports [sql.ErrNoRows] when no row was
    updated. *)
Definition UpdateInstrumentNote (n : InstrumentNote) (s : Store)
  : Store * result InstrumentNote :=
  match fault (calls s) with
  | Some err => (called s, Err err)
  | None =>
      let rows :=
        map (fun r => if has_id (in_ID n) r then set_columns n r else r)
            (instrument_note s) in
      match filter (has_id (in_ID n)) rows with
      | [] => (mkStore rows (S (calls s)), Err ErrNoRows)
      | u :: _ => (mkStore rows (S (calls s)), Ok u)
      end
  end.

(** [DeleteInstrumentNote]: [DELETE FROM instrument_note WHERE id = $1]. *)
Definition DeleteInstrumentNote (id : UUID) (s : Store) : Store * option error :=
  match fault (calls s) with
  | Some err => (called s, Some err)
  | None =>
      (mkStore (filter (fun r => negb (has_id id r)) (instrument_note s)) (S (calls s)),
       None)
  end.

End WithDriver.

(** Two notes, of instruments 7 and 8. *)
Definition ex_store : Store :=
  mkStore [mkInstrumentNote 21 7 "Inspection" "No seepage" (hour 9) 100 (hour 9) 0 0;
           mkInstrumentNote 22 8 "Reading" "Gauge replaced" (hour 10) 100 (hour 10) 0 0]
          0.

(** A new title, body and time for note 21. *)
Definition ex_edit : InstrumentNote :=
  mkInstrumentNote 21 0 "Inspection (revised)" "Minor seepage" (hour 11) 0 0 101 (hour 12).

End Notes.

(** *** Timeseries promoted to the project level *)

Module ProjectTimeseries.

(** Table [project_timeseries] as committed, with the number of driver
    calls made so far. *)
Record Store := mkStore {
  project_timeseries : list (UUID * UUID);
  calls : nat
}.

(** Constraint [project_unique_timeseries]: a pair is stored at most once. *)
Definition project_unique_timeseries (rows : list (UUID * UUID)) : Prop :=
  NoDup rows.

Section WithDriver.

(** Whether the [k]-th driver call fails, and with which error. *)
Variable fault : nat -> option error.

(** [CreateProjectTimeseries]: one [db.Exec] of
    [INSERT INTO project_timeseries (project_id, timeseries_id) VALUES ($1, $2)
     ON CONFLICT ON CONSTRAINT project_unique_timeseries DO NOTHING]. *)
Definition CreateProjectTimeseries (projectID timeseriesID : UUID) (s : Store)
  : Store * option error :=
  match fault (calls s) with
  | Some err => (mkStore (project_timeseries s) (S (calls s)), Some err)
  | None =>
      (mkStore (fst (insert_assoc_do_nothing projectID timeseriesID (project_timeseries s)))
               (S (calls s)),
       None)
  end.

(** [DeleteProjectTimeseries]: one [db.Exec] of
    [DELETE FROM project_timeseries WHERE project_id = $1 AND timeseries_id = $2]. *)
Definition DeleteProjectTimeseries (projectID timeseriesID : UUID) (s : Store)
  : Store * option error :=
  match fault (calls s) with
  | Some err => (mkStore (project_timeseries s) (S (calls s)), Some err)
  | None =>
      (mkStore (filter (fun a => negb (pair_eqb (projectID, timeseriesID) a))
                       (project_timeseries s))
               (S (calls s)),
       None)
  end.

End WithDriver.

(** Timeseries 1 and 2 promoted in project 50, timeseries 1 in project 51. *)
Definition ex_store : Store := mkStore [(50, 1); (50, 2); (51, 1)]%N 0.

End ProjectTimeseries.

(* ================================================================== *)
(** * Part II. Properties *)
(* ================================================================== *)

(** ** The driver *)

Lemma committed_tick : forall w e, committed (tick w e) = committed w.
Proof. reflexivity. Qed.

Lemma no_fault_head : forall fault c n, no_fault fault c (S n) -> fault c = None.
Proof.
  intros fault c n H. specialize (H 0). rewrite Nat.add_0_r in H. apply H. lia.
Qed.

Lemma no_fault_tail : forall fault c n, no_fault fault c (S n) -> no_fault fault (S c) n.
Proof.
  intros fault c n H i Hi. replace (S c + i) with (c + S i) by lia. apply H. lia.
Qed.

Lemma no_fault_weaken :
  forall fault c n m, m <= n -> no_fault fault c n -> no_fault fault c m.
Proof. intros fault c n m Hle H i Hi. apply H. lia. Qed.

Lemma upsert_rows_affected :
  forall tsid t v rows, snd (upsert_measurement tsid t v rows) = 1.
Proof.
  intros tsid t v rows. induction rows as [|r rs IH]; simpl.
  - reflexivity.
  - destruct (same_key tsid t r); [reflexivity|].
    destruct (upsert_measurement tsid t v rs) as [rs' n]. exact IH.
Qed.

Lemma exec_upsert_rows_affected :
  forall p tb, snd (exec_stmt (upsert_of p) tb) = 1.
Proof.
  intros p tb. unfold upsert_of. simpl.
  pose proof (upsert_rows_affected (fst p) (m_Time (snd p)) (m_Value (snd p))
                (timeseries_measurement tb)) as H.
  destruct (upsert_measurement _ _ _ _) as [rows n]. exact H.
Qed.

(** ** [CreateOrUpdateTimeseriesMeasurements] *)

Section MeasurementWriter.

Variable fault : nat -> option error.

Lemma exec_points_app :
  forall ps qs txn w,
    exec_points fault (ps ++ qs) txn w =
    match exec_points fault ps txn w with
    | (w1, inr err) => (w1, inr err)
    | (w1, inl txn1) => exec_points fault qs txn1 w1
    end.
Proof.
  induction ps as [|p ps IH]; intros qs txn w; simpl.
  - reflexivity.
  - destruct (stmt_Exec fault (upsert_of p) txn w) as [w1 [txn1|err]].
    + apply IH.
    + reflexivity.
Qed.

Lemma exec_items_points :
  forall tsid items txn w,
    exec_items fault tsid items txn w =
    exec_points fault (map (fun m => (tsid, m)) items) txn w.
Proof.
  intros tsid items. induction items as [|m ms IH]; intros txn w; simpl.
  - reflexivity.
  - unfold upsert_of; simpl.
    destruct (stmt_Exec fault _ txn w) as [w1 [txn1|err]]; [apply IH|reflexivity].
Qed.

Lemma exec_collections_points :
  forall mc txn w, exec_collections fault mc txn w = exec_points fault (points mc) txn w.
Proof.
  induction mc as [|c cs IH]; intros txn w; simpl.
  - reflexivity.
  - unfold points; simpl. fold (points cs).
    rewrite exec_points_app, exec_items_points.
    destruct (exec_points fault _ txn w) as [w1 [txn1|err]]; [apply IH|reflexivity].
Qed.

(** A run of the loop in which every [Exec] succeeds. *)
Lemma exec_points_ok :
  forall ps txn w,
    no_fault fault (clock w) (List.length ps) ->
    exec_points fault ps txn w =
    (mkWorld (committed w) (clock w + List.length ps)
             (trace w ++ map (fun p => EvExec (upsert_of p) (Some 1)) ps),
     inl (upsert_all ps txn)).
Proof.
  induction ps as [|p ps IH]; intros txn w Hnf; cbn [exec_points List.length map].
  - rewrite Nat.add_0_r, app_nil_r. destruct w; reflexivity.
  - unfold stmt_Exec at 1. rewrite (no_fault_head _ _ _ Hnf).
    pose proof (exec_upsert_rows_affected p txn) as Hn.
    destruct (exec_stmt (upsert_of p) txn) as [txn1 n] eqn:E. simpl in Hn. subst n.
    rewrite IH by (apply no_fault_tail; exact Hnf).
    unfold tick, upsert_all; cbn [fold_left committed clock trace]. rewrite E.
    rewrite <- app_assoc. cbn [fst app]. f_equal. f_equal. lia.
Qed.

(** The loop never touches the committed tables, whatever happens. *)
Lemma exec_points_committed :
  forall ps txn w w' r, exec_points fault ps txn w = (w', r) -> committed w' = committed w.
Proof.
  induction ps as [|p ps IH]; intros txn w w' r H; simpl in H.
  - inversion H; reflexivity.
  - unfold stmt_Exec in H. destruct (fault (clock w)).
    + inversion H; reflexivity.
    + destruct (exec_stmt (upsert_of p) txn) as [txn1 n].
      apply IH in H. rewrite H. reflexivity.
Qed.

(** When the loop succeeds it has upserted every point, in order. *)
Lemma exec_points_inl :
  forall ps txn w w' txn', exec_points fault ps txn w = (w', inl txn') -> txn' = upsert_all ps txn.
Proof.
  induction ps as [|p ps IH]; intros txn w w' txn' H; simpl in H.
  - inversion H; reflexivity.
  - unfold stmt_Exec in H. destruct (fault (clock w)); [discriminate|].
    destruct (exec_stmt (upsert_of p) txn) as [txn1 n] eqn:E.
    apply IH in H. subst txn'. unfold upsert_all; cbn [fold_left]. rewrite E. reflexivity.
Qed.

(** An error return leaves the committed tables as they were. *)
Lemma CreateOrUpdateTimeseriesMeasurements_err_unchanged :
  forall mc w w' e,
    CreateOrUpdateTimeseriesMeasurements fault mc w = (w', Err e) ->
    committed w' = committed w.
Proof.
  intros mc w w' e H. unfold CreateOrUpdateTimeseriesMeasurements in H.
  unfold db_Begin, tx_Prepare in H.
  destruct (fault (clock w)); [inversion H; reflexivity|].
  simpl in H. destruct (fault (S (clock w))); [inversion H; reflexivity|].
  rewrite exec_collections_points in H.
  destruct (exec_points fault _ _ _) as [w3 [txn'|err]] eqn:E.
  - apply exec_points_committed in E. simpl in E.
    unfold stmt_Close, tx_Commit in H.
    destruct (fault (clock w3)); [inversion H; simpl; exact E|].
    simpl in H. destruct (fault (S (clock w3))); [inversion H; simpl; exact E|].
    discriminate.
  - apply exec_points_committed in E. inversion H. simpl. exact E.
Qed.

(** A successful return has committed exactly the upserts of the batch, and
    gives back its argument. *)
Lemma CreateOrUpdateTimeseriesMeasurements_ok :
  forall mc w w' r,
    CreateOrUpdateTimeseriesMeasurements fault mc w = (w', Ok r) ->
    r = mc /\ committed w' = upsert_all (points mc) (committed w).
Proof.
  intros mc w w' r H. unfold CreateOrUpdateTimeseriesMeasurements in H.
  unfold db_Begin, tx_Prepare in H.
  destruct (fault (clock w)); [discriminate|].
  simpl in H. destruct (fault (S (clock w))); [discriminate|].
  rewrite exec_collections_points in H.
  destruct (exec_points fault _ _ _) as [w3 [txn'|err]] eqn:E; [|discriminate].
  apply exec_points_inl in E.
  unfold stmt_Close, tx_Commit in H.
  destruct (fault (clock w3)); [discriminate|].
  simpl in H. destruct (fault (S (clock w3))); [discriminate|].
  inversion H. subst. simpl. split; reflexivity.
Qed.

(** With no failing driver call the function succeeds. *)
Lemma CreateOrUpdateTimeseriesMeasurements_runs :
  forall mc w,
    no_fault fault (clock w) (4 + List.length (points mc)) ->
    exists w', CreateOrUpdateTimeseriesMeasurements fault mc w = (w', Ok mc).
Proof.
  intros mc w Hnf. unfold CreateOrUpdateTimeseriesMeasurements.
  unfold db_Begin, tx_Prepare.
  rewrite (no_fault_head _ _ _ Hnf). apply no_fault_tail in Hnf. simpl.
  rewrite (no_fault_head _ _ _ Hnf). apply no_fault_tail in Hnf.
  rewrite exec_collections_points.
  rewrite exec_points_ok
    by (simpl; apply no_fault_weaken with (2 := Hnf); lia).
  unfold stmt_Close, tx_Commit. simpl.
  assert (H1 : fault (S (S (clock w)) + List.length (points mc)) = None)
    by (apply Hnf; lia).
  assert (H2 : fault (S (S (clock w)) + S (List.length (points mc))) = None)
    by (apply Hnf; lia).
  simpl in H1, H2. rewrite H1. simpl.
  replace (S (S (S (clock w + List.length (points mc)))))
    with (S (S (clock w + S (List.length (points mc))))) by lia.
  rewrite H2. eexists. reflexivity.
Qed.

End MeasurementWriter.

(** A run of the loop whose first failing [Exec] is the one for point [p]. *)
Lemma exec_points_fail :
  forall fault pre p post txn w e,
    no_fault fault (clock w) (List.length pre) ->
    fault (clock w + List.length pre) = Some e ->
    exec_points fault (pre ++ p :: post) txn w =
    (mkWorld (committed w) (S (clock w + List.length pre))
             (trace w ++ map (fun q => EvExec (upsert_of q) (Some 1)) pre
                      ++ [EvExec (upsert_of p) None]),
     inr e).
Proof.
  intros fault pre p post txn w e Hnf He.
  rewrite exec_points_app, exec_points_ok by exact Hnf.
  cbn [exec_points]. unfold stmt_Exec. cbn [clock]. rewrite He.
  unfold tick. cbn [committed clock trace]. rewrite <- app_assoc. reflexivity.
Qed.

(** C1.  In [CreateOrUpdateTimeseriesMeasurements], when the write of a
    point [p] of the batch fails with error [e] (the transaction has begun,
    the statement is prepared and the points before [p] were written), the
    call returns [e] itself, the committed tables are exactly what they were
    before the call, and the driver log of the call is: begin, prepare, one
    successful [Exec] per earlier point, the single failed [Exec] for [p],
    and the rollback; nothing is tried again and nothing is committed. *)
Theorem CreateOrUpdateTimeseriesMeasurements_point_failure_aborts :
  forall (fault : nat -> option error) (w : World)
         (mc : list MeasurementCollection)
         (pre post : list (UUID * Measurement)) (p : UUID * Measurement) (e : error),
    points mc = pre ++ p :: post ->
    no_fault fault (clock w) (2 + List.length pre) ->
    fault (clock w + (2 + List.length pre)) = Some e ->
    exists w',
      CreateOrUpdateTimeseriesMeasurements fault mc w = (w', Err e)
      /\ committed w' = committed w
      /\ trace w' =
         trace w ++ [EvBegin true; EvPrepare true]
                 ++ map (fun q => EvExec (upsert_of q) (Some 1)) pre
                 ++ [EvExec (upsert_of p) None; EvRollback].
Proof.
  intros fault w mc pre post p e Hpts Hnf He.
  unfold CreateOrUpdateTimeseriesMeasurements, db_Begin, tx_Prepare.
  rewrite (no_fault_head _ _ _ Hnf). apply no_fault_tail in Hnf.
  cbn [tick clock]. rewrite (no_fault_head _ _ _ Hnf). apply no_fault_tail in Hnf.
  rewrite exec_collections_points, Hpts.
  rewrite (exec_points_fail _ _ _ _ _ _ e).
  - eexists. split; [reflexivity|]. split; [reflexivity|].
    unfold tx_Rollback, tick. cbn [trace committed clock].
    repeat rewrite <- app_assoc. reflexivity.
  - exact Hnf.
  - cbn [tick clock]. rewrite <- He. f_equal. lia.
Qed.

(** C8.  [CreateOrUpdateTimeseriesMeasurements] gives back its argument:
    whenever it returns without error the value returned is the input
    sequence itself; when no driver call fails it does return without error;
    and on the empty sequence it then succeeds with the empty sequence and
    leaves the committed tables as they were. *)
Theorem CreateOrUpdateTimeseriesMeasurements_echoes_input :
  forall (fault : nat -> option error) (mc : list MeasurementCollection) (w : World),
    (forall w' r,
        CreateOrUpdateTimeseriesMeasurements fault mc w = (w', Ok r) -> r = mc)
    /\ (no_fault fault (clock w) (4 + List.length (points mc)) ->
        exists w', CreateOrUpdateTimeseriesMeasurements fault mc w = (w', Ok mc))
    /\ (no_fault fault (clock w) 4 ->
        exists w',
          CreateOrUpdateTimeseriesMeasurements fault [] w = (w', Ok [])
          /\ committed w' = committed w).
Proof.
  intros fault mc w. split; [|split].
  - intros w' r H. apply CreateOrUpdateTimeseriesMeasurements_ok in H. tauto.
  - apply CreateOrUpdateTimeseriesMeasurements_runs.
  - intros Hnf.
    destruct (CreateOrUpdateTimeseriesMeasurements_runs fault [] w Hnf) as [w' Hw'].
    exists w'. split; [exact Hw'|].
    apply CreateOrUpdateTimeseriesMeasurements_ok in Hw'. tauto.
Qed.

Lemma CreateOrUpdateTimeseriesMeasurements_point_failure_aborts_witness :
  exists w',
    CreateOrUpdateTimeseriesMeasurements (fails_at 3 "connection reset") ex_batch ex_world
    = (w', Err "connection reset"%string)
    /\ committed w' = committed ex_world
    /\ trace w' =
       trace ex_world ++ [EvBegin true; EvPrepare true]
         ++ map (fun q => EvExec (upsert_of q) (Some 1))
                [(1%N, mkMeasurement (hour 11) 3.0%float)]
         ++ [EvExec (upsert_of (1%N, mkMeasurement (hour 12) 4.0%float)) None; EvRollback].
Proof.
  apply (CreateOrUpdateTimeseriesMeasurements_point_failure_aborts
           (fails_at 3 "connection reset") ex_world ex_batch
           [(1%N, mkMeasurement (hour 11) 3.0%float)] []
           (1%N, mkMeasurement (hour 12) 4.0%float) "connection reset"%string).
  - reflexivity.
  - intros i Hi. destruct i as [|[|[|i]]]; simpl; try reflexivity. simpl in Hi. lia.
  - reflexivity.
Defined.

Lemma CreateOrUpdateTimeseriesMeasurements_echoes_input_witness :
  (exists w', CreateOrUpdateTimeseriesMeasurements never_fails ex_batch ex_world
              = (w', Ok ex_batch))
  /\ (exists w', CreateOrUpdateTimeseriesMeasurements never_fails [] ex_world = (w', Ok [])
                 /\ committed w' = committed ex_world).
Proof.
  pose proof (CreateOrUpdateTimeseriesMeasurements_echoes_input
                never_fails ex_batch ex_world) as [_ [H2 H3]].
  split.
  - apply H2. intros i _. reflexivity.
  - apply H3. intros i _. reflexivity.
Defined.

(** ** Upsert semantics *)

Lemma same_key_true :
  forall tsid t r, same_key tsid t r = true <-> row_key r = (tsid, t).
Proof.
  intros tsid t r. unfold same_key, row_key.
  rewrite andb_true_iff, N.eqb_eq, Z.eqb_eq. split.
  - intros [H1 H2]. congruence.
  - intros H. inversion H. split; reflexivity.
Qed.

Lemma filter_same_key_absent :
  forall tsid t rows,
    ~ In (tsid, t) (map row_key rows) -> filter (same_key tsid t) rows = [].
Proof.
  intros tsid t rows. induction rows as [|r rs IH]; simpl; intros Hni.
  - reflexivity.
  - destruct (same_key tsid t r) eqn:E.
    + apply same_key_true in E. exfalso. apply Hni. left. exact E.
    + apply IH. intro Hin. apply Hni. right. exact Hin.
Qed.

(** After an upsert at [(tsid, t)] exactly one row is stored for that key,
    and it holds the value just written. *)
Lemma upsert_measurement_rows_at :
  forall tsid t v rows,
    timeseries_unique_time rows ->
    filter (same_key tsid t) (fst (upsert_measurement tsid t v rows))
    = [mkMeasurementRow tsid t v].
Proof.
  intros tsid t v rows. unfold timeseries_unique_time.
  induction rows as [|r rs IH]; intros Hnd.
  - simpl. unfold same_key. simpl. rewrite N.eqb_refl, Z.eqb_refl. reflexivity.
  - cbn [upsert_measurement]. inversion Hnd as [|k ks Hni Hnd' Heq]. subst.
    destruct (same_key tsid t r) eqn:E.
    + cbn [fst filter].
      pose proof E as E'. apply same_key_true in E'. unfold row_key in E'.
      inversion E'. subst.
      replace (same_key (r_timeseries_id r) (r_time r)
                 (mkMeasurementRow (r_timeseries_id r) (r_time r) v)) with true
        by (unfold same_key; simpl; rewrite N.eqb_refl, Z.eqb_refl; reflexivity).
      f_equal. apply filter_same_key_absent. exact Hni.
    + specialize (IH Hnd').
      destruct (upsert_measurement tsid t v rs) as [rs' n]. cbn [fst filter] in *.
      rewrite E. exact IH.
Qed.

(** The keys after an upsert: unchanged when the key was there, one more
    at the end otherwise. *)
Lemma upsert_measurement_keys :
  forall tsid t v rows,
    map row_key (fst (upsert_measurement tsid t v rows)) =
    if existsb (same_key tsid t) rows
    then map row_key rows
    else map row_key rows ++ [(tsid, t)].
Proof.
  intros tsid t v rows. induction rows as [|r rs IH].
  - reflexivity.
  - cbn [upsert_measurement existsb]. destruct (same_key tsid t r) eqn:E.
    + reflexivity.
    + destruct (upsert_measurement tsid t v rs) as [rs' n]. cbn [fst map orb] in *.
      rewrite IH. destruct (existsb (same_key tsid t) rs); reflexivity.
Qed.

(** An upsert keeps constraint [timeseries_unique_time]. *)
Lemma upsert_measurement_unique :
  forall tsid t v rows,
    timeseries_unique_time rows ->
    timeseries_unique_time (fst (upsert_measurement tsid t v rows)).
Proof.
  intros tsid t v rows Hnd. unfold timeseries_unique_time in *.
  change (fun r => (r_timeseries_id r, r_time r)) with row_key in *.
  rewrite upsert_measurement_keys.
  destruct (existsb (same_key tsid t) rows) eqn:E.
  - exact Hnd.
  - apply NoDup_app.
    + exact Hnd.
    + constructor; [intros []|constructor].
    + intros k Hin [Hk|[]]. subst k.
      apply in_map_iff in Hin. destruct Hin as [r [Hr Hin]].
      assert (Ht : existsb (same_key tsid t) rows = true).
      { apply existsb_exists. exists r. split; [exact Hin|].
        apply same_key_true. exact Hr. }
      congruence.
Qed.

(** An upsert at another key leaves the rows stored for [(tsid, t)] alone. *)
Lemma upsert_measurement_other_key :
  forall tsid t tsid' t' v rows,
    (tsid', t') <> (tsid, t) ->
    filter (same_key tsid t) (fst (upsert_measurement tsid' t' v rows))
    = filter (same_key tsid t) rows.
Proof.
  intros tsid t tsid' t' v rows Hne. induction rows as [|r rs IH].
  - simpl. destruct (same_key tsid t (mkMeasurementRow tsid' t' v)) eqn:E.
    + apply same_key_true in E. unfold row_key in E. simpl in E. contradiction.
    + reflexivity.
  - cbn [upsert_measurement]. destruct (same_key tsid' t' r) eqn:E.
    + cbn [fst filter].
      apply same_key_true in E. unfold row_key in E.
      assert (H1 : same_key tsid t r = false).
      { destruct (same_key tsid t r) eqn:E1; [|reflexivity].
        apply same_key_true in E1. unfold row_key in E1. congruence. }
      assert (H2 : same_key tsid t (mkMeasurementRow (r_timeseries_id r) (r_time r) v) = false).
      { destruct (same_key tsid t (mkMeasurementRow _ _ v)) eqn:E1; [|reflexivity].
        apply same_key_true in E1. unfold row_key in E1. simpl in E1. congruence. }
      rewrite H1, H2. reflexivity.
    + destruct (upsert_measurement tsid' t' v rs) as [rs' n]. cbn [fst filter] in *.
      rewrite IH. reflexivity.
Qed.

Lemma exec_upsert_measurement_table :
  forall p tb,
    timeseries_measurement (fst (exec_stmt (upsert_of p) tb)) =
    fst (upsert_measurement (fst p) (m_Time (snd p)) (m_Value (snd p))
           (timeseries_measurement tb)).
Proof.
  intros p tb. unfold upsert_of. cbn [exec_stmt].
  destruct (upsert_measurement _ _ _ _) as [rows n]. reflexivity.
Qed.

(** Among the points of a batch, the last one written at [(tsid, t)] wins:
    afterwards that key has exactly one row, with that point's value. *)
Lemma upsert_all_last_wins :
  forall tsid t v pre post tb,
    timeseries_unique_time (timeseries_measurement tb) ->
    Forall (fun q => (fst q, m_Time (snd q)) <> (tsid, t)) post ->
    rows_at tsid t (upsert_all (pre ++ (tsid, mkMeasurement t v) :: post) tb)
    = [mkMeasurementRow tsid t v].
Proof.
  intros tsid t v pre post. unfold upsert_all, rows_at.
  induction pre as [|q pre IH]; intros tb Hu Hpost.
  - cbn [app fold_left].
    assert (Hstart :
      filter (same_key tsid t)
             (timeseries_measurement (fst (exec_stmt (upsert_of (tsid, mkMeasurement t v)) tb)))
      = [mkMeasurementRow tsid t v]).
    { rewrite exec_upsert_measurement_table. cbn [fst snd m_Time m_Value].
      apply upsert_measurement_rows_at. exact Hu. }
    revert Hstart. generalize (fst (exec_stmt (upsert_of (tsid, mkMeasurement t v)) tb)).
    induction Hpost as [|q post Hq Hpost IHp]; intros tb' Hstart.
    + exact Hstart.
    + cbn [fold_left]. apply IHp.
      rewrite exec_upsert_measurement_table.
      rewrite upsert_measurement_other_key by exact Hq. exact Hstart.
  - cbn [app fold_left]. apply IH; [|exact Hpost].
    rewrite exec_upsert_measurement_table. apply upsert_measurement_unique. exact Hu.
Qed.

(** C2.  Upserting a point for [(S, T)] twice through
    [CreateOrUpdateTimeseriesMeasurements], in two calls or within one
    batch, leaves exactly one row for [(S, T)] and that row holds the second
    value.  And with series 1 holding 10:00 -> 1.0 and 11:00 -> 2.0 the batch
    [{1, 11:00, 3.0}, {1, 12:00, 4.0}] succeeds and leaves series 1 holding
    exactly 10:00 -> 1.0, 11:00 -> 3.0, 12:00 -> 4.0. *)
Theorem CreateOrUpdateTimeseriesMeasurements_upsert_last_value :
  forall (fault : nat -> option error) (w : World) (S : UUID) (T : Time) (v1 v2 : float),
    timeseries_unique_time (timeseries_measurement (committed w)) ->
    (forall w1 r1 w2 r2,
        CreateOrUpdateTimeseriesMeasurements fault
          [mkMeasurementCollection S [mkMeasurement T v1]] w = (w1, Ok r1) ->
        CreateOrUpdateTimeseriesMeasurements fault
          [mkMeasurementCollection S [mkMeasurement T v2]] w1 = (w2, Ok r2) ->
        rows_at S T (committed w2) = [mkMeasurementRow S T v2])
    /\ (forall w1 r1,
        CreateOrUpdateTimeseriesMeasurements fault
          [mkMeasurementCollection S [mkMeasurement T v1; mkMeasurement T v2]] w = (w1, Ok r1) ->
        rows_at S T (committed w1) = [mkMeasurementRow S T v2])
    /\ (let out := CreateOrUpdateTimeseriesMeasurements never_fails ex_batch ex_world in
        snd out = Ok ex_batch
        /\ rows_of_series 1 (committed (fst out)) =
           [mkMeasurementRow 1 (hour 10) 1.0%float;
            mkMeasurementRow 1 (hour 11) 3.0%float;
            mkMeasurementRow 1 (hour 12) 4.0%float]).
Proof.
  intros fault w S T v1 v2 Hu. split; [|split].
  - intros w1 r1 w2 r2 H1 H2.
    apply CreateOrUpdateTimeseriesMeasurements_ok in H1. destruct H1 as [_ H1].
    apply CreateOrUpdateTimeseriesMeasurements_ok in H2. destruct H2 as [_ H2].
    rewrite H2. cbn [points flat_map map app mc_TimeseriesID mc_Items].
    apply (upsert_all_last_wins S T v2 [] []); [|constructor].
    rewrite H1. cbn [points flat_map map app mc_TimeseriesID mc_Items].
    unfold upsert_all. cbn [fold_left].
    rewrite exec_upsert_measurement_table. apply upsert_measurement_unique. exact Hu.
  - intros w1 r1 H1.
    apply CreateOrUpdateTimeseriesMeasurements_ok in H1. destruct H1 as [_ H1].
    rewrite H1. cbn [points flat_map map app mc_TimeseriesID mc_Items].
    apply (upsert_all_last_wins S T v2 [(S, mkMeasurement T v1)] []); [exact Hu|constructor].
  - split; reflexivity.
Qed.

Lemma CreateOrUpdateTimeseriesMeasurements_upsert_last_value_witness :
  rows_at 1 (hour 11)
    (committed (fst (CreateOrUpdateTimeseriesMeasurements never_fails
       [mkMeasurementCollection 1 [mkMeasurement (hour 11) 3.0%float]]
       (fst (CreateOrUpdateTimeseriesMeasurements never_fails
          [mkMeasurementCollection 1 [mkMeasurement (hour 11) 7.25%float]] ex_world)))))
  = [mkMeasurementRow 1 (hour 11) 3.0%float].
Proof.
  assert (Hu : timeseries_unique_time (timeseries_measurement (committed ex_world))).
  { unfold timeseries_unique_time. simpl.
    repeat constructor; simpl; intuition discriminate. }
  pose proof (CreateOrUpdateTimeseriesMeasurements_upsert_last_value
                never_fails ex_world 1%N (hour 11) 7.25%float 3.0%float Hu) as [H _].
  eapply H; reflexivity.
Defined.

(** ** [ListTimeseriesMeasurements] *)

Lemma insert_time_desc_Forall :
  forall (P : MeasurementRow * UUID -> Prop) x l,
    P x -> Forall P l -> Forall P (insert_time_desc x l).
Proof.
  intros P x l Hx Hl. induction Hl as [|y ys Hy Hys IH]; simpl.
  - constructor; [exact Hx|constructor].
  - destruct (r_time (fst y) <=? r_time (fst x))%Z.
    + constructor; [exact Hx|]. constructor; assumption.
    + constructor; assumption.
Qed.

Lemma order_by_time_desc_Forall :
  forall (P : MeasurementRow * UUID -> Prop) l,
    Forall P l -> Forall P (order_by_time_desc l).
Proof.
  intros P l Hl. induction Hl as [|y ys Hy Hys IH]; simpl.
  - constructor.
  - apply insert_time_desc_Forall; assumption.
Qed.

Lemma insert_time_desc_sorted :
  forall x l,
    StronglySorted (fun a b => (r_time (fst b) <= r_time (fst a))%Z) l ->
    StronglySorted (fun a b => (r_time (fst b) <= r_time (fst a))%Z) (insert_time_desc x l).
Proof.
  intros x l Hs. induction Hs as [|y ys Hys IH Hall]; simpl.
  - constructor; constructor.
  - destruct (r_time (fst y) <=? r_time (fst x))%Z eqn:E.
    + apply Z.leb_le in E. constructor.
      * constructor; assumption.
      * constructor; [exact E|].
        eapply Forall_impl; [|exact Hall]. simpl. intros z Hz. lia.
    + apply Z.leb_gt in E. constructor.
      * exact IH.
      * apply insert_time_desc_Forall; [lia|exact Hall].
Qed.

Lemma order_by_time_desc_sorted :
  forall l,
    StronglySorted (fun a b => (r_time (fst b) <= r_time (fst a))%Z) (order_by_time_desc l).
Proof.
  induction l as [|x l IH]; simpl.
  - constructor.
  - apply insert_time_desc_sorted. exact IH.
Qed.

Lemma insert_time_desc_In :
  forall x y l, In y (insert_time_desc x l) <-> y = x \/ In y l.
Proof.
  intros x y l. induction l as [|z zs IH]; simpl.
  - intuition.
  - destruct (r_time (fst z) <=? r_time (fst x))%Z; simpl; intuition.
Qed.

Lemma order_by_time_desc_In :
  forall y l, In y (order_by_time_desc l) <-> In y l.
Proof.
  intros y l. induction l as [|x xs IH]; simpl.
  - tauto.
  - rewrite insert_time_desc_In, IH. intuition.
Qed.

Lemma StronglySorted_map :
  forall (A B : Type) (f : A -> B) (R : B -> B -> Prop) (l : list A),
    StronglySorted (fun a b => R (f a) (f b)) l -> StronglySorted R (map f l).
Proof.
  intros A B f R l Hs. induction Hs as [|x xs Hxs IH Hall]; simpl.
  - constructor.
  - constructor; [exact IH|]. apply Forall_map. exact Hall.
Qed.

Lemma measurement_join_timeseries_In :
  forall tb m tid,
    In (m, tid) (measurement_join_timeseries tb) <->
    In m (timeseries_measurement tb) /\ In tid (timeseries tb) /\ tid = r_timeseries_id m.
Proof.
  intros tb m tid. unfold measurement_join_timeseries.
  rewrite in_flat_map. split.
  - intros [m' [Hm' Hin]]. apply in_map_iff in Hin.
    destruct Hin as [t' [Heq Hin]]. inversion Heq. subst.
    apply filter_In in Hin. destruct Hin as [Hin Ht]. apply N.eqb_eq in Ht. tauto.
  - intros [Hm [Ht Heq]]. exists m. split; [exact Hm|].
    apply in_map_iff. exists tid. split; [reflexivity|].
    apply filter_In. split; [exact Ht|]. apply N.eqb_eq. exact Heq.
Qed.

(** What the query returns: only points strictly inside the window, from
    the latest to the earliest, and every stored point of the series that
    is strictly inside the window. *)
Lemma listTimeseriesMeasurements_rows_spec :
  forall id tw tb,
    let items := listTimeseriesMeasurements_rows id (tw_After tw) (tw_Before tw) tb in
    Forall (fun m => in_window tw (m_Time m)) items
    /\ time_descending items
    /\ (forall m, In m items <->
                  exists r, In r (timeseries_measurement tb) /\ In id (timeseries tb)
                            /\ r_timeseries_id r = id /\ in_window tw (r_time r)
                            /\ m = mkMeasurement (r_time r) (r_value r)).
Proof.
  intros id tw tb items. subst items. unfold listTimeseriesMeasurements_rows.
  split; [|split].
  - apply Forall_map. apply order_by_time_desc_Forall.
    apply Forall_forall. intros x Hx. apply filter_In in Hx. destruct Hx as [_ Hx].
    cbn [m_Time]. unfold in_window.
    apply andb_true_iff in Hx. destruct Hx as [Hx H3].
    apply andb_true_iff in Hx. destruct Hx as [_ H2].
    apply Z.ltb_lt in H2. apply Z.ltb_lt in H3. split; assumption.
  - unfold time_descending. apply StronglySorted_map. cbn [m_Time].
    apply order_by_time_desc_sorted.
  - intros m. rewrite in_map_iff. split.
    + intros [[r tid] [Hm Hin]]. apply (proj1 (order_by_time_desc_In _ _)) in Hin.
      apply filter_In in Hin. destruct Hin as [Hj Hc]. cbn [fst snd] in *.
      apply (proj1 (measurement_join_timeseries_In _ _ _)) in Hj. destruct Hj as [Hr [Ht Heq]].
      apply andb_true_iff in Hc. destruct Hc as [Hc H3].
      apply andb_true_iff in Hc. destruct Hc as [H1 H2].
      apply N.eqb_eq in H1. apply Z.ltb_lt in H2. apply Z.ltb_lt in H3.
      exists r. subst tid. cbn [m_Time] in *.
      split; [exact Hr|]. split; [rewrite <- H1; exact Ht|].
      split; [exact H1|]. split; [split; assumption|]. symmetry. exact Hm.
    + intros [r [Hr [Ht [Hid [[H2 H3] Hm]]]]].
      exists (r, id). split; [symmetry; exact Hm|].
      apply order_by_time_desc_In. apply filter_In. split.
      * apply measurement_join_timeseries_In. repeat split; try assumption.
        symmetry; exact Hid.
      * cbn [fst snd]. rewrite N.eqb_refl. cbn [andb].
        apply andb_true_iff. split; apply Z.ltb_lt; assumption.
Qed.

Lemma filter_keeps_all :
  forall (A : Type) (f : A -> bool) (l : list A),
    (forall a, In a l -> f a = true) -> filter f l = l.
Proof.
  intros A f l H. induction l as [|a l IH]; simpl; [reflexivity|].
  rewrite (H a (or_introl eq_refl)). f_equal. apply IH.
  intros b Hb. apply H. right. exact Hb.
Qed.

Lemma filter_keeps_none :
  forall (A : Type) (f : A -> bool) (l : list A),
    (forall a, In a l -> f a = false) -> filter f l = [].
Proof.
  intros A f l H. induction l as [|a l IH]; simpl; [reflexivity|].
  rewrite (H a (or_introl eq_refl)). apply IH.
  intros b Hb. apply H. right. exact Hb.
Qed.

Lemma insert_time_desc_perm :
  forall x l, Permutation (insert_time_desc x l) (x :: l).
Proof.
  intros x l. induction l as [|y ys IH]; simpl.
  - apply Permutation_refl.
  - destruct (r_time (fst y) <=? r_time (fst x))%Z.
    + apply Permutation_refl.
    + eapply Permutation_trans; [apply perm_skip; exact IH|apply perm_swap].
Qed.

Lemma order_by_time_desc_perm :
  forall l, Permutation (order_by_time_desc l) l.
Proof.
  induction l as [|x l IH]; simpl.
  - apply Permutation_refl.
  - eapply Permutation_trans; [apply insert_time_desc_perm|].
    apply perm_skip. exact IH.
Qed.

Lemma filter_eqb_singleton :
  forall (id : UUID) (l : list UUID),
    NoDup l -> In id l -> filter (fun tid => (tid =? id)%N) l = [id].
Proof.
  intros id l Hnd. induction Hnd as [|a l Hni Hnd IH]; intros Hin.
  - destruct Hin.
  - cbn [filter]. destruct (a =? id)%N eqn:E.
    + apply N.eqb_eq in E. subst a. f_equal.
      apply filter_keeps_none. intros b Hb.
      destruct (b =? id)%N eqn:Eb; [|reflexivity].
      apply N.eqb_eq in Eb. subst b. contradiction.
    + destruct Hin as [Heq|Hin]; [subst a; rewrite N.eqb_refl in E; discriminate|].
      apply IH. exact Hin.
Qed.

(** With the series declared once in [timeseries], the joined and filtered
    rows are the stored rows of the series inside the window, each once. *)
Lemma join_filter_declared_once :
  forall id after before tb,
    NoDup (timeseries tb) -> In id (timeseries tb) ->
    filter (fun x => (snd x =? id)%N && (after <? r_time (fst x))%Z
                     && (r_time (fst x) <? before)%Z)
           (measurement_join_timeseries tb)
    = map (fun r => (r, id))
          (filter (fun r => (r_timeseries_id r =? id)%N && (after <? r_time r)%Z
                            && (r_time r <? before)%Z)
                  (timeseries_measurement tb)).
Proof.
  intros id after before tb Hnd Hin. unfold measurement_join_timeseries.
  induction (timeseries_measurement tb) as [|m rows IH]; [reflexivity|].
  cbn [flat_map filter]. rewrite filter_app, IH.
  destruct (r_timeseries_id m =? id)%N eqn:E.
  - apply N.eqb_eq in E. rewrite E.
    rewrite (filter_eqb_singleton id (timeseries tb) Hnd Hin).
    cbn [map filter fst snd andb]. rewrite N.eqb_refl. cbn [andb].
    destruct ((after <? r_time m)%Z && (r_time m <? before)%Z); reflexivity.
  - cbn [andb].
    rewrite filter_keeps_none; [reflexivity|].
    intros x Hx. apply in_map_iff in Hx. destruct Hx as [tid [Hx Htid]]. subst x.
    apply filter_In in Htid. destruct Htid as [_ Htid]. apply N.eqb_eq in Htid.
    cbn [fst snd]. rewrite Htid, E. reflexivity.
Qed.

(** The points the query returns are the stored points of the series
    strictly inside the window, provided the series is declared: none is
    left out and none is added; when the series is declared once, each is
    returned once. *)
Lemma listTimeseriesMeasurements_rows_stored :
  forall id tw tb,
    let items := listTimeseriesMeasurements_rows id (tw_After tw) (tw_Before tw) tb in
    (forall m, In m items <->
               In id (timeseries tb) /\ In m (stored_points_in_window id tw tb))
    /\ (NoDup (timeseries tb) -> In id (timeseries tb) ->
        Permutation items (stored_points_in_window id tw tb)).
Proof.
  intros id tw tb items. subst items.
  destruct (listTimeseriesMeasurements_rows_spec id tw tb) as [_ [_ Hin]]. split.
  - intros m. rewrite Hin. unfold stored_points_in_window. rewrite in_map_iff. split.
    + intros [r [Hr [Ht [Hid [[H1 H2] Hm]]]]]. split; [exact Ht|].
      exists r. split; [symmetry; exact Hm|]. apply filter_In. split; [exact Hr|].
      apply andb_true_iff. split; [apply andb_true_iff; split|].
      * apply N.eqb_eq. exact Hid.
      * apply Z.ltb_lt. exact H1.
      * apply Z.ltb_lt. exact H2.
    + intros [Ht [r [Hm Hr]]]. apply filter_In in Hr. destruct Hr as [Hr Hc].
      apply andb_true_iff in Hc. destruct Hc as [Hc H2].
      apply andb_true_iff in Hc. destruct Hc as [Hid H1].
      apply N.eqb_eq in Hid. apply Z.ltb_lt in H1. apply Z.ltb_lt in H2.
      exists r. repeat split; try assumption. symmetry. exact Hm.
  - intros Hnd Hdecl. unfold listTimeseriesMeasurements_rows, stored_points_in_window.
    rewrite (join_filter_declared_once id (tw_After tw) (tw_Before tw) tb Hnd Hdecl).
    eapply Permutation_trans.
    + apply Permutation_map. apply order_by_time_desc_perm.
    + rewrite map_map. cbn [fst]. apply Permutation_refl.
Qed.

(** C5.  When the query itself succeeds, [ListTimeseriesMeasurements]
    returns, without error, the collection of the requested series whose
    points all lie strictly after [tw.After] and strictly before [tw.Before]
    (never at or beyond a bound), listed from the latest to the earliest;
    the points returned are the matching ones, none left out: a point is
    returned exactly when the series is declared and the point is stored for
    it strictly inside the window, and each stored point is returned once
    when the series is declared once; when no stored point of the series
    lies strictly inside the window the collection's point sequence is
    empty. *)
Theorem ListTimeseriesMeasurements_window_descending :
  forall (fault : nat -> option error) (timeseriesID : UUID) (tw : TimeWindow) (w : World),
    fault (clock w) = None ->
    exists w' items,
      ListTimeseriesMeasurements fault timeseriesID tw w
      = (w', Ok (mkMeasurementCollection timeseriesID items))
      /\ Forall (fun m => (tw_After tw < m_Time m)%Z /\ (m_Time m < tw_Before tw)%Z) items
      /\ Forall (fun m => ~ (m_Time m <= tw_After tw)%Z /\ ~ (tw_Before tw <= m_Time m)%Z) items
      /\ time_descending items
      /\ ((forall r, In r (timeseries_measurement (committed w)) ->
                     r_timeseries_id r = timeseriesID -> ~ in_window tw (r_time r)) ->
          items = [])
      /\ (forall m, In m items <->
                    In timeseriesID (timeseries (committed w))
                    /\ In m (stored_points_in_window timeseriesID tw (committed w)))
      /\ (NoDup (timeseries (committed w)) ->
          In timeseriesID (timeseries (committed w)) ->
          Permutation items (stored_points_in_window timeseriesID tw (committed w))).
Proof.
  intros fault id tw w Hf.
  unfold ListTimeseriesMeasurements, db_Query. rewrite Hf.
  destruct (listTimeseriesMeasurements_rows_spec id tw (committed w)) as [Hwin [Hdesc Hin]].
  destruct (listTimeseriesMeasurements_rows_stored id tw (committed w)) as [Hiff Hperm].
  eexists. eexists. split; [reflexivity|].
  split; [exact Hwin|]. split.
  - eapply Forall_impl; [|exact Hwin]. unfold in_window. simpl. intros m [H1 H2]. lia.
  - split; [exact Hdesc|]. split; [|split; [exact Hiff|exact Hperm]]. intros Hnone.
    destruct (listTimeseriesMeasurements_rows id (tw_After tw) (tw_Before tw) (committed w))
      as [|m ms] eqn:E; [reflexivity|].
    exfalso. destruct (proj1 (Hin m) (or_introl eq_refl)) as [r [Hr [_ [Hid [Hw _]]]]].
    exact (Hnone r Hr Hid Hw).
Qed.

(** Both bounds are excluded: series 1 holds points at exactly 10:00 and
    11:00, and the window (10:00, 11:00) returns none of them; the window
    (09:00, 12:00) returns both, the later one first. *)
Example ListTimeseriesMeasurements_bounds_are_excluded :
  snd (ListTimeseriesMeasurements never_fails 1 (mkTimeWindow (hour 10) (hour 11)) ex_world)
  = Ok (mkMeasurementCollection 1 [])
  /\ snd (ListTimeseriesMeasurements never_fails 1 (mkTimeWindow (hour 9) (hour 12)) ex_world)
     = Ok (mkMeasurementCollection 1
             [mkMeasurement (hour 11) 2.0%float; mkMeasurement (hour 10) 1.0%float]).
Proof. split; reflexivity. Qed.

Lemma ListTimeseriesMeasurements_window_descending_witness :
  exists w' items,
    ListTimeseriesMeasurements never_fails 1 (mkTimeWindow (hour 10) (hour 12)) ex_world
    = (w', Ok (mkMeasurementCollection 1 items))
    /\ Forall (fun m => (hour 10 < m_Time m)%Z /\ (m_Time m < hour 12)%Z) items
    /\ Forall (fun m => ~ (m_Time m <= hour 10)%Z /\ ~ (hour 12 <= m_Time m)%Z) items
    /\ time_descending items
    /\ ((forall r, In r (timeseries_measurement (committed ex_world)) ->
                   r_timeseries_id r = 1%N ->
                   ~ in_window (mkTimeWindow (hour 10) (hour 12)) (r_time r)) ->
        items = [])
    /\ (forall m, In m items <->
                  In 1%N (timeseries (committed ex_world))
                  /\ In m (stored_points_in_window 1 (mkTimeWindow (hour 10) (hour 12))
                             (committed ex_world)))
    /\ (NoDup (timeseries (committed ex_world)) ->
        In 1%N (timeseries (committed ex_world)) ->
        Permutation items
          (stored_points_in_window 1 (mkTimeWindow (hour 10) (hour 12))
             (committed ex_world))).
Proof.
  apply (ListTimeseriesMeasurements_window_descending
           never_fails 1%N (mkTimeWindow (hour 10) (hour 12)) ex_world).
  reflexivity.
Defined.

(** ** [UpdatePlotConfiguration]: reconciling the association set *)

Lemma quiet_refl : forall w, quiet w w.
Proof.
  intros w. split; [reflexivity|]. exists []. rewrite app_nil_r. split; constructor.
Qed.

Lemma quiet_trans : forall w1 w2 w3, quiet w1 w2 -> quiet w2 w3 -> quiet w1 w3.
Proof.
  intros w1 w2 w3 [Ha [e1 [Ht1 Hf1]]] [Hb [e2 [Ht2 Hf2]]]. split.
  - congruence.
  - exists (e1 ++ e2). split.
    + rewrite Ht2, Ht1, app_assoc. reflexivity.
    + apply Forall_app. split; assumption.
Qed.

Lemma quiet_tick :
  forall w e, changes_associations e = false -> quiet w (tick w e).
Proof.
  intros w e He. split; [reflexivity|]. exists [e]. split; [reflexivity|].
  constructor; [exact He|constructor].
Qed.

Section Reconciler.

Variable fault : nat -> option error.

Lemma db_Begin_quiet :
  forall w w1 r,
    db_Begin fault w = (w1, r) ->
    quiet w w1 /\ (forall tx, r = inl tx -> tx = committed w).
Proof.
  intros w w1 r H. unfold db_Begin in H.
  destruct (fault (clock w)); inversion H; subst; split;
    try (apply quiet_tick; reflexivity); intros tx Htx; congruence.
Qed.

Lemma tx_Prepare_quiet :
  forall w w1 r, tx_Prepare fault w = (w1, r) -> quiet w w1.
Proof.
  intros w w1 r H. unfold tx_Prepare in H.
  destruct (fault (clock w)); inversion H; subst; apply quiet_tick; reflexivity.
Qed.

Lemma stmt_Close_quiet :
  forall w w1 r, stmt_Close fault w = (w1, r) -> quiet w w1.
Proof.
  intros w w1 r H. unfold stmt_Close in H.
  destruct (fault (clock w)); inversion H; subst; apply quiet_tick; reflexivity.
Qed.

Lemma tx_Rollback_quiet : forall w, quiet w (tx_Rollback w).
Proof. intros w. apply quiet_tick. reflexivity. Qed.

Lemma tx_Commit_quiet :
  forall tx w w1 r,
    plot_configuration_timeseries tx = plot_configuration_timeseries (committed w) ->
    tx_Commit fault tx w = (w1, r) -> quiet w w1.
Proof.
  intros tx w w1 r Htx H. unfold tx_Commit in H.
  destruct (fault (clock w)); inversion H; subst.
  - apply quiet_tick. reflexivity.
  - split; [exact Htx|]. exists [EvCommit true]. split; [reflexivity|].
    constructor; [reflexivity|constructor].
Qed.

Lemma tx_Commit_None :
  forall tx w w1, tx_Commit fault tx w = (w1, None) -> committed w1 = tx.
Proof.
  intros tx w w1 H. unfold tx_Commit in H.
  destruct (fault (clock w)); inversion H; reflexivity.
Qed.

Lemma db_Query_quiet :
  forall (A : Type) (q : Tables -> list A) w w1 r,
    db_Query fault q w = (w1, r) -> quiet w w1.
Proof.
  intros A q w w1 r H. unfold db_Query in H.
  destruct (fault (clock w)); inversion H; subst; apply quiet_tick; reflexivity.
Qed.

Lemma factory_loop_quiet :
  forall (A : Type) (rows pp : list A) w w1 r,
    factory_loop fault rows pp w = (w1, r) -> quiet w w1.
Proof.
  intros A rows. induction rows as [|x rows IH]; intros pp w w1 r H;
    cbn [factory_loop] in H; unfold rows_Next in H;
    destruct (fault (clock w)).
  - inversion H; subst. apply quiet_tick. reflexivity.
  - inversion H; subst. apply quiet_tick. reflexivity.
  - inversion H; subst. apply quiet_tick. reflexivity.
  - unfold rows_Scan in H. destruct (fault (clock (tick w (EvNext true)))).
    + inversion H; subst. eapply quiet_trans; apply quiet_tick; reflexivity.
    + apply IH in H. eapply quiet_trans; [|exact H].
      eapply quiet_trans; apply quiet_tick; reflexivity.
Qed.

Lemma GetPlotConfiguration_quiet :
  forall projectID id w w1 r,
    GetPlotConfiguration fault projectID id w = (w1, r) -> quiet w w1.
Proof.
  intros projectID id w w1 r H. unfold GetPlotConfiguration in H.
  destruct (db_Query fault _ w) as [wq [rows|err]] eqn:Eq.
  - apply db_Query_quiet in Eq. unfold PlotConfigFactory in H.
    destruct (factory_loop fault rows [] wq) as [wf [pp oe]] eqn:Ef.
    apply factory_loop_quiet in Ef. inversion H; subst.
    eapply quiet_trans; eassumption.
  - apply db_Query_quiet in Eq. inversion H; subst. exact Eq.
Qed.

(** The statements, one by one. *)

Lemma stmt_Exec_inl :
  forall s tx w w1 tx1,
    stmt_Exec fault s tx w = (w1, inl tx1) ->
    tx1 = fst (exec_stmt s tx) /\ committed w1 = committed w.
Proof.
  intros s tx w w1 tx1 H. unfold stmt_Exec in H.
  destruct (fault (clock w)); [discriminate|].
  destruct (exec_stmt s tx) as [tx' n]. inversion H. split; reflexivity.
Qed.

Lemma stmt_Exec_update_quiet :
  forall prj id name upd date tx w w1 r,
    stmt_Exec fault (UpdatePlotConfigurationStmt prj id name upd date) tx w = (w1, r) ->
    quiet w w1
    /\ (forall tx1, r = inl tx1 ->
          plot_configuration_timeseries tx1 = plot_configuration_timeseries tx).
Proof.
  intros prj id name upd date tx w w1 r H. unfold stmt_Exec in H.
  destruct (fault (clock w)).
  - inversion H; subst. split; [apply quiet_tick; reflexivity|]. intros; discriminate.
  - destruct (exec_stmt _ tx) as [tx' n] eqn:E. inversion H; subst.
    split; [apply quiet_tick; reflexivity|].
    intros tx1 Htx. inversion Htx; subst. cbn [exec_stmt] in E.
    destruct (update_plot_configuration _ _ _ _ _ _) as [rows k].
    inversion E. reflexivity.
Qed.

Lemma delete_assoc_not_in_reconciled :
  forall pcid tsids rows,
    (forall a, In a rows -> fst a = pcid -> mem_uuid (snd a) tsids = true) ->
    delete_assoc_not_in pcid tsids rows = (rows, 0).
Proof.
  intros pcid tsids rows Hall. unfold delete_assoc_not_in.
  assert (Hd : forall a, In a rows ->
                 (fst a =? pcid)%N && negb (mem_uuid (snd a) tsids) = false).
  { intros a Ha. destruct (fst a =? pcid)%N eqn:E; [|reflexivity].
    apply N.eqb_eq in E. rewrite (Hall a Ha E). reflexivity. }
  rewrite filter_keeps_all, filter_keeps_none.
  - reflexivity.
  - exact Hd.
  - intros a Ha. rewrite (Hd a Ha). reflexivity.
Qed.

Lemma stmt_Exec_delete_quiet :
  forall pcid tsids tx w w1 r,
    (forall a, In a (plot_configuration_timeseries tx) ->
               fst a = pcid -> mem_uuid (snd a) tsids = true) ->
    stmt_Exec fault (DeleteAssocNotIn pcid tsids) tx w = (w1, r) ->
    quiet w w1
    /\ (forall tx1, r = inl tx1 ->
          plot_configuration_timeseries tx1 = plot_configuration_timeseries tx).
Proof.
  intros pcid tsids tx w w1 r Hall H. unfold stmt_Exec in H.
  destruct (fault (clock w)).
  - inversion H; subst. split; [apply quiet_tick; reflexivity|]. intros; discriminate.
  - cbn [exec_stmt] in H. rewrite (delete_assoc_not_in_reconciled _ _ _ Hall) in H.
    inversion H; subst. split; [apply quiet_tick; reflexivity|].
    intros tx1 Htx. inversion Htx; subst. reflexivity.
Qed.

Lemma exec_inserts_quiet :
  forall pcid tsids tx w w1 r,
    (forall t, In t tsids ->
               existsb (pair_eqb (pcid, t)) (plot_configuration_timeseries tx) = true) ->
    exec_inserts fault pcid tsids tx w = (w1, r) ->
    quiet w w1
    /\ (forall tx1, r = inl tx1 ->
          plot_configuration_timeseries tx1 = plot_configuration_timeseries tx).
Proof.
  intros pcid tsids. induction tsids as [|t ts IH]; intros tx w w1 r Hall H.
  - simpl in H. inversion H; subst. split; [apply quiet_refl|].
    intros tx1 Htx. inversion Htx. reflexivity.
  - cbn [exec_inserts] in H. unfold stmt_Exec in H.
    destruct (fault (clock w)).
    + inversion H; subst. split; [apply quiet_tick; reflexivity|]. intros; discriminate.
    + cbn [exec_stmt] in H. unfold insert_assoc_do_nothing in H.
      rewrite (Hall t (or_introl eq_refl)) in H.
      apply IH in H.
      * destruct H as [Hq Htx]. split; [|exact Htx].
        eapply quiet_trans; [|exact Hq]. apply quiet_tick. reflexivity.
      * intros t' Ht'. cbn [plot_configuration_timeseries]. apply Hall. right. exact Ht'.
Qed.

End Reconciler.

Lemma mem_uuid_In : forall t l, In t l -> mem_uuid t l = true.
Proof.
  intros t l H. unfold mem_uuid. apply existsb_exists.
  exists t. split; [exact H|apply N.eqb_refl].
Qed.

Lemma pair_eqb_refl : forall a, pair_eqb a a = true.
Proof. intros a. unfold pair_eqb. rewrite !N.eqb_refl. reflexivity. Qed.

(** One insert: the owner's rows stay among the desired ones, the inserted
    pair is there afterwards, and no pair is lost. *)
Lemma insert_assoc_do_nothing_step :
  forall pcid tsids t rows,
    mem_uuid t tsids = true ->
    (forall a, In a rows -> fst a = pcid -> mem_uuid (snd a) tsids = true) ->
    let rows' := fst (insert_assoc_do_nothing pcid t rows) in
    (forall a, In a rows' -> fst a = pcid -> mem_uuid (snd a) tsids = true)
    /\ existsb (pair_eqb (pcid, t)) rows' = true
    /\ (forall b, existsb (pair_eqb b) rows = true -> existsb (pair_eqb b) rows' = true).
Proof.
  intros pcid tsids t rows Ht Hall rows'. subst rows'. unfold insert_assoc_do_nothing.
  destruct (existsb (pair_eqb (pcid, t)) rows) eqn:E; cbn [fst].
  - split; [exact Hall|]. split; [exact E|]. intros b Hb. exact Hb.
  - split; [|split].
    + intros a Ha Hfst. apply in_app_or in Ha. destruct Ha as [Ha|[Ha|[]]].
      * apply Hall; assumption.
      * subst a. exact Ht.
    + rewrite existsb_app. cbn [existsb]. rewrite pair_eqb_refl.
      rewrite orb_true_r. reflexivity.
    + intros b Hb. rewrite existsb_app, Hb. reflexivity.
Qed.

Lemma insert_all_invariant :
  forall pcid tsids ts rows,
    (forall t, In t ts -> mem_uuid t tsids = true) ->
    (forall a, In a rows -> fst a = pcid -> mem_uuid (snd a) tsids = true) ->
    (forall a, In a (insert_all pcid ts rows) -> fst a = pcid -> mem_uuid (snd a) tsids = true)
    /\ (forall t, In t ts -> existsb (pair_eqb (pcid, t)) (insert_all pcid ts rows) = true)
    /\ (forall b, existsb (pair_eqb b) rows = true ->
                  existsb (pair_eqb b) (insert_all pcid ts rows) = true).
Proof.
  intros pcid tsids ts. induction ts as [|t ts IH]; intros rows Hts Hall.
  - split; [exact Hall|]. split; [intros t []|]. intros b Hb. exact Hb.
  - unfold insert_all. cbn [fold_left]. fold (insert_all pcid ts).
    destruct (insert_assoc_do_nothing_step pcid tsids t rows
                (Hts t (or_introl eq_refl)) Hall) as [H1 [H2 H3]].
    destruct (IH (fst (insert_assoc_do_nothing pcid t rows))
                 (fun t' Ht' => Hts t' (or_intror Ht')) H1) as [I1 [I2 I3]].
    split; [exact I1|]. split.
    + intros t' [Heq|Hin].
      * subst t'. apply I3. exact H2.
      * apply I2. exact Hin.
    + intros b Hb. apply I3. apply H3. exact Hb.
Qed.

(** Delete-not-in followed by the inserts reconciles the owner's rows. *)
Lemma delete_then_insert_reconciled :
  forall pcid tsids rows,
    reconciled pcid tsids
      (insert_all pcid tsids (fst (delete_assoc_not_in pcid tsids rows))).
Proof.
  intros pcid tsids rows.
  destruct (insert_all_invariant pcid tsids tsids
              (fst (delete_assoc_not_in pcid tsids rows))) as [H1 [H2 _]].
  - intros t Ht. apply mem_uuid_In. exact Ht.
  - unfold delete_assoc_not_in. cbn [fst]. intros a Ha Hfst.
    apply filter_In in Ha. destruct Ha as [_ Ha].
    apply N.eqb_eq in Hfst. rewrite Hfst in Ha. cbn [andb] in Ha.
    destruct (mem_uuid (snd a) tsids); [reflexivity|discriminate].
  - split; assumption.
Qed.

(** Both statements of the reconciliation keep constraint
    [plot_configuration_unique_timeseries]. *)
Lemma reconcile_statements_keep_unique :
  forall pcid tsids t rows,
    plot_configuration_unique_timeseries rows ->
    plot_configuration_unique_timeseries (fst (delete_assoc_not_in pcid tsids rows))
    /\ plot_configuration_unique_timeseries (fst (insert_assoc_do_nothing pcid t rows)).
Proof.
  intros pcid tsids t rows Hnd. unfold plot_configuration_unique_timeseries in *. split.
  - unfold delete_assoc_not_in. cbn [fst]. apply NoDup_filter. exact Hnd.
  - unfold insert_assoc_do_nothing.
    destruct (existsb (pair_eqb (pcid, t)) rows) eqn:E; cbn [fst]; [exact Hnd|].
    apply NoDup_app.
    + exact Hnd.
    + constructor; [intros []|constructor].
    + intros a Ha [Heq|[]]. subst a.
      assert (Ht : existsb (pair_eqb (pcid, t)) rows = true).
      { apply existsb_exists. exists (pcid, t). split; [exact Ha|apply pair_eqb_refl]. }
      congruence.
Qed.

Section ReconcilerRuns.

Variable fault : nat -> option error.

Lemma stmt_Exec_inl_trace :
  forall s tx w w1 tx1,
    stmt_Exec fault s tx w = (w1, inl tx1) ->
    trace w1 = trace w ++ [EvExec s (Some (snd (exec_stmt s tx)))].
Proof.
  intros s tx w w1 tx1 H. unfold stmt_Exec in H.
  destruct (fault (clock w)); [discriminate|].
  destruct (exec_stmt s tx) as [tx' n]. inversion H. reflexivity.
Qed.

Lemma exec_inserts_inl :
  forall pcid tsids tx w w1 tx1,
    exec_inserts fault pcid tsids tx w = (w1, inl tx1) ->
    plot_configuration_timeseries tx1
    = insert_all pcid tsids (plot_configuration_timeseries tx).
Proof.
  intros pcid tsids. induction tsids as [|t ts IH]; intros tx w w1 tx1 H.
  - simpl in H. inversion H. reflexivity.
  - cbn [exec_inserts] in H.
    destruct (stmt_Exec fault (InsertAssocDoNothing pcid t) tx w) as [wa [txa|e]] eqn:E;
      [|discriminate].
    apply stmt_Exec_inl in E. destruct E as [E _].
    apply IH in H. rewrite H, E. unfold insert_all. cbn [fold_left exec_stmt].
    destruct (insert_assoc_do_nothing pcid t (plot_configuration_timeseries tx)).
    reflexivity.
Qed.

Lemma exec_inserts_inl_trace :
  forall pcid tsids tx w w1 tx1,
    (forall t, In t tsids ->
               existsb (pair_eqb (pcid, t)) (plot_configuration_timeseries tx) = true) ->
    exec_inserts fault pcid tsids tx w = (w1, inl tx1) ->
    trace w1 = trace w ++ map (fun t => EvExec (InsertAssocDoNothing pcid t) (Some 0)) tsids.
Proof.
  intros pcid tsids. induction tsids as [|t ts IH]; intros tx w w1 tx1 Hall H.
  - simpl in H. inversion H. rewrite app_nil_r. reflexivity.
  - cbn [exec_inserts] in H.
    destruct (stmt_Exec fault (InsertAssocDoNothing pcid t) tx w) as [wa [txa|e]] eqn:E;
      [|discriminate].
    pose proof (stmt_Exec_inl_trace _ _ _ _ _ E) as Ht.
    apply stmt_Exec_inl in E. destruct E as [E _].
    cbn [exec_stmt] in Ht, E. unfold insert_assoc_do_nothing in Ht, E.
    rewrite (Hall t (or_introl eq_refl)) in Ht, E. cbn [fst snd] in Ht, E.
    apply IH in H.
    + rewrite H, Ht, <- app_assoc. reflexivity.
    + subst txa. cbn [plot_configuration_timeseries].
      intros t' Ht'. apply Hall. right. exact Ht'.
Qed.

(** A successful call has committed the reconciled association table. *)
Lemma UpdatePlotConfiguration_ok_effect :
  forall pc w w1 r1,
    UpdatePlotConfiguration fault pc w = (w1, Ok r1) ->
    plot_configuration_timeseries (committed w1)
    = insert_all (pc_ID pc) (pc_TimeseriesID pc)
        (fst (delete_assoc_not_in (pc_ID pc) (pc_TimeseriesID pc)
                (plot_configuration_timeseries (committed w)))).
Proof.
  intros pc w w1 r1 H. unfold UpdatePlotConfiguration in H.
  destruct (db_Begin fault w) as [wa [tx|e]] eqn:E1; [|discriminate].
  destruct (tx_Prepare fault wa) as [wb [e|]] eqn:E2; [discriminate|].
  destruct (sqlx_In (pc_ID pc) (pc_TimeseriesID pc)) as [args|e] eqn:E3; [|discriminate].
  destruct (tx_Prepare fault wb) as [wc [e|]] eqn:E4; [discriminate|].
  destruct (tx_Prepare fault wc) as [wd [e|]] eqn:E5; [discriminate|].
  destruct (stmt_Exec fault (UpdatePlotConfigurationStmt _ _ _ _ _) tx wd)
    as [we [tx1|e]] eqn:E6; [|discriminate].
  destruct (stmt_Exec fault (DeleteAssocNotIn _ _) tx1 we)
    as [wf [tx2|e]] eqn:E7; [|discriminate].
  destruct (exec_inserts fault (pc_ID pc) (pc_TimeseriesID pc) tx2 wf)
    as [wg [tx3|e]] eqn:E8; [|discriminate].
  destruct (stmt_Close fault wg) as [wh [e|]] eqn:E9; [discriminate|].
  destruct (stmt_Close fault wh) as [wi [e|]] eqn:E10; [discriminate|].
  destruct (stmt_Close fault wi) as [wj [e|]] eqn:E11; [discriminate|].
  destruct (tx_Commit fault tx3 wj) as [wk [e|]] eqn:E12; [discriminate|].
  apply GetPlotConfiguration_quiet in H. destruct H as [H _]. rewrite H.
  apply tx_Commit_None in E12. rewrite E12.
  apply exec_inserts_inl in E8. rewrite E8.
  apply stmt_Exec_inl in E7. destruct E7 as [E7 _]. rewrite E7.
  destruct (stmt_Exec_update_quiet fault _ _ _ _ _ _ _ _ _ E6) as [_ Hu].
  apply db_Begin_quiet in E1. destruct E1 as [_ E1].
  rewrite (E1 tx eq_refl) in Hu.
  unfold sqlx_In in E3. destruct (pc_TimeseriesID pc) as [|t ts] eqn:Ets; [discriminate|].
  inversion E3; subst args. cbn [hd tl exec_stmt].
  rewrite (Hu tx1 eq_refl).
  destruct (delete_assoc_not_in (pc_ID pc) (t :: ts)
              (plot_configuration_timeseries (committed w))) as [rows n].
  reflexivity.
Qed.

End ReconcilerRuns.

Lemma sqlx_In_inl :
  forall id tsids args, sqlx_In id tsids = inl args -> args = id :: tsids.
Proof.
  intros id tsids args H. unfold sqlx_In in H.
  destruct tsids; [discriminate|]. inversion H. reflexivity.
Qed.

Lemma quiet_events :
  forall w w', quiet w w' -> exists evs, trace w' = trace w ++ evs.
Proof. intros w w' [_ [evs [H _]]]. exists evs. exact H. Qed.

#[local] Ltac stop_here H :=
  inversion H; subst; split; [|intros ? ?; discriminate];
  eauto using quiet_trans, tx_Rollback_quiet.

(** On a reconciled association table a call of [UpdatePlotConfiguration]
    with the same desired set changes no association, whatever the driver
    does; and when it returns a value its log shows the delete and every
    insert executed with zero rows affected. *)
Lemma UpdatePlotConfiguration_on_reconciled :
  forall fault pc w w2 r2,
    reconciled (pc_ID pc) (pc_TimeseriesID pc)
               (plot_configuration_timeseries (committed w)) ->
    UpdatePlotConfiguration fault pc w = (w2, r2) ->
    quiet w w2
    /\ (forall p, r2 = Ok p ->
          exists pre post,
            trace w2 = trace w ++ pre
              ++ [EvExec (DeleteAssocNotIn (pc_ID pc) (pc_TimeseriesID pc)) (Some 0)]
              ++ map (fun t => EvExec (InsertAssocDoNothing (pc_ID pc) t) (Some 0))
                     (pc_TimeseriesID pc)
              ++ post).
Proof.
  intros fault pc w w2 r2 [R1 R2] H. unfold UpdatePlotConfiguration in H.
  destruct (db_Begin fault w) as [wa [tx|e]] eqn:E1.
  2:{ apply db_Begin_quiet in E1. destruct E1 as [E1 _]. stop_here H. }
  destruct (db_Begin_quiet _ _ _ _ E1) as [Q1 Htx]. specialize (Htx tx eq_refl).
  destruct (tx_Prepare fault wa) as [wb [e|]] eqn:E2;
    apply tx_Prepare_quiet in E2; pose proof (quiet_trans _ _ _ Q1 E2) as Q2;
    [stop_here H|].
  destruct (sqlx_In (pc_ID pc) (pc_TimeseriesID pc)) as [args|e] eqn:E3;
    [|stop_here H].
  apply sqlx_In_inl in E3. subst args. cbn [hd tl] in H.
  destruct (tx_Prepare fault wb) as [wc [e|]] eqn:E4;
    apply tx_Prepare_quiet in E4; pose proof (quiet_trans _ _ _ Q2 E4) as Q4;
    [stop_here H|].
  destruct (tx_Prepare fault wc) as [wd [e|]] eqn:E5;
    apply tx_Prepare_quiet in E5; pose proof (quiet_trans _ _ _ Q4 E5) as Q5;
    [stop_here H|].
  destruct (stmt_Exec fault (UpdatePlotConfigurationStmt _ _ _ _ _) tx wd)
    as [we [tx1|e]] eqn:E6;
    destruct (stmt_Exec_update_quiet _ _ _ _ _ _ _ _ _ _ E6) as [Q6' Hu];
    pose proof (quiet_trans _ _ _ Q5 Q6') as Q6;
    [|stop_here H].
  specialize (Hu tx1 eq_refl). rewrite Htx in Hu.
  assert (R1' : forall a, In a (plot_configuration_timeseries tx1) ->
                          fst a = pc_ID pc -> mem_uuid (snd a) (pc_TimeseriesID pc) = true)
    by (rewrite Hu; exact R1).
  destruct (stmt_Exec fault (DeleteAssocNotIn _ _) tx1 we) as [wf [tx2|e]] eqn:E7;
    destruct (stmt_Exec_delete_quiet _ _ _ _ _ _ _ R1' E7) as [Q7' Hd];
    pose proof (quiet_trans _ _ _ Q6 Q7') as Q7;
    [|stop_here H].
  specialize (Hd tx2 eq_refl).
  assert (R2' : forall t, In t (pc_TimeseriesID pc) ->
                  existsb (pair_eqb (pc_ID pc, t)) (plot_configuration_timeseries tx2) = true)
    by (rewrite Hd, Hu; exact R2).
  destruct (exec_inserts fault (pc_ID pc) (pc_TimeseriesID pc) tx2 wf)
    as [wg [tx3|e]] eqn:E8;
    destruct (exec_inserts_quiet _ _ _ _ _ _ _ R2' E8) as [Q8' Hi];
    pose proof (quiet_trans _ _ _ Q7 Q8') as Q8;
    [|stop_here H].
  specialize (Hi tx3 eq_refl).
  destruct (stmt_Close fault wg) as [wh [e|]] eqn:E9;
    apply stmt_Close_quiet in E9; pose proof (quiet_trans _ _ _ Q8 E9) as Q9;
    [stop_here H|].
  destruct (stmt_Close fault wh) as [wi [e|]] eqn:E10;
    apply stmt_Close_quiet in E10; pose proof (quiet_trans _ _ _ Q9 E10) as Q10;
    [stop_here H|].
  destruct (stmt_Close fault wi) as [wj [e|]] eqn:E11;
    apply stmt_Close_quiet in E11; pose proof (quiet_trans _ _ _ Q10 E11) as Q11;
    [stop_here H|].
  assert (Htx3 : plot_configuration_timeseries tx3
                 = plot_configuration_timeseries (committed wj)).
  { destruct Q11 as [Hc _]. rewrite Hc, Hi, Hd, Hu. reflexivity. }
  destruct (tx_Commit fault tx3 wj) as [wk [e|]] eqn:E12;
    apply (tx_Commit_quiet _ _ _ _ _ Htx3) in E12;
    pose proof (quiet_trans _ _ _ Q11 E12) as Q12;
    [stop_here H|].
  apply GetPlotConfiguration_quiet in H.
  split; [eapply quiet_trans; eassumption|].
  intros p _.
  assert (Qsuffix : quiet wg w2) by eauto using quiet_trans.
  destruct (quiet_events _ _ Q6) as [pre Hpre].
  destruct (quiet_events _ _ Qsuffix) as [post Hpost].
  exists pre, post.
  rewrite Hpost.
  rewrite (exec_inserts_inl_trace _ _ _ _ _ _ _ R2' E8).
  rewrite (stmt_Exec_inl_trace _ _ _ _ _ _ E7).
  cbn [exec_stmt]. rewrite (delete_assoc_not_in_reconciled _ _ _ R1'). cbn [snd].
  rewrite Hpre. repeat rewrite <- app_assoc. reflexivity.
Qed.

(** C7.  Reconciling twice to the same desired set is idempotent: after a
    call of [UpdatePlotConfiguration] that succeeded, a second call with the
    same plot configuration leaves the persisted association table exactly
    as the first call left it, and none of the statements it executes
    deletes or inserts a row, whatever the driver does during the second
    call; when the second call returns a value too, its log shows the
    delete and one insert per desired timeseries, each with zero rows
    affected. *)
Theorem UpdatePlotConfiguration_idempotent :
  forall (fault : nat -> option error) (pc : PlotConfiguration)
         (w w1 w2 : World) (r1 : PlotConfiguration) (r2 : result PlotConfiguration),
    UpdatePlotConfiguration fault pc w = (w1, Ok r1) ->
    UpdatePlotConfiguration fault pc w1 = (w2, r2) ->
    plot_configuration_timeseries (committed w2)
    = plot_configuration_timeseries (committed w1)
    /\ exists evs,
         trace w2 = trace w1 ++ evs
         /\ Forall (fun e => changes_associations e = false) evs
         /\ (forall p, r2 = Ok p ->
               In (EvExec (DeleteAssocNotIn (pc_ID pc) (pc_TimeseriesID pc)) (Some 0)) evs
               /\ forall t, In t (pc_TimeseriesID pc) ->
                            In (EvExec (InsertAssocDoNothing (pc_ID pc) t) (Some 0)) evs).
Proof.
  intros fault pc w w1 w2 r1 r2 H1 H2.
  assert (R : reconciled (pc_ID pc) (pc_TimeseriesID pc)
                (plot_configuration_timeseries (committed w1))).
  { rewrite (UpdatePlotConfiguration_ok_effect _ _ _ _ _ H1).
    apply delete_then_insert_reconciled. }
  destruct (UpdatePlotConfiguration_on_reconciled _ _ _ _ _ R H2)
    as [[Hsame [evs [Hevs Hquiet]]] Hok].
  split; [exact Hsame|]. exists evs. split; [exact Hevs|]. split; [exact Hquiet|].
  intros p Hp. destruct (Hok p Hp) as [pre [post Htr]].
  rewrite Hevs in Htr. apply app_inv_head in Htr. subst evs. split.
  - apply in_or_app. right. cbn [app]. left. reflexivity.
  - intros t Ht. apply in_or_app. right. cbn [app]. right.
    apply in_or_app. left. apply in_map_iff. exists t. split; [reflexivity|exact Ht].
Qed.

Lemma UpdatePlotConfiguration_idempotent_witness :
  plot_configuration_timeseries
    (committed (fst (UpdatePlotConfiguration never_fails ex_pc
                       (fst (UpdatePlotConfiguration never_fails ex_pc ex_pc_world)))))
  = plot_configuration_timeseries
      (committed (fst (UpdatePlotConfiguration never_fails ex_pc ex_pc_world)))
  /\ exists evs,
       trace (fst (UpdatePlotConfiguration never_fails ex_pc
                     (fst (UpdatePlotConfiguration never_fails ex_pc ex_pc_world))))
       = trace (fst (UpdatePlotConfiguration never_fails ex_pc ex_pc_world)) ++ evs
       /\ Forall (fun e => changes_associations e = false) evs
       /\ (forall p,
             snd (UpdatePlotConfiguration never_fails ex_pc
                    (fst (UpdatePlotConfiguration never_fails ex_pc ex_pc_world))) = Ok p ->
             In (EvExec (DeleteAssocNotIn 5 [11%N; 12%N]) (Some 0)) evs
             /\ forall t, In t [11%N; 12%N] ->
                          In (EvExec (InsertAssocDoNothing 5 t) (Some 0)) evs).
Proof.
  eapply (UpdatePlotConfiguration_idempotent never_fails ex_pc ex_pc_world);
    reflexivity.
Defined.

(** C6 (what the code does).  With an empty desired sequence
    [UpdatePlotConfiguration] never returns a value: [sqlx.In] refuses the
    empty slice, the transaction is rolled back and the committed tables
    are as before, whatever the driver does.  On the example tables the
    error is the one of [sqlx.In] and plot configuration 5 keeps both of its
    associations. *)
Theorem UpdatePlotConfiguration_empty_set_is_refused :
  (forall (fault : nat -> option error) (id : UUID) (name slug : string)
          (projectID : UUID) (audit : AuditInfo) (w : World),
      exists w' e,
        UpdatePlotConfiguration fault
          (mkPlotConfiguration id name slug projectID [] audit) w = (w', Err e)
        /\ committed w' = committed w)
  /\ snd (UpdatePlotConfiguration never_fails ex_pc_none ex_pc_world)
     = Err "empty slice passed to 'in' query"
  /\ plot_configuration_timeseries
       (committed (fst (UpdatePlotConfiguration never_fails ex_pc_none ex_pc_world)))
     = [(5%N, 10%N); (6%N, 10%N); (5%N, 11%N)].
Proof.
  split; [|split; reflexivity].
  intros fault id name slug projectID audit w.
  unfold UpdatePlotConfiguration, db_Begin, tx_Prepare.
  destruct (fault (clock w)).
  - eexists. eexists. split; reflexivity.
  - cbn [tick clock]. destruct (fault (S (clock w))).
    + eexists. eexists. split; reflexivity.
    + cbn [sqlx_In pc_ID pc_TimeseriesID]. eexists. eexists. split; reflexivity.
Qed.

(** ** The flexible collection decoder *)

Lemma JSONType_leading :
  forall b,
    (leading b = Some x5b -> JSONType b = "ARRAY"%string)
    /\ (leading b = Some x7b -> JSONType b = "OBJECT"%string)
    /\ (leading b <> Some x5b -> leading b <> Some x7b -> JSONType b = ""%string).
Proof.
  intros b. unfold leading, JSONType.
  destruct (trim_left_space b) as [|c rest]; cbn [hd_error].
  - split; [discriminate|]. split; [discriminate|]. reflexivity.
  - split; [|split].
    + intros H. inversion H. reflexivity.
    + intros H. inversion H. reflexivity.
    + intros H1 H2. destruct c; try reflexivity; exfalso; [apply H1|apply H2]; reflexivity.
Qed.

Lemma JSONType_cases :
  forall b,
    (JSONType b = "ARRAY"%string /\ leading b = Some x5b)
    \/ (JSONType b = "OBJECT"%string /\ leading b = Some x7b)
    \/ (JSONType b = ""%string /\ leading b <> Some x5b /\ leading b <> Some x7b).
Proof.
  intros b. unfold leading, JSONType.
  destruct (trim_left_space b) as [|c rest]; cbn [hd_error].
  - right. right. split; [reflexivity|]. split; discriminate.
  - destruct c;
      try (right; right; split; [reflexivity|split; discriminate]).
    + left. split; reflexivity.
    + right. left. split; reflexivity.
Qed.

(** Reading a complete text leaves the scan where it was before the text,
    with the text added to the element being read. *)
Lemma split_elements_through :
  forall e depth mode cur acc rest,
    value_text_from e depth mode = true ->
    split_elements (e ++ rest) depth mode cur acc
    = split_elements rest 0 Outside (rev e ++ cur) acc.
Proof.
  induction e as [|c e IH]; intros depth mode cur acc rest H.
  - cbn in H. destruct depth, mode; try discriminate. reflexivity.
  - cbn [app split_elements]. cbn [value_text_from] in H.
    cbn [rev]. rewrite <- app_assoc. cbn [app].
    destruct mode.
    + destruct (json_byte c), depth; try discriminate; apply IH; exact H.
    + destruct (json_byte c); apply IH; exact H.
    + apply IH; exact H.
Qed.

Lemma object_text_inv :
  forall e, object_text e = true ->
    value_text_from e 0 Outside = true /\ exists e', e = x7b :: e'.
Proof.
  intros e H. unfold object_text in H. destruct e as [|c e']; [discriminate|].
  destruct c; try discriminate. split; [exact H|]. exists e'. reflexivity.
Qed.

Lemma object_text_not_space :
  forall e, object_text e = true -> forallb is_json_space (rev e) = false.
Proof.
  intros e H. destruct (object_text_inv e H) as [_ [e' E]]. subst e.
  cbn [rev]. rewrite forallb_app. cbn. apply andb_false_r.
Qed.

Lemma object_text_leading :
  forall e, object_text e = true -> leading e = Some x7b.
Proof.
  intros e H. destruct (object_text_inv e H) as [_ [e' E]]. subst e. reflexivity.
Qed.

(** The scan of the elements joined by commas and closed by a bracket gives
    back the elements, in order. *)
Lemma split_elements_join :
  forall elems acc,
    elems <> [] ->
    Forall (fun e => object_text e = true) elems ->
    split_elements (join_comma elems ++ [x5d]) 0 Outside [] acc = Some (rev acc ++ elems).
Proof.
  induction elems as [|e rest IH]; intros acc Hne H; [contradiction|].
  inversion H as [|? ? He Hrest]; subst.
  destruct (object_text_inv e He) as [Hv _].
  destruct rest as [|e2 rest].
  - cbn [join_comma]. rewrite (split_elements_through e 0 Outside [] acc [x5d] Hv).
    rewrite app_nil_r. cbn [split_elements json_byte forallb].
    destruct acc as [|a acc].
    + rewrite (object_text_not_space e He), rev_involutive. reflexivity.
    + cbn [rev]. rewrite rev_involutive. reflexivity.
  - cbn [join_comma]. rewrite <- app_assoc. cbn [app].
    rewrite (split_elements_through e 0 Outside [] acc _ Hv).
    rewrite app_nil_r. cbn [split_elements json_byte].
    rewrite IH; [|discriminate|exact Hrest].
    cbn [rev]. rewrite rev_involutive, <- app_assoc. reflexivity.
Qed.

(** The elements of the array written from element texts are those texts. *)
Lemma json_array_elements_array_text :
  forall elems,
    Forall (fun e => object_text e = true) elems ->
    json_array_elements (array_text elems) = Some elems.
Proof.
  intros elems H. unfold json_array_elements, array_text.
  cbn [trim_left_space is_json_space].
  destruct elems as [|e rest]; [reflexivity|].
  rewrite split_elements_join; [reflexivity|discriminate|exact H].
Qed.

(** C3.  The flexible decoder on well-formed payloads.  A payload that opens
    an object and that [encoding/json] decodes to the entity [x] gives the
    one-element sequence [[x]].  The payload that is the array of [N] object
    texts, each of which [encoding/json] decodes as an entity, gives exactly
    [N] items, in the order of the array: the [k]-th item is the entity that
    the [k]-th object text decodes to, the same one that this object text
    gives when it is sent alone.  The same holds of every payload that
    opens an array, for the elements that the scan of the array finds in
    it. *)
Theorem UnmarshalJSON_object_or_array :
  forall (T : Type) (J : JSONEntity T),
    json_arrays_law J ->
    (forall (Items : list T) (b : list byte) (x : T),
        leading b = Some x7b ->
        json_Unmarshal b zero = (x, None) ->
        UnmarshalJSON Items b = ([x], None))
    /\ (forall elems : list (list byte),
        Forall (fun e => object_text e = true) elems ->
        Forall (fun e => snd (json_Unmarshal e zero) = None) elems ->
        UnmarshalJSON [] (array_text elems)
        = (map (fun e => fst (json_Unmarshal e zero)) elems, None)
        /\ List.length (fst (UnmarshalJSON [] (array_text elems))) = List.length elems
        /\ forall k e,
             nth_error elems k = Some e ->
             nth_error (fst (UnmarshalJSON [] (array_text elems))) k
             = Some (fst (json_Unmarshal e zero))
             /\ UnmarshalJSON [] e = ([fst (json_Unmarshal e zero)], None))
    /\ (forall (b : list byte) (elems : list (list byte)),
        json_array_elements b = Some elems ->
        Forall (fun e => snd (json_Unmarshal e zero) = None) elems ->
        UnmarshalJSON [] b = (map (fun e => fst (json_Unmarshal e zero)) elems, None)).
Proof.
  intros T J L.
  assert (Hobj : forall (Items : list T) (b : list byte) (x : T),
             leading b = Some x7b ->
             json_Unmarshal b zero = (x, None) ->
             UnmarshalJSON Items b = ([x], None)).
  { intros Items b x Hl Hd. destruct (JSONType_leading b) as [_ [Ho _]].
    unfold UnmarshalJSON. rewrite (Ho Hl). cbn [String.eqb]. rewrite Hd. reflexivity. }
  assert (Harr : forall (b : list byte) (elems : list (list byte)),
             json_array_elements b = Some elems ->
             Forall (fun e => snd (json_Unmarshal e zero) = None) elems ->
             UnmarshalJSON [] b
             = (map (fun e => fst (json_Unmarshal e zero)) elems, None)).
  { intros b elems He Hv.
    assert (Hl : leading b = Some x5b).
    { unfold json_array_elements in He. unfold leading.
      destruct (trim_left_space b) as [|c rest]; [discriminate|].
      destruct c; try discriminate. reflexivity. }
    destruct (JSONType_leading b) as [Ha _].
    unfold UnmarshalJSON. rewrite (Ha Hl). cbn [String.eqb].
    rewrite (L b elems He Hv). reflexivity. }
  split; [exact Hobj|]. split; [|exact Harr].
  intros elems Ho Hv.
  pose proof (Harr (array_text elems) elems (json_array_elements_array_text elems Ho) Hv)
    as E.
  rewrite E. cbn [fst]. split; [reflexivity|]. split; [apply length_map|].
  intros k e Hk. split.
  - rewrite nth_error_map, Hk. reflexivity.
  - apply nth_error_In in Hk.
    apply Hobj.
    + apply object_text_leading. exact (proj1 (Forall_forall _ _) Ho e Hk).
    + pose proof (proj1 (Forall_forall _ _) Hv e Hk) as Hn. cbn beta in Hn.
      destruct (json_Unmarshal e zero) as [x o]. cbn [fst snd] in *. subst o. reflexivity.
Qed.

Lemma ex_unmarshal_elements_ok :
  forall elems,
    Forall (fun e => snd (ex_unmarshal e (mkMeasurementCollection 0 [])) = None) elems ->
    ex_unmarshal_elements elems
    = (map (fun e => fst (ex_unmarshal e (mkMeasurementCollection 0 []))) elems, None).
Proof.
  intros elems Hv. induction Hv as [|e rest Hn _ IH]; [reflexivity|].
  cbn [ex_unmarshal_elements map].
  destruct (ex_unmarshal e (mkMeasurementCollection 0 [])) as [x o].
  cbn [fst snd] in *. subst o. rewrite IH. reflexivity.
Qed.

Lemma ex_encoding_json_arrays : json_arrays_law ex_encoding_json.
Proof.
  intros b elems He Hv. cbn [json_Unmarshal_slice ex_encoding_json]. rewrite He.
  apply ex_unmarshal_elements_ok. exact Hv.
Qed.

(** The array of the objects with [timeseries_id] 7 and 3 gives two items,
    7 first; the object with [timeseries_id] 7 alone gives one item. *)
Lemma UnmarshalJSON_object_or_array_witness :
  @UnmarshalJSON _ ex_encoding_json []
    (array_text [ex_entity_text x37; ex_entity_text x33])
  = ([mkMeasurementCollection 7 []; mkMeasurementCollection 3 []], None)
  /\ @UnmarshalJSON _ ex_encoding_json [] (ex_entity_text x37)
     = ([mkMeasurementCollection 7 []], None).
Proof.
  split.
  - apply (proj1 (proj2 (UnmarshalJSON_object_or_array MeasurementCollection
                           ex_encoding_json ex_encoding_json_arrays))
                 [ex_entity_text x37; ex_entity_text x33]);
      repeat constructor.
  - apply (proj1 (UnmarshalJSON_object_or_array MeasurementCollection
                    ex_encoding_json ex_encoding_json_arrays)
                 [] (ex_entity_text x37) (mkMeasurementCollection 7 []));
      reflexivity.
Defined.

(** C4.  The flexible decoder on the other payloads: the empty input, the
    literal [null], and any input whose first significant byte opens
    neither an array nor an object give zero items and no error; and an
    error is returned only when the payload opens an array or an object and
    [encoding/json] fails on it, the error being the one it reported. *)
Theorem UnmarshalJSON_zero_items_or_decode_error :
  forall (T : Type) (J : JSONEntity T) (Items : list T) (b : list byte),
    UnmarshalJSON Items [] = ([], None)
    /\ UnmarshalJSON Items (bytes "null") = ([], None)
    /\ (leading b <> Some x5b -> leading b <> Some x7b ->
        UnmarshalJSON Items b = ([], None))
    /\ (forall items e,
        UnmarshalJSON Items b = (items, Some e) ->
        (leading b = Some x5b /\ snd (json_Unmarshal_slice b Items) = Some e)
        \/ (leading b = Some x7b /\ snd (json_Unmarshal b zero) = Some e)).
Proof.
  intros T J Items b. split; [reflexivity|]. split; [reflexivity|]. split.
  - intros H1 H2. destruct (JSONType_leading b) as [_ [_ Hn]].
    unfold UnmarshalJSON. rewrite (Hn H1 H2). reflexivity.
  - intros items e H. unfold UnmarshalJSON in H.
    destruct (JSONType_cases b) as [[Ht Hl]|[[Ht Hl]|[Ht _]]]; rewrite Ht in H; cbn in H.
    + left. split; [exact Hl|].
      destruct (json_Unmarshal_slice b Items) as [its [err|]]; inversion H; reflexivity.
    + right. split; [exact Hl|].
      destruct (json_Unmarshal b zero) as [v [err|]]; inversion H; reflexivity.
    + discriminate.
Qed.

Lemma UnmarshalJSON_zero_items_or_decode_error_witness :
  UnmarshalJSON [mkMeasurementCollection 7 []] (bytes "  42") = ([], None)
  /\ (leading (bytes "[42]") = Some x5b
      /\ snd (json_Unmarshal_slice (bytes "[42]") []) = Some "json: cannot unmarshal"%string
      \/ leading (bytes "[42]") = Some x7b
         /\ snd (json_Unmarshal (bytes "[42]") zero) = Some "json: cannot unmarshal"%string).
Proof.
  split.
  - apply (UnmarshalJSON_zero_items_or_decode_error MeasurementCollection ex_json
             [mkMeasurementCollection 7 []] (bytes "  42")); discriminate.
  - apply (proj2 (proj2 (proj2 (UnmarshalJSON_zero_items_or_decode_error
             MeasurementCollection ex_json [] (bytes "[42]"))))) with (items := []).
    reflexivity.
Defined.

(** ** The handlers *)




(** ** The single-entity getters *)

Lemma index0_nil : forall (A : Type), @index0 A [] = Panic "index out of range [0] with length 0".
Proof. reflexivity. Qed.

(** The loop never touches the committed tables, and it ends in one of two
    ways: with the rows fetched before [rows.Next()] answered [false] and no
    error, or with an empty slice and the error of a scan. *)
Lemma factory_loop_cases :
  forall fault (A : Type) (rows pp : list A) w,
    (exists w' k, factory_loop fault rows pp w = (w', (pp ++ firstn k rows, None))
                  /\ committed w' = committed w)
    \/ (exists w' e, factory_loop fault rows pp w = (w', ([], Some e))
                     /\ committed w' = committed w).
Proof.
  intros fault A rows. induction rows as [|r rs IH]; intros pp w;
    cbn [factory_loop]; unfold rows_Next; destruct (fault (clock w)) as [e|].
  - left. eexists. exists 0. cbn [firstn]. rewrite app_nil_r. split; reflexivity.
  - left. eexists. exists 0. cbn [firstn]. rewrite app_nil_r. split; reflexivity.
  - left. eexists. exists 0. cbn [firstn]. rewrite app_nil_r. split; reflexivity.
  - unfold rows_Scan. destruct (fault (clock (tick w (EvNext true)))) as [e|].
    + right. eexists. exists e. split; reflexivity.
    + destruct (IH (pp ++ [r]) (tick (tick w (EvNext true)) (EvScan true)))
        as [[w' [k [H Hc]]]|[w' [e [H Hc]]]].
      * left. exists w', (S k). rewrite H. cbn [firstn]. rewrite <- app_assoc.
        split; [reflexivity|exact Hc].
      * right. exists w', e. split; [exact H|exact Hc].
Qed.

(** With no row to fetch the loop returns what it was given. *)
Lemma factory_loop_nil :
  forall fault (A : Type) (pp : list A) w,
    snd (factory_loop fault [] pp w) = (pp, None).
Proof.
  intros fault A pp w. cbn [factory_loop]. unfold rows_Next.
  destruct (fault (clock w)); reflexivity.
Qed.

(** When the query succeeds and matches no row, [GetProject] reaches [pp[0]]
    on an empty slice. *)
Lemma GetProject_zero_rows :
  forall fault id w,
    fault (clock w) = None ->
    getProject_rows id (committed w) = [] ->
    snd (GetProject fault id w) = Panic "index out of range [0] with length 0".
Proof.
  intros fault id w Hf Hrows. unfold GetProject, db_Query. rewrite Hf, Hrows.
  unfold ProjectFactory.
  pose proof (factory_loop_nil fault Project [] (tick w (EvQuery true))) as Hn.
  destruct (factory_loop fault [] [] (tick w (EvQuery true))) as [w2 [pp oe]].
  cbn [snd] in Hn. inversion Hn; subst. reflexivity.
Qed.

Lemma GetPlotConfiguration_zero_rows :
  forall fault projectID id w,
    fault (clock w) = None ->
    getPlotConfiguration_rows projectID id (committed w) = [] ->
    snd (GetPlotConfiguration fault projectID id w)
    = Panic "index out of range [0] with length 0".
Proof.
  intros fault projectID id w Hf Hrows. unfold GetPlotConfiguration, db_Query.
  rewrite Hf, Hrows. unfold PlotConfigFactory.
  pose proof (factory_loop_nil fault PlotConfiguration [] (tick w (EvQuery true))) as Hn.
  destruct (factory_loop fault [] [] (tick w (EvQuery true))) as [w2 [pp oe]].
  cbn [snd] in Hn. inversion Hn; subst. reflexivity.
Qed.

(** What the loop returns without error is what it was given followed by
    the first rows of the result, as many as were fetched. *)
Lemma factory_loop_rows :
  forall fault (A : Type) (rows pp : list A) w w' out,
    factory_loop fault rows pp w = (w', (out, None)) ->
    exists k, out = pp ++ firstn k rows.
Proof.
  intros fault A rows pp w w' out H.
  destruct (factory_loop_cases fault A rows pp w) as [[w1 [k [E _]]]|[w1 [e [E _]]]];
    rewrite E in H; inversion H; subst.
  exists k. reflexivity.
Qed.

Lemma hd_error_firstn :
  forall (A : Type) (k : nat) (l : list A) (x : A),
    nth_error (firstn k l) 0 = Some x -> hd_error l = Some x.
Proof.
  intros A k l x H. destruct k as [|k]; [discriminate|].
  destruct l as [|y l]; [discriminate|]. exact H.
Qed.

(** A value is returned only when a row matched: it is the first one. *)
Lemma GetProject_ok_first_row :
  forall fault id w w' p,
    GetProject fault id w = (w', Ok p) ->
    hd_error (getProject_rows id (committed w)) = Some p.
Proof.
  intros fault id w w' p H. unfold GetProject, db_Query in H.
  destruct (fault (clock w)); [discriminate|].
  unfold ProjectFactory in H.
  destruct (factory_loop fault _ [] _) as [w2 [pp [err|]]] eqn:E; [discriminate|].
  apply factory_loop_rows in E. destruct E as [k E]. cbn [app] in E. subst pp.
  inversion H as [[Hw Hp]]. unfold index0 in Hp.
  destruct (nth_error (firstn k (getProject_rows id (committed w))) 0) as [q|] eqn:En;
    [|discriminate].
  inversion Hp; subst q. exact (hd_error_firstn _ _ _ _ En).
Qed.

(** C10 (what the code does).  The first-element access is not guarded by
    the number of rows: looking up a project that does not exist, the query
    succeeds with no row and [GetProject] panics on [pp[0]]; so does
    [GetPlotConfiguration] on a plot configuration that does not exist, and
    also on one that exists when scanning its row fails, because the
    factory's error is dropped and its empty slice is indexed.  Both also
    panic on an entity that exists when [rows.Next()] fails on its row,
    because the factories never read [rows.Err()]. *)
Theorem single_entity_getters_index_empty_slice :
  getProject_rows 9 (committed ex_project_world) = []
  /\ GetProject never_fails 9 ex_project_world
     = (mkWorld ex_project_tables 2 [EvQuery true; EvNext true],
        Panic "index out of range [0] with length 0")
  /\ getPlotConfiguration_rows 3 9 (committed ex_pc_world) = []
  /\ GetPlotConfiguration never_fails 3 9 ex_pc_world
     = (mkWorld ex_pc_tables 2 [EvQuery true; EvNext true],
        Panic "index out of range [0] with length 0")
  /\ List.length (getPlotConfiguration_rows 3 5 (committed ex_pc_world)) = 1
  /\ GetPlotConfiguration (fails_at 2 "sql: Scan error on column index 4") 3 5 ex_pc_world
     = (mkWorld ex_pc_tables 3 [EvQuery true; EvNext true; EvScan false],
        Panic "index out of range [0] with length 0")
  /\ List.length (getProject_rows 1 (committed ex_project_world)) = 1
  /\ GetProject (fails_at 1 "driver: bad connection") 1 ex_project_world
     = (mkWorld ex_project_tables 2 [EvQuery true; EvNext false],
        Panic "index out of range [0] with length 0")
  /\ GetPlotConfiguration (fails_at 1 "driver: bad connection") 3 5 ex_pc_world
     = (mkWorld ex_pc_tables 2 [EvQuery true; EvNext false],
        Panic "index out of range [0] with length 0").
Proof.
  repeat split; reflexivity.
Qed.

(* ================================================================== *)
(** * Part III. Further properties of the code *)
(* ================================================================== *)

(** ** The measurement writer, beyond the claims *)

Lemma points_app : forall a b, points (a ++ b) = points a ++ points b.
Proof. intros a b. unfold points. apply flat_map_app. Qed.

Lemma upsert_all_app :
  forall ps qs tb, upsert_all (ps ++ qs) tb = upsert_all qs (upsert_all ps tb).
Proof. intros ps qs tb. unfold upsert_all. apply fold_left_app. Qed.

Lemma upsert_all_cons :
  forall p ps tb,
    upsert_all (p :: ps) tb = upsert_all ps (fst (exec_stmt (upsert_of p) tb)).
Proof. reflexivity. Qed.

Lemma exec_upsert_other_tables :
  forall p tb,
    let tb' := fst (exec_stmt (upsert_of p) tb) in
    timeseries tb' = timeseries tb
    /\ plot_configuration tb' = plot_configuration tb
    /\ plot_configuration_timeseries tb' = plot_configuration_timeseries tb
    /\ v_project tb' = v_project tb.
Proof.
  intros p tb. unfold upsert_of. cbn [exec_stmt].
  destruct (upsert_measurement _ _ _ _) as [rows n]. cbn. repeat split.
Qed.

Lemma upsert_all_other_tables :
  forall ps tb,
    timeseries (upsert_all ps tb) = timeseries tb
    /\ plot_configuration (upsert_all ps tb) = plot_configuration tb
    /\ plot_configuration_timeseries (upsert_all ps tb) = plot_configuration_timeseries tb
    /\ v_project (upsert_all ps tb) = v_project tb.
Proof.
  induction ps as [|p ps IH]; intros tb.
  - repeat split.
  - rewrite upsert_all_cons.
    destruct (IH (fst (exec_stmt (upsert_of p) tb))) as [H1 [H2 [H3 H4]]].
    destruct (exec_upsert_other_tables p tb) as [G1 [G2 [G3 G4]]].
    rewrite H1, H2, H3, H4. repeat split; assumption.
Qed.

Lemma upsert_all_unique :
  forall ps tb,
    timeseries_unique_time (timeseries_measurement tb) ->
    timeseries_unique_time (timeseries_measurement (upsert_all ps tb)).
Proof.
  induction ps as [|p ps IH]; intros tb Hu.
  - exact Hu.
  - rewrite upsert_all_cons. apply IH.
    rewrite exec_upsert_measurement_table. apply upsert_measurement_unique. exact Hu.
Qed.

Lemma upsert_all_other_keys :
  forall tsid t ps tb,
    Forall (fun q => (fst q, m_Time (snd q)) <> (tsid, t)) ps ->
    rows_at tsid t (upsert_all ps tb) = rows_at tsid t tb.
Proof.
  intros tsid t ps. unfold rows_at.
  induction ps as [|p ps IH]; intros tb Hall.
  - reflexivity.
  - inversion Hall as [|q qs Hq Hqs]. subst.
    rewrite upsert_all_cons.
    rewrite IH by exact Hqs.
    rewrite exec_upsert_measurement_table.
    apply upsert_measurement_other_key. exact Hq.
Qed.

(** X1.  [CreateOrUpdateTimeseriesMeasurements] is all or nothing and never
    panics: either it returns its argument and the committed tables are the
    old ones with every point of the batch upserted in order, or it returns
    an error and the committed tables are exactly the old ones, whichever
    driver call failed (begin, prepare, an exec, close or commit). *)
Theorem CreateOrUpdateTimeseriesMeasurements_all_or_nothing :
  forall (fault : nat -> option error) (mc : list MeasurementCollection) (w : World),
    (snd (CreateOrUpdateTimeseriesMeasurements fault mc w) = Ok mc
     /\ committed (fst (CreateOrUpdateTimeseriesMeasurements fault mc w))
        = upsert_all (points mc) (committed w))
    \/ (exists e,
          snd (CreateOrUpdateTimeseriesMeasurements fault mc w) = Err e
          /\ committed (fst (CreateOrUpdateTimeseriesMeasurements fault mc w))
             = committed w).
Proof.
  intros fault mc w.
  destruct (CreateOrUpdateTimeseriesMeasurements fault mc w) as [w' r] eqn:E.
  cbn [fst snd]. destruct r as [a|e|msg].
  - left. apply CreateOrUpdateTimeseriesMeasurements_ok in E.
    destruct E as [Ha Hc]. subst a. split; [reflexivity|exact Hc].
  - right. exists e. split; [reflexivity|].
    eapply CreateOrUpdateTimeseriesMeasurements_err_unchanged. exact E.
  - exfalso. unfold CreateOrUpdateTimeseriesMeasurements in E.
    destruct (db_Begin fault w) as [w1 [txn|e]]; [|discriminate].
    destruct (tx_Prepare fault w1) as [w2 [e|]]; [discriminate|].
    destruct (exec_collections fault mc txn w2) as [w3 [txn'|e]]; [|discriminate].
    destruct (stmt_Close fault w3) as [w4 [e|]]; [discriminate|].
    destruct (tx_Commit fault txn' w4) as [w5 [e|]]; discriminate.
Qed.

(** X2.  A successful batch touches nothing but the keys it writes: every
    other table is as before, the rows stored for a (series, time) that no
    point of the batch names are as before, and constraint
    [timeseries_unique_time] still holds if it held before. *)
Theorem CreateOrUpdateTimeseriesMeasurements_frame :
  forall (fault : nat -> option error) (mc r : list MeasurementCollection) (w w' : World),
    CreateOrUpdateTimeseriesMeasurements fault mc w = (w', Ok r) ->
    timeseries (committed w') = timeseries (committed w)
    /\ plot_configuration (committed w') = plot_configuration (committed w)
    /\ plot_configuration_timeseries (committed w')
       = plot_configuration_timeseries (committed w)
    /\ v_project (committed w') = v_project (committed w)
    /\ (forall tsid t,
          Forall (fun q => (fst q, m_Time (snd q)) <> (tsid, t)) (points mc) ->
          rows_at tsid t (committed w') = rows_at tsid t (committed w))
    /\ (timeseries_unique_time (timeseries_measurement (committed w)) ->
        timeseries_unique_time (timeseries_measurement (committed w'))).
Proof.
  intros fault mc r w w' H.
  apply CreateOrUpdateTimeseriesMeasurements_ok in H. destruct H as [_ H]. rewrite H.
  destruct (upsert_all_other_tables (points mc) (committed w)) as [H1 [H2 [H3 H4]]].
  split; [exact H1|]. split; [exact H2|]. split; [exact H3|]. split; [exact H4|]. split.
  - intros tsid t Hall. apply upsert_all_other_keys. exact Hall.
  - apply upsert_all_unique.
Qed.

Lemma CreateOrUpdateTimeseriesMeasurements_frame_witness :
  rows_at 2 (hour 11)
    (committed (fst (CreateOrUpdateTimeseriesMeasurements never_fails ex_batch ex_world)))
  = rows_at 2 (hour 11) (committed ex_world).
Proof.
  refine (proj1 (proj2 (proj2 (proj2 (proj2
            (CreateOrUpdateTimeseriesMeasurements_frame never_fails ex_batch ex_batch
               ex_world _ eq_refl))))) 2%N (hour 11) _).
  repeat constructor; cbn; intro H; inversion H.
Defined.

(** X3.  One batch does what its pieces do one after the other: when the
    batch [a ++ b] succeeds, and [a] then [b] succeed as two calls from the
    same tables, both ways commit the same tables. *)
Theorem CreateOrUpdateTimeseriesMeasurements_batch_is_sequence :
  forall (fault1 fault2 : nat -> option error)
         (a b r ra rb : list MeasurementCollection) (w w' u ua ub : World),
    committed u = committed w ->
    CreateOrUpdateTimeseriesMeasurements fault1 (a ++ b) w = (w', Ok r) ->
    CreateOrUpdateTimeseriesMeasurements fault2 a u = (ua, Ok ra) ->
    CreateOrUpdateTimeseriesMeasurements fault2 b ua = (ub, Ok rb) ->
    committed ub = committed w'.
Proof.
  intros fault1 fault2 a b r ra rb w w' u ua ub Hu H Ha Hb.
  apply CreateOrUpdateTimeseriesMeasurements_ok in H. destruct H as [_ H].
  apply CreateOrUpdateTimeseriesMeasurements_ok in Ha. destruct Ha as [_ Ha].
  apply CreateOrUpdateTimeseriesMeasurements_ok in Hb. destruct Hb as [_ Hb].
  rewrite Hb, Ha, H, Hu, points_app, upsert_all_app. reflexivity.
Qed.

Lemma CreateOrUpdateTimeseriesMeasurements_batch_is_sequence_witness :
  committed (fst (CreateOrUpdateTimeseriesMeasurements never_fails
                    [mkMeasurementCollection 2 [mkMeasurement (hour 11) 0.5%float]]
                    (fst (CreateOrUpdateTimeseriesMeasurements never_fails
                            ex_batch ex_world))))
  = committed (fst (CreateOrUpdateTimeseriesMeasurements never_fails
                      (ex_batch ++ [mkMeasurementCollection 2
                                      [mkMeasurement (hour 11) 0.5%float]])
                      ex_world)).
Proof.
  eapply (CreateOrUpdateTimeseriesMeasurements_batch_is_sequence
            never_fails never_fails ex_batch
            [mkMeasurementCollection 2 [mkMeasurement (hour 11) 0.5%float]]
            _ _ _ ex_world _ ex_world);
    reflexivity.
Defined.

(** ** The measurement reader, beyond the claims *)

Lemma ListTimeseriesMeasurements_Ok :
  forall fault id tw w w' c,
    ListTimeseriesMeasurements fault id tw w = (w', Ok c) ->
    c = mkMeasurementCollection id
          (listTimeseriesMeasurements_rows id (tw_After tw) (tw_Before tw) (committed w))
    /\ committed w' = committed w.
Proof.
  intros fault id tw w w' c H. unfold ListTimeseriesMeasurements, db_Query in H.
  destruct (fault (clock w)); [discriminate|]. inversion H. split; reflexivity.
Qed.

(** X4.  What the reader returns when the query succeeds is exactly what is
    stored: a point is returned if and only if the series is declared in
    [timeseries] and the point is a stored row of the series strictly inside
    the window; a series that is not declared reads as empty even when rows
    are stored for it; when the series is declared once the result is a
    rearrangement of the stored points (none lost, none repeated); and the
    committed tables are not changed by reading. *)
Theorem ListTimeseriesMeasurements_returns_stored_points :
  forall (fault : nat -> option error) (id : UUID) (tw : TimeWindow) (w : World),
    fault (clock w) = None ->
    exists w' items,
      ListTimeseriesMeasurements fault id tw w
      = (w', Ok (mkMeasurementCollection id items))
      /\ committed w' = committed w
      /\ (forall m, In m items <->
                    In id (timeseries (committed w))
                    /\ In m (stored_points_in_window id tw (committed w)))
      /\ (~ In id (timeseries (committed w)) -> items = [])
      /\ (NoDup (timeseries (committed w)) -> In id (timeseries (committed w)) ->
          Permutation items (stored_points_in_window id tw (committed w))).
Proof.
  intros fault id tw w Hf.
  unfold ListTimeseriesMeasurements, db_Query. rewrite Hf.
  destruct (listTimeseriesMeasurements_rows_stored id tw (committed w)) as [Hiff Hperm].
  eexists. eexists. split; [reflexivity|]. split; [reflexivity|].
  split; [exact Hiff|]. split; [|exact Hperm].
  intros Hnot.
  destruct (listTimeseriesMeasurements_rows id (tw_After tw) (tw_Before tw) (committed w))
    as [|m ms]; [reflexivity|].
  exfalso. apply Hnot. apply (proj1 (Hiff m)). left. reflexivity.
Qed.

Lemma ListTimeseriesMeasurements_returns_stored_points_witness :
  exists w' items,
    ListTimeseriesMeasurements never_fails 1 (mkTimeWindow (hour 9) (hour 12)) ex_world
    = (w', Ok (mkMeasurementCollection 1 items))
    /\ committed w' = committed ex_world
    /\ (forall m, In m items <->
                  In 1%N (timeseries (committed ex_world))
                  /\ In m (stored_points_in_window 1 (mkTimeWindow (hour 9) (hour 12))
                             (committed ex_world)))
    /\ (~ In 1%N (timeseries (committed ex_world)) -> items = [])
    /\ (NoDup (timeseries (committed ex_world)) -> In 1%N (timeseries (committed ex_world)) ->
        Permutation items
          (stored_points_in_window 1 (mkTimeWindow (hour 9) (hour 12)) (committed ex_world))).
Proof.
  apply (ListTimeseriesMeasurements_returns_stored_points
           never_fails 1%N (mkTimeWindow (hour 9) (hour 12)) ex_world).
  reflexivity.
Defined.

(** X5.  Write, then read: after a successful batch whose last point for
    [(S, T)] carries the value [v], reading series [S] (declared in
    [timeseries]) over a window that strictly contains [T] returns the point
    [(T, v)], and it is the only point returned at time [T]. *)
Theorem upsert_then_list_returns_last_value :
  forall (fault : nat -> option error) (mc r : list MeasurementCollection)
         (w w1 w2 : World) (c : MeasurementCollection)
         (S : UUID) (T : Time) (v : float)
         (pre post : list (UUID * Measurement)) (tw : TimeWindow),
    timeseries_unique_time (timeseries_measurement (committed w)) ->
    In S (timeseries (committed w)) ->
    points mc = pre ++ (S, mkMeasurement T v) :: post ->
    Forall (fun q => (fst q, m_Time (snd q)) <> (S, T)) post ->
    in_window tw T ->
    CreateOrUpdateTimeseriesMeasurements fault mc w = (w1, Ok r) ->
    ListTimeseriesMeasurements fault S tw w1 = (w2, Ok c) ->
    mc_TimeseriesID c = S
    /\ In (mkMeasurement T v) (mc_Items c)
    /\ (forall m, In m (mc_Items c) -> m_Time m = T -> m = mkMeasurement T v).
Proof.
  intros fault mc r w w1 w2 c S T v pre post tw Hu Hdecl Hpts Hpost Hwin Hw Hr.
  apply CreateOrUpdateTimeseriesMeasurements_ok in Hw. destruct Hw as [_ Hw].
  apply ListTimeseriesMeasurements_Ok in Hr. destruct Hr as [Hc _]. subst c.
  cbn [mc_TimeseriesID mc_Items]. split; [reflexivity|].
  pose proof (upsert_all_last_wins S T v pre post (committed w) Hu Hpost) as Hat.
  rewrite <- Hpts, <- Hw in Hat.
  destruct (upsert_all_other_tables (points mc) (committed w)) as [Hts _].
  rewrite <- Hw in Hts.
  destruct (listTimeseriesMeasurements_rows_spec S tw (committed w1)) as [_ [_ Hin]].
  assert (Hrow : In (mkMeasurementRow S T v) (timeseries_measurement (committed w1))).
  { assert (H : In (mkMeasurementRow S T v) (rows_at S T (committed w1)))
      by (rewrite Hat; left; reflexivity).
    unfold rows_at in H. apply filter_In in H. tauto. }
  split.
  - apply (proj2 (Hin _)). exists (mkMeasurementRow S T v).
    split; [exact Hrow|]. split; [rewrite Hts; exact Hdecl|].
    split; [reflexivity|]. split; [exact Hwin|]. reflexivity.
  - intros m Hm Ht. apply (proj1 (Hin m)) in Hm.
    destruct Hm as [row [Hrw [_ [Hid [_ Heq]]]]].
    assert (H : In row (rows_at S T (committed w1))).
    { unfold rows_at. apply filter_In. split; [exact Hrw|].
      apply same_key_true. unfold row_key. rewrite Hid.
      rewrite Heq in Ht. cbn [m_Time] in Ht. rewrite Ht. reflexivity. }
    rewrite Hat in H. destruct H as [H|[]]. subst row. exact Heq.
Qed.

Lemma upsert_then_list_returns_last_value_witness :
  mc_TimeseriesID (mkMeasurementCollection 1
    [mkMeasurement (hour 12) 4.0%float; mkMeasurement (hour 11) 3.0%float]) = 1%N
  /\ In (mkMeasurement (hour 11) 3.0%float)
        (mc_Items (mkMeasurementCollection 1
           [mkMeasurement (hour 12) 4.0%float; mkMeasurement (hour 11) 3.0%float]))
  /\ (forall m,
        In m (mc_Items (mkMeasurementCollection 1
           [mkMeasurement (hour 12) 4.0%float; mkMeasurement (hour 11) 3.0%float])) ->
        m_Time m = hour 11 -> m = mkMeasurement (hour 11) 3.0%float).
Proof.
  assert (Hu : timeseries_unique_time (timeseries_measurement (committed ex_world))).
  { unfold timeseries_unique_time. simpl.
    repeat constructor; simpl; intuition discriminate. }
  refine (upsert_then_list_returns_last_value never_fails ex_batch ex_batch
            ex_world _ _ _ 1%N (hour 11) 3.0%float []
            [(1%N, mkMeasurement (hour 12) 4.0%float)]
            (mkTimeWindow (hour 10) (hour 13)) Hu _ eq_refl _ _ eq_refl eq_refl).
  - left. reflexivity.
  - repeat constructor. cbn. intro H. inversion H.
  - split; reflexivity.
Defined.

(** X6.  [TimeseriesIDs] lists the series identifier of every collection,
    one per collection and in the order of the collections (a collection
    without points is listed too); so the series of every point that
    [CreateOrUpdateTimeseriesMeasurements] writes is among them. *)
Theorem TimeseriesIDs_lists_every_collection :
  forall (Items : list MeasurementCollection),
    TimeseriesIDs Items = map mc_TimeseriesID Items
    /\ List.length (TimeseriesIDs Items) = List.length Items
    /\ (forall p, In p (points Items) -> In (fst p) (TimeseriesIDs Items)).
Proof.
  intros Items.
  assert (H : forall acc, fold_left (fun dd item => dd ++ [mc_TimeseriesID item]) Items acc
                          = acc ++ map mc_TimeseriesID Items).
  { induction Items as [|c cs IH]; intros acc; cbn [fold_left map].
    - rewrite app_nil_r. reflexivity.
    - rewrite IH, <- app_assoc. reflexivity. }
  assert (E : TimeseriesIDs Items = map mc_TimeseriesID Items)
    by (unfold TimeseriesIDs; rewrite H; reflexivity).
  split; [exact E|]. split.
  - rewrite E. apply length_map.
  - intros p Hp. rewrite E. unfold points in Hp. apply in_flat_map in Hp.
    destruct Hp as [c [Hc Hp]]. apply in_map_iff in Hp. destruct Hp as [m [Hm _]].
    subst p. cbn [fst]. apply in_map. exact Hc.
Qed.

(** ** Plot configurations, beyond the claims *)

Lemma v_plot_configuration_ids :
  forall tb p,
    In p (v_plot_configuration tb) ->
    exists r, In r (plot_configuration tb)
              /\ pc_ID p = pcr_id r /\ pc_ProjectID p = pcr_project_id r
              /\ pc_Name p = pcr_name r
              /\ pc_TimeseriesID p
                 = map snd (filter (fun a => (fst a =? pcr_id r)%N)
                                   (plot_configuration_timeseries tb)).
Proof.
  intros tb p Hp. unfold v_plot_configuration in Hp. apply in_map_iff in Hp.
  destruct Hp as [r [Hr Hin]]. exists r. subst p. cbn. repeat split. exact Hin.
Qed.

(** [GetPlotConfiguration] only reads, and a value it returns is the first
    row the query gives. *)
Lemma GetPlotConfiguration_cases :
  forall (fault : nat -> option error) (projectID plotconfigID : UUID) (w w' : World)
         (r : result PlotConfiguration),
    GetPlotConfiguration fault projectID plotconfigID w = (w', r) ->
    committed w' = committed w
    /\ (forall p, r = Ok p ->
          hd_error (getPlotConfiguration_rows projectID plotconfigID (committed w)) = Some p
          /\ pc_ID p = plotconfigID /\ pc_ProjectID p = projectID).
Proof.
  intros fault projectID plotconfigID w w' r H.
  unfold GetPlotConfiguration, db_Query in H.
  destruct (fault (clock w)) as [e|] eqn:Ef.
  - inversion H; subst. split; [reflexivity|]. intros p Hp. discriminate.
  - unfold PlotConfigFactory in H.
    destruct (factory_loop_cases fault PlotConfiguration
                (getPlotConfiguration_rows projectID plotconfigID (committed w)) []
                (tick w (EvQuery true))) as [[wf [k [Hf Hc]]]|[wf [e [Hf Hc]]]];
      rewrite Hf in H; inversion H; subst; (split; [exact Hc|]).
    + intros p Hp. cbn [app] in Hp. unfold index0 in Hp.
      destruct (nth_error
                  (firstn k (getPlotConfiguration_rows projectID plotconfigID (committed w)))
                  0) as [q|] eqn:En; [|discriminate].
      inversion Hp; subst q. apply hd_error_firstn in En. split; [exact En|].
      assert (Hin : In p (getPlotConfiguration_rows projectID plotconfigID (committed w))).
      { destruct (getPlotConfiguration_rows projectID plotconfigID (committed w))
          as [|q qs]; [discriminate|]. inversion En. left. reflexivity. }
      unfold getPlotConfiguration_rows in Hin. apply filter_In in Hin.
      destruct Hin as [_ Hin]. apply andb_true_iff in Hin. destruct Hin as [H1 H2].
      apply N.eqb_eq in H1. apply N.eqb_eq in H2. split; assumption.
    + intros p Hp. discriminate.
Qed.

(** X7.  [GetPlotConfiguration] reports an error only when the query itself
    fails, and then it is the query's error: a failure while scanning a row
    is never reported (it ends in the panic of C10).  A value it returns is
    the first row of the view with the requested project and identifier.
    The committed tables are never changed. *)
Theorem GetPlotConfiguration_outcomes :
  forall (fault : nat -> option error) (projectID plotconfigID : UUID) (w w' : World)
         (r : result PlotConfiguration),
    GetPlotConfiguration fault projectID plotconfigID w = (w', r) ->
    committed w' = committed w
    /\ (forall e, r = Err e -> fault (clock w) = Some e)
    /\ (forall p, r = Ok p ->
          hd_error (getPlotConfiguration_rows projectID plotconfigID (committed w)) = Some p
          /\ pc_ID p = plotconfigID /\ pc_ProjectID p = projectID)
    /\ (forall msg, r = Panic msg -> fault (clock w) = None).
Proof.
  intros fault projectID plotconfigID w w' r H.
  destruct (GetPlotConfiguration_cases _ _ _ _ _ _ H) as [Hc Hok].
  split; [exact Hc|]. split; [|split; [exact Hok|]];
    unfold GetPlotConfiguration, db_Query in H;
    destruct (fault (clock w)) as [e|] eqn:Ef.
  - inversion H; subst. intros e' He'. congruence.
  - unfold PlotConfigFactory in H.
    destruct (factory_loop_cases fault PlotConfiguration
                (getPlotConfiguration_rows projectID plotconfigID (committed w)) []
                (tick w (EvQuery true))) as [[wf [k [Hf _]]]|[wf [e [Hf _]]]];
      rewrite Hf in H; inversion H; subst; intros e' He'; [|discriminate].
    cbn [app] in He'. unfold index0 in He'. destruct (nth_error _ 0); discriminate.
  - inversion H; subst. intros msg Hm. discriminate.
  - intros msg _. reflexivity.
Qed.

Lemma GetPlotConfiguration_outcomes_witness :
  hd_error (getPlotConfiguration_rows 3 5 (committed ex_pc_world))
  = Some (mkPlotConfiguration 5 "Plot A" "plot-a" 3 [10%N; 11%N]
            (mkAuditInfo 100 (hour 8) None None))
  /\ pc_ID (mkPlotConfiguration 5 "Plot A" "plot-a" 3 [10%N; 11%N]
              (mkAuditInfo 100 (hour 8) None None)) = 5%N
  /\ pc_ProjectID (mkPlotConfiguration 5 "Plot A" "plot-a" 3 [10%N; 11%N]
                     (mkAuditInfo 100 (hour 8) None None)) = 3%N.
Proof.
  exact (proj1 (proj2 (proj2
           (GetPlotConfiguration_outcomes never_fails 3%N 5%N ex_pc_world _ _ eq_refl)))
           _ eq_refl).
Defined.

Lemma factory_loop_error_source :
  forall fault (A : Type) (rows acc : list A) u wf pp e,
    factory_loop fault rows acc u = (wf, (pp, Some e)) ->
    exists n, clock u <= n /\ fault n = Some e.
Proof.
  intros fault A rows. induction rows as [|x rows IH]; intros acc u wf pp e Hu;
    cbn [factory_loop] in Hu; unfold rows_Next in Hu;
    destruct (fault (clock u)) as [e0|] eqn:E0; try discriminate.
  unfold rows_Scan in Hu. cbn [tick clock] in Hu.
  destruct (fault (S (clock u))) as [e1|] eqn:E1.
  - inversion Hu; subst. exists (S (clock u)). split; [lia|exact E1].
  - apply IH in Hu. destruct Hu as [n [Hn Hfn]]. exists n.
    cbn [tick clock] in Hn. split; [lia|exact Hfn].
Qed.

(** X8.  [GetProject] never changes the committed tables.  A project it
    returns is the first row of [v_project] with the requested identifier.
    An error it reports is the error of the query or of the scan of a row.
    It panics on [pp[0]] only after a successful query, when no row has the
    identifier or when the first [rows.Next()] failed; and it does panic
    whenever the first [rows.Next()] fails, also for a project that is
    stored, because [ProjectFactory] never reads [rows.Err()].  When exactly
    one row has the identifier and the query, the first [rows.Next()] and
    the scan succeed, that row is returned. *)
Theorem GetProject_outcomes :
  forall (fault : nat -> option error) (id : UUID) (w w' : World) (r : result Project),
    GetProject fault id w = (w', r) ->
    committed w' = committed w
    /\ (forall p, r = Ok p ->
          hd_error (getProject_rows id (committed w)) = Some p /\ p_ID p = id)
    /\ (forall e, r = Err e -> exists n, clock w <= n /\ fault n = Some e)
    /\ (forall msg, r = Panic msg ->
          fault (clock w) = None
          /\ (getProject_rows id (committed w) = []
              \/ exists e, fault (S (clock w)) = Some e))
    /\ (fault (clock w) = None -> fault (S (clock w)) <> None ->
        r = Panic "index out of range [0] with length 0")
    /\ (forall p, getProject_rows id (committed w) = [p] ->
          no_fault fault (clock w) 3 -> r = Ok p).
Proof.
  intros fault id w w' r H. unfold GetProject, db_Query in H.
  destruct (fault (clock w)) as [e|] eqn:Ef.
  - inversion H; subst. split; [reflexivity|]. split; [intros; discriminate|].
    split; [intros e' He'; inversion He'; subst; exists (clock w); split; [lia|exact Ef]|].
    split; [intros; discriminate|]. split; [intros Hn; discriminate|].
    intros p _ Hnf. specialize (Hnf 0). rewrite Nat.add_0_r in Hnf.
    rewrite Hnf in Ef by lia. discriminate.
  - unfold ProjectFactory in H.
    assert (Hid : forall p, hd_error (getProject_rows id (committed w)) = Some p ->
                            p_ID p = id).
    { intros p Hp.
      assert (Hin : In p (getProject_rows id (committed w))).
      { destruct (getProject_rows id (committed w)) as [|q qs]; [discriminate|].
        inversion Hp. left. reflexivity. }
      unfold getProject_rows in Hin. apply filter_In in Hin.
      destruct Hin as [_ Hin]. apply N.eqb_eq in Hin. exact Hin. }
    destruct (getProject_rows id (committed w)) as [|q qs] eqn:Erows;
      cbn [factory_loop] in H; unfold rows_Next in H; cbn [tick clock] in H;
      destruct (fault (S (clock w))) as [en|] eqn:En.
    + inversion H; subst. split; [reflexivity|]. split; [intros; discriminate|].
      split; [intros; discriminate|].
      split; [intros msg _; split; [reflexivity|left; reflexivity]|].
      split; [intros; reflexivity|]. intros p Hp. discriminate.
    + inversion H; subst. split; [reflexivity|]. split; [intros; discriminate|].
      split; [intros; discriminate|].
      split; [intros msg _; split; [reflexivity|left; reflexivity]|].
      split; [intros; reflexivity|]. intros p Hp. discriminate.
    + inversion H; subst. split; [reflexivity|]. split; [intros; discriminate|].
      split; [intros; discriminate|].
      split; [intros msg _; split; [reflexivity|right; exists en; reflexivity]|].
      split; [intros; reflexivity|].
      intros p _ Hnf. specialize (Hnf 1). rewrite Nat.add_1_r in Hnf.
      rewrite Hnf in En by lia. discriminate.
    + unfold rows_Scan in H. cbn [tick clock] in H.
      destruct (fault (S (S (clock w)))) as [es|] eqn:Es.
      * inversion H; subst. split; [reflexivity|]. split; [intros; discriminate|].
        split; [intros e' He'; inversion He'; subst;
                exists (S (S (clock w))); split; [lia|exact Es]|].
        split; [intros; discriminate|].
        split; [intros _ Hn; exfalso; apply Hn; reflexivity|].
        intros p _ Hnf. specialize (Hnf 2).
        replace (clock w + 2) with (S (S (clock w))) in Hnf by lia.
        rewrite Hnf in Es by lia. discriminate.
      * destruct (factory_loop_cases fault Project qs ([] ++ [q])
                    (tick (tick (tick w (EvQuery true)) (EvNext true)) (EvScan true)))
          as [[w1 [k [Hf Hc]]]|[w1 [e [Hf Hc]]]];
          rewrite Hf in H; inversion H; subst; (split; [exact Hc|]).
        -- split; [intros p Hp; inversion Hp; subst; split;
                   [reflexivity|apply Hid; reflexivity]|].
           split; [intros; discriminate|]. split; [intros; discriminate|].
           split; [intros _ Hn; exfalso; apply Hn; reflexivity|].
           intros p Hp _. inversion Hp. reflexivity.
        -- split; [intros; discriminate|].
           split; [intros e' He'; inversion He'; subst e';
                   destruct (factory_loop_error_source _ _ _ _ _ _ _ _ Hf) as [n [Hn Hfn]];
                   exists n; cbn [tick clock] in Hn; split; [lia|exact Hfn]|].
           split; [intros; discriminate|].
           split; [intros _ Hn; exfalso; apply Hn; reflexivity|].
           intros p Hp _. inversion Hp; subst.
           pose proof (factory_loop_nil fault Project ([] ++ [p])
                         (tick (tick (tick w (EvQuery true)) (EvNext true)) (EvScan true)))
             as Hnil.
           rewrite Hf in Hnil. discriminate.
Qed.

Lemma GetProject_outcomes_witness :
  snd (GetProject never_fails 1 ex_project_world)
  = Ok (mkProject 1 None None None false "project-one" "Project One" [] 0 0
          (mkAuditInfo 100 (hour 8) None None)).
Proof.
  refine (proj2 (proj2 (proj2 (proj2 (proj2
           (GetProject_outcomes never_fails 1%N ex_project_world _ _ eq_refl)))))
           _ eq_refl _).
  intros i _. reflexivity.
Defined.

(** The driver calls that cannot commit leave the committed tables alone. *)

Lemma db_Begin_committed :
  forall fault w w1 r, db_Begin fault w = (w1, r) -> committed w1 = committed w.
Proof.
  intros fault w w1 r H. unfold db_Begin in H.
  destruct (fault (clock w)); inversion H; reflexivity.
Qed.

Lemma tx_Prepare_committed :
  forall fault w w1 r, tx_Prepare fault w = (w1, r) -> committed w1 = committed w.
Proof.
  intros fault w w1 r H. unfold tx_Prepare in H.
  destruct (fault (clock w)); inversion H; reflexivity.
Qed.

Lemma stmt_Close_committed :
  forall fault w w1 r, stmt_Close fault w = (w1, r) -> committed w1 = committed w.
Proof.
  intros fault w w1 r H. unfold stmt_Close in H.
  destruct (fault (clock w)); inversion H; reflexivity.
Qed.

Lemma stmt_Exec_committed :
  forall fault s tx w w1 r, stmt_Exec fault s tx w = (w1, r) -> committed w1 = committed w.
Proof.
  intros fault s tx w w1 r H. unfold stmt_Exec in H.
  destruct (fault (clock w)); [inversion H; reflexivity|].
  destruct (exec_stmt s tx). inversion H; reflexivity.
Qed.

Lemma exec_inserts_committed :
  forall fault pcid tsids tx w w1 r,
    exec_inserts fault pcid tsids tx w = (w1, r) ->
    committed w1 = committed w
    /\ (forall tx1, r = inl tx1 ->
          tx1 = fold_left (fun t tsid => fst (exec_stmt (InsertAssocDoNothing pcid tsid) t))
                          tsids tx).
Proof.
  intros fault pcid tsids. induction tsids as [|t ts IH]; intros tx w w1 r H.
  - cbn in H. inversion H; subst. split; [reflexivity|].
    intros tx1 Htx. inversion Htx. reflexivity.
  - cbn [exec_inserts] in H.
    destruct (stmt_Exec fault (InsertAssocDoNothing pcid t) tx w) as [wa [txa|e]] eqn:E.
    + pose proof (stmt_Exec_committed _ _ _ _ _ _ E) as Hc.
      apply stmt_Exec_inl in E. destruct E as [E _]. subst txa.
      apply IH in H. destruct H as [H1 H2]. split; [congruence|].
      intros tx1 Htx. cbn [fold_left]. apply H2. exact Htx.
    + inversion H; subst. split; [eapply stmt_Exec_committed; exact E|].
      intros; discriminate.
Qed.

Lemma tx_Commit_cases :
  forall fault tx w w1 r,
    tx_Commit fault tx w = (w1, r) ->
    (r = None /\ committed w1 = tx) \/ (exists e, r = Some e /\ committed w1 = committed w).
Proof.
  intros fault tx w w1 r H. unfold tx_Commit in H.
  destruct (fault (clock w)) as [e|]; inversion H; subst.
  - right. exists e. split; reflexivity.
  - left. split; reflexivity.
Qed.

#[local] Ltac nothing_committed H :=
  inversion H; subst; left;
  split; [cbn [tx_Rollback tick committed]; congruence|intros ? ?; discriminate].

(** Either nothing was committed and no value is returned, or the whole
    reconciliation was committed. *)
Lemma UpdatePlotConfiguration_commit_cases :
  forall (fault : nat -> option error) (pc : PlotConfiguration) (w w' : World)
         (r : result PlotConfiguration),
    UpdatePlotConfiguration fault pc w = (w', r) ->
    (committed w' = committed w /\ forall p, r <> Ok p)
    \/ committed w' = reconcile_tables pc (committed w).
Proof.
  intros fault pc w w' r H. unfold UpdatePlotConfiguration in H.
  destruct (db_Begin fault w) as [wa [tx|e]] eqn:E1;
    pose proof (db_Begin_committed _ _ _ _ E1) as C1; [|nothing_committed H].
  apply db_Begin_quiet in E1. destruct E1 as [_ Htx]. specialize (Htx tx eq_refl).
  destruct (tx_Prepare fault wa) as [wb [e|]] eqn:E2;
    apply tx_Prepare_committed in E2; [nothing_committed H|].
  destruct (sqlx_In (pc_ID pc) (pc_TimeseriesID pc)) as [args|e] eqn:E3;
    [|nothing_committed H].
  apply sqlx_In_inl in E3. subst args. cbn [hd tl] in H.
  destruct (tx_Prepare fault wb) as [wc [e|]] eqn:E4;
    apply tx_Prepare_committed in E4; [nothing_committed H|].
  destruct (tx_Prepare fault wc) as [wd [e|]] eqn:E5;
    apply tx_Prepare_committed in E5; [nothing_committed H|].
  destruct (stmt_Exec fault (UpdatePlotConfigurationStmt _ _ _ _ _) tx wd)
    as [we [tx1|e]] eqn:E6;
    pose proof (stmt_Exec_committed _ _ _ _ _ _ E6) as C6; [|nothing_committed H].
  apply stmt_Exec_inl in E6. destruct E6 as [E6 _].
  destruct (stmt_Exec fault (DeleteAssocNotIn _ _) tx1 we) as [wf [tx2|e]] eqn:E7;
    pose proof (stmt_Exec_committed _ _ _ _ _ _ E7) as C7; [|nothing_committed H].
  apply stmt_Exec_inl in E7. destruct E7 as [E7 _].
  destruct (exec_inserts fault (pc_ID pc) (pc_TimeseriesID pc) tx2 wf)
    as [wg [tx3|e]] eqn:E8;
    destruct (exec_inserts_committed _ _ _ _ _ _ _ E8) as [C8 Hins];
    [|nothing_committed H].
  specialize (Hins tx3 eq_refl).
  destruct (stmt_Close fault wg) as [wh [e|]] eqn:E9;
    apply stmt_Close_committed in E9; [nothing_committed H|].
  destruct (stmt_Close fault wh) as [wi [e|]] eqn:E10;
    apply stmt_Close_committed in E10; [nothing_committed H|].
  destruct (stmt_Close fault wi) as [wj [e|]] eqn:E11;
    apply stmt_Close_committed in E11; [nothing_committed H|].
  destruct (tx_Commit fault tx3 wj) as [wk [e|]] eqn:E12;
    destruct (tx_Commit_cases _ _ _ _ _ E12) as [[Hn C12]|[e' [Hs C12]]];
    try discriminate; [nothing_committed H|].
  apply GetPlotConfiguration_cases in H. destruct H as [Hc _].
  right. rewrite Hc, C12, Hins, E7, E6, Htx. reflexivity.
Qed.

(** X9.  [UpdatePlotConfiguration] never leaves a half-done reconciliation:
    whatever the driver does and whatever the call returns, the committed
    tables afterwards are either exactly the ones before the call or the
    ones before the call with the update, the delete and every insert
    applied; and when a value is returned it is the latter. *)
Theorem UpdatePlotConfiguration_all_or_nothing :
  forall (fault : nat -> option error) (pc : PlotConfiguration) (w w' : World)
         (r : result PlotConfiguration),
    UpdatePlotConfiguration fault pc w = (w', r) ->
    (committed w' = committed w \/ committed w' = reconcile_tables pc (committed w))
    /\ (forall p, r = Ok p -> committed w' = reconcile_tables pc (committed w)).
Proof.
  intros fault pc w w' r H.
  destruct (UpdatePlotConfiguration_commit_cases _ _ _ _ _ H) as [[Hsame Hno]|Hfull].
  - split; [left; exact Hsame|].
    intros p Hp. exfalso. exact (Hno p Hp).
  - split; [right; exact Hfull|].
    intros p _. exact Hfull.
Qed.

Lemma UpdatePlotConfiguration_all_or_nothing_witness :
  committed (fst (UpdatePlotConfiguration (fails_at 7 "pq: deadlock detected")
                    ex_pc ex_pc_world))
  = committed ex_pc_world
  \/ committed (fst (UpdatePlotConfiguration (fails_at 7 "pq: deadlock detected")
                       ex_pc ex_pc_world))
     = reconcile_tables ex_pc (committed ex_pc_world).
Proof.
  exact (proj1 (UpdatePlotConfiguration_all_or_nothing
                  (fails_at 7 "pq: deadlock detected") ex_pc ex_pc_world _ _ eq_refl)).
Defined.

(** Driver calls that do not fail. *)

Lemma no_fault_at :
  forall fault c n d, no_fault fault c n -> c <= d -> d < c + n -> fault d = None.
Proof.
  intros fault c n d H H1 H2. replace d with (c + (d - c)) by lia. apply H. lia.
Qed.

Lemma db_Begin_run :
  forall fault w, fault (clock w) = None ->
    db_Begin fault w = (tick w (EvBegin true), inl (committed w)).
Proof. intros fault w H. unfold db_Begin. rewrite H. reflexivity. Qed.

Lemma tx_Prepare_run :
  forall fault w, fault (clock w) = None ->
    tx_Prepare fault w = (tick w (EvPrepare true), None).
Proof. intros fault w H. unfold tx_Prepare. rewrite H. reflexivity. Qed.

Lemma stmt_Close_run :
  forall fault w, fault (clock w) = None ->
    stmt_Close fault w = (tick w (EvClose true), None).
Proof. intros fault w H. unfold stmt_Close. rewrite H. reflexivity. Qed.

Lemma stmt_Exec_run :
  forall fault s tx w, fault (clock w) = None ->
    stmt_Exec fault s tx w
    = (tick w (EvExec s (Some (snd (exec_stmt s tx)))), inl (fst (exec_stmt s tx))).
Proof.
  intros fault s tx w H. unfold stmt_Exec. rewrite H.
  destruct (exec_stmt s tx). reflexivity.
Qed.

Lemma tx_Commit_run :
  forall fault tx w, fault (clock w) = None ->
    tx_Commit fault tx w = (mkWorld tx (S (clock w)) (trace w ++ [EvCommit true]), None).
Proof. intros fault tx w H. unfold tx_Commit. rewrite H. reflexivity. Qed.

Lemma exec_inserts_run :
  forall fault pcid tsids tx w,
    no_fault fault (clock w) (List.length tsids) ->
    exists w1,
      exec_inserts fault pcid tsids tx w
      = (w1, inl (fold_left (fun t tsid => fst (exec_stmt (InsertAssocDoNothing pcid tsid) t))
                            tsids tx))
      /\ clock w1 = clock w + List.length tsids
      /\ committed w1 = committed w.
Proof.
  intros fault pcid tsids. induction tsids as [|t ts IH]; intros tx w Hnf.
  - exists w. cbn. rewrite Nat.add_0_r. repeat split.
  - cbn [exec_inserts]. rewrite stmt_Exec_run by (apply (no_fault_head _ _ _ Hnf)).
    destruct (IH (fst (exec_stmt (InsertAssocDoNothing pcid t) tx))
                 (tick w (EvExec (InsertAssocDoNothing pcid t)
                            (Some (snd (exec_stmt (InsertAssocDoNothing pcid t) tx))))))
      as [w1 [E [Hck Hcm]]].
    + cbn [tick clock]. apply no_fault_tail. exact Hnf.
    + exists w1. split; [exact E|]. cbn [tick clock committed] in Hck, Hcm.
      cbn [List.length]. split; [lia|exact Hcm].
Qed.

(** X10.  An error from [UpdatePlotConfiguration] does not mean that
    nothing was written: when every driver call up to and including the
    commit succeeds and the query that re-reads the plot configuration
    fails, the caller gets that error although the whole reconciliation is
    committed. *)
Theorem UpdatePlotConfiguration_error_after_commit :
  forall (fault : nat -> option error) (pc : PlotConfiguration) (w : World) (e : error),
    pc_TimeseriesID pc <> [] ->
    no_fault fault (clock w) (10 + List.length (pc_TimeseriesID pc)) ->
    fault (clock w + (10 + List.length (pc_TimeseriesID pc))) = Some e ->
    snd (UpdatePlotConfiguration fault pc w) = Err e
    /\ committed (fst (UpdatePlotConfiguration fault pc w))
       = reconcile_tables pc (committed w).
Proof.
  intros fault pc w e Hne Hnf He. unfold UpdatePlotConfiguration.
  rewrite db_Begin_run by (apply (no_fault_at _ _ _ _ Hnf); lia).
  rewrite tx_Prepare_run by (apply (no_fault_at _ _ _ _ Hnf); cbn [tick clock]; lia).
  destruct (sqlx_In (pc_ID pc) (pc_TimeseriesID pc)) as [args|e0] eqn:E3.
  2:{ unfold sqlx_In in E3. destruct (pc_TimeseriesID pc); [contradiction|discriminate]. }
  apply sqlx_In_inl in E3. subst args. cbn [hd tl].
  rewrite tx_Prepare_run by (apply (no_fault_at _ _ _ _ Hnf); cbn [tick clock]; lia).
  rewrite tx_Prepare_run by (apply (no_fault_at _ _ _ _ Hnf); cbn [tick clock]; lia).
  rewrite stmt_Exec_run by (apply (no_fault_at _ _ _ _ Hnf); cbn [tick clock]; lia).
  rewrite stmt_Exec_run by (apply (no_fault_at _ _ _ _ Hnf); cbn [tick clock]; lia).
  match goal with
  | |- context [exec_inserts fault ?a ?b ?tx ?u] =>
      destruct (exec_inserts_run fault a b tx u) as [w1 [E [Hck Hcm]]];
        [intros i Hi; apply (no_fault_at _ _ _ _ Hnf); cbn [tick clock]; lia|]
  end.
  rewrite E. cbn [tick clock committed] in Hck, Hcm.
  rewrite stmt_Close_run by (apply (no_fault_at _ _ _ _ Hnf); lia).
  rewrite stmt_Close_run by (apply (no_fault_at _ _ _ _ Hnf); cbn [tick clock]; lia).
  rewrite stmt_Close_run by (apply (no_fault_at _ _ _ _ Hnf); cbn [tick clock]; lia).
  rewrite tx_Commit_run by (apply (no_fault_at _ _ _ _ Hnf); cbn [tick clock]; lia).
  unfold GetPlotConfiguration, db_Query. cbn [tick clock committed trace].
  replace (S (S (S (S (clock w1)))))
    with (clock w + (10 + List.length (pc_TimeseriesID pc))) by lia.
  rewrite He. cbn [fst snd committed]. split; reflexivity.
Qed.

Lemma UpdatePlotConfiguration_error_after_commit_witness :
  snd (UpdatePlotConfiguration (fails_at 12 "driver: bad connection") ex_pc ex_pc_world)
  = Err "driver: bad connection"
  /\ committed (fst (UpdatePlotConfiguration (fails_at 12 "driver: bad connection")
                       ex_pc ex_pc_world))
     = reconcile_tables ex_pc (committed ex_pc_world).
Proof.
  apply (UpdatePlotConfiguration_error_after_commit
           (fails_at 12 "driver: bad connection") ex_pc ex_pc_world
           "driver: bad connection"%string).
  - discriminate.
  - intros i Hi. cbn in Hi. unfold fails_at.
    destruct (Nat.eqb (clock ex_pc_world + i) 12) eqn:E; [|reflexivity].
    apply Nat.eqb_eq in E. cbn in E. lia.
  - reflexivity.
Defined.

Lemma mem_uuid_true_In : forall t l, mem_uuid t l = true -> In t l.
Proof.
  intros t l H. unfold mem_uuid in H. apply existsb_exists in H.
  destruct H as [y [Hy E]]. apply N.eqb_eq in E. subst y. exact Hy.
Qed.

Lemma pair_eqb_true : forall a b, pair_eqb a b = true -> a = b.
Proof.
  intros [a1 a2] [b1 b2] H. unfold pair_eqb in H. cbn in H.
  apply andb_true_iff in H. destruct H as [H1 H2].
  apply N.eqb_eq in H1. apply N.eqb_eq in H2. congruence.
Qed.

Lemma reconciled_owner_rows :
  forall pcid tsids rows,
    reconciled pcid tsids rows ->
    forall t, In (pcid, t) rows <-> In t tsids.
Proof.
  intros pcid tsids rows [R1 R2] t. split.
  - intros Hin. apply mem_uuid_true_In. apply (R1 (pcid, t) Hin). reflexivity.
  - intros Hin. specialize (R2 t Hin). apply existsb_exists in R2.
    destruct R2 as [a [Ha E]]. apply pair_eqb_true in E. subst a. exact Ha.
Qed.

Lemma filter_filter_implied :
  forall (A : Type) (f g : A -> bool) (l : list A),
    (forall a, f a = true -> g a = true) ->
    filter f (filter g l) = filter f l.
Proof.
  intros A f g l H. induction l as [|a l IH]; [reflexivity|].
  cbn [filter]. destruct (g a) eqn:Eg.
  - cbn [filter]. rewrite IH. reflexivity.
  - destruct (f a) eqn:Ef; [rewrite (H a Ef) in Eg; discriminate|exact IH].
Qed.

Lemma insert_all_cons :
  forall pcid t ts rows,
    insert_all pcid (t :: ts) rows
    = insert_all pcid ts (fst (insert_assoc_do_nothing pcid t rows)).
Proof. reflexivity. Qed.

(** The rows of the other owners go through the delete and the inserts. *)
Lemma reconcile_other_owners :
  forall pcid tsids rows,
    filter (fun a => negb (fst a =? pcid)%N)
           (insert_all pcid tsids (fst (delete_assoc_not_in pcid tsids rows)))
    = filter (fun a => negb (fst a =? pcid)%N) rows.
Proof.
  intros pcid tsids rows.
  assert (Hins : forall ts rs,
             filter (fun a => negb (fst a =? pcid)%N) (insert_all pcid ts rs)
             = filter (fun a => negb (fst a =? pcid)%N) rs).
  { induction ts as [|t ts IH]; intros rs; [reflexivity|].
    rewrite insert_all_cons, IH. unfold insert_assoc_do_nothing.
    match goal with
    | |- context [existsb ?f ?l] => destruct (existsb f l)
    end; cbn [fst]; [reflexivity|].
    rewrite filter_app. cbn [filter fst]. rewrite N.eqb_refl. cbn [negb].
    apply app_nil_r. }
  rewrite Hins. unfold delete_assoc_not_in. cbn [fst].
  apply filter_filter_implied. intros a Ha.
  apply negb_true_iff in Ha. apply negb_true_iff. apply andb_false_iff.
  left. exact Ha.
Qed.

Lemma insert_all_unique :
  forall pcid ts rows,
    plot_configuration_unique_timeseries rows ->
    plot_configuration_unique_timeseries (insert_all pcid ts rows).
Proof.
  intros pcid ts. induction ts as [|t ts IH]; intros rows Hu; [exact Hu|].
  rewrite insert_all_cons. apply IH.
  apply (reconcile_statements_keep_unique pcid [] t rows Hu).
Qed.

Lemma reconcile_tables_plot_configuration :
  forall pc tb,
    plot_configuration (reconcile_tables pc tb)
    = fst (update_plot_configuration (pc_ProjectID pc) (pc_ID pc) (pc_Name pc)
             (Updater (pc_Audit pc)) (UpdateDate (pc_Audit pc)) (plot_configuration tb)).
Proof.
  intros pc tb. unfold reconcile_tables.
  assert (Hins : forall ts t,
             plot_configuration
               (fold_left (fun t tsid => fst (exec_stmt (InsertAssocDoNothing (pc_ID pc) tsid) t))
                          ts t)
             = plot_configuration t).
  { induction ts as [|x ts IH]; intros t; [reflexivity|].
    cbn [fold_left]. rewrite IH. cbn [exec_stmt].
    destruct (insert_assoc_do_nothing _ _ _). reflexivity. }
  rewrite Hins. cbn [exec_stmt].
  destruct (update_plot_configuration _ _ _ _ _ _) as [rows n]. cbn [fst].
  destruct (delete_assoc_not_in _ _ _). reflexivity.
Qed.

(** A returned value was read back after the commit. *)
Lemma UpdatePlotConfiguration_ok_reread :
  forall fault pc w w' p,
    UpdatePlotConfiguration fault pc w = (w', Ok p) ->
    exists wk,
      committed wk = reconcile_tables pc (committed w)
      /\ GetPlotConfiguration fault (pc_ProjectID pc) (pc_ID pc) wk = (w', Ok p).
Proof.
  intros fault pc w w' p H.
  assert (Hfull : committed w' = reconcile_tables pc (committed w)).
  { destruct (UpdatePlotConfiguration_commit_cases _ _ _ _ _ H) as [[_ Hno]|Hfull];
      [exfalso; exact (Hno p eq_refl)|exact Hfull]. }
  unfold UpdatePlotConfiguration in H.
  destruct (db_Begin fault w) as [wa [tx|e]]; [|discriminate].
  destruct (tx_Prepare fault wa) as [wb [e|]]; [discriminate|].
  destruct (sqlx_In (pc_ID pc) (pc_TimeseriesID pc)) as [args|e]; [|discriminate].
  destruct (tx_Prepare fault wb) as [wc [e|]]; [discriminate|].
  destruct (tx_Prepare fault wc) as [wd [e|]]; [discriminate|].
  destruct (stmt_Exec fault (UpdatePlotConfigurationStmt _ _ _ _ _) tx wd)
    as [we [tx1|e]]; [|discriminate].
  destruct (stmt_Exec fault (DeleteAssocNotIn _ _) tx1 we) as [wf [tx2|e]]; [|discriminate].
  destruct (exec_inserts fault (pc_ID pc) (pc_TimeseriesID pc) tx2 wf)
    as [wg [tx3|e]]; [|discriminate].
  destruct (stmt_Close fault wg) as [wh [e|]]; [discriminate|].
  destruct (stmt_Close fault wh) as [wi [e|]]; [discriminate|].
  destruct (stmt_Close fault wi) as [wj [e|]]; [discriminate|].
  destruct (tx_Commit fault tx3 wj) as [wk [e|]]; [discriminate|].
  exists wk. split; [|exact H].
  apply GetPlotConfiguration_cases in H. destruct H as [Hc _]. congruence.
Qed.

(** X11.  What a successful [UpdatePlotConfiguration] leaves and returns:
    the committed associations of the plot configuration are exactly the
    desired timeseries, the associations of every other plot configuration
    are untouched, constraint [plot_configuration_unique_timeseries] is
    kept, and the value returned (read back through the view) has the
    requested identifier and project, the new name, and exactly the desired
    timeseries. *)
Theorem UpdatePlotConfiguration_success_postcondition :
  forall (fault : nat -> option error) (pc p : PlotConfiguration) (w w' : World),
    UpdatePlotConfiguration fault pc w = (w', Ok p) ->
    (forall t, In (pc_ID pc, t) (plot_configuration_timeseries (committed w'))
               <-> In t (pc_TimeseriesID pc))
    /\ filter (fun a => negb (fst a =? pc_ID pc)%N)
              (plot_configuration_timeseries (committed w'))
       = filter (fun a => negb (fst a =? pc_ID pc)%N)
                (plot_configuration_timeseries (committed w))
    /\ (plot_configuration_unique_timeseries (plot_configuration_timeseries (committed w)) ->
        plot_configuration_unique_timeseries (plot_configuration_timeseries (committed w')))
    /\ pc_ID p = pc_ID pc
    /\ pc_ProjectID p = pc_ProjectID pc
    /\ pc_Name p = pc_Name pc
    /\ (forall t, In t (pc_TimeseriesID p) <-> In t (pc_TimeseriesID pc)).
Proof.
  intros fault pc p w w' H.
  pose proof (UpdatePlotConfiguration_ok_effect _ _ _ _ _ H) as Heff.
  assert (Hown : forall t, In (pc_ID pc, t) (plot_configuration_timeseries (committed w'))
                           <-> In t (pc_TimeseriesID pc)).
  { apply reconciled_owner_rows. rewrite Heff. apply delete_then_insert_reconciled. }
  split; [exact Hown|]. split.
  { rewrite Heff. apply reconcile_other_owners. }
  split.
  { intros Hu. rewrite Heff. apply insert_all_unique.
    apply (reconcile_statements_keep_unique (pc_ID pc) (pc_TimeseriesID pc) 0%N _ Hu). }
  destruct (UpdatePlotConfiguration_ok_reread _ _ _ _ _ H) as [wk [Hk Hget]].
  pose proof (GetPlotConfiguration_cases _ _ _ _ _ _ Hget) as [Hc Hok].
  destruct (Hok p eq_refl) as [Hhd [Hid Hprj]].
  split; [exact Hid|]. split; [exact Hprj|].
  assert (Hin : In p (v_plot_configuration (committed wk))).
  { destruct (getPlotConfiguration_rows (pc_ProjectID pc) (pc_ID pc) (committed wk))
      as [|q qs] eqn:E; [discriminate|].
    inversion Hhd; subst q.
    assert (G : In p (getPlotConfiguration_rows (pc_ProjectID pc) (pc_ID pc) (committed wk)))
      by (rewrite E; left; reflexivity).
    unfold getPlotConfiguration_rows in G. apply filter_In in G. tauto. }
  destruct (v_plot_configuration_ids _ _ Hin) as [r [Hr [Hrid [Hrprj [Hname Hts]]]]].
  split.
  - rewrite Hname. rewrite Hk, reconcile_tables_plot_configuration in Hr.
    unfold update_plot_configuration in Hr. cbn [fst] in Hr.
    apply in_map_iff in Hr. destruct Hr as [r0 [Hr0 _]].
    destruct ((pcr_project_id r0 =? pc_ProjectID pc)%N && (pcr_id r0 =? pc_ID pc)%N) eqn:Ehit.
    + subst r. reflexivity.
    + subst r0. exfalso.
      rewrite <- Hrid, <- Hrprj, Hid, Hprj, !N.eqb_refl in Ehit. discriminate.
  - intros t. rewrite Hts, <- Hrid, Hid. rewrite <- Hown, <- Hc. split.
    + intros Ht. apply in_map_iff in Ht. destruct Ht as [[o t'] [Ht' Ha]].
      cbn in Ht'. subst t'. apply filter_In in Ha. destruct Ha as [Ha Ho].
      cbn in Ho. apply N.eqb_eq in Ho. subst o. exact Ha.
    + intros Ha. apply in_map_iff. exists (pc_ID pc, t). split; [reflexivity|].
      apply filter_In. split; [exact Ha|]. cbn. apply N.eqb_refl.
Qed.

Lemma UpdatePlotConfiguration_success_postcondition_witness :
  (forall t, In (pc_ID ex_pc, t)
                (plot_configuration_timeseries
                   (committed (fst (UpdatePlotConfiguration never_fails ex_pc ex_pc_world))))
             <-> In t (pc_TimeseriesID ex_pc))
  /\ filter (fun a => negb (fst a =? pc_ID ex_pc)%N)
            (plot_configuration_timeseries
               (committed (fst (UpdatePlotConfiguration never_fails ex_pc ex_pc_world))))
     = filter (fun a => negb (fst a =? pc_ID ex_pc)%N)
              (plot_configuration_timeseries (committed ex_pc_world)).
Proof.
  pose proof (UpdatePlotConfiguration_success_postcondition
                never_fails ex_pc _ ex_pc_world _ eq_refl) as [H1 [H2 _]].
  split; [exact H1|exact H2].
Defined.

(** The loop run for [k] rows: when the first [k] rows are fetched and
    scanned without failure and either they were all the rows or the next
    [rows.Next()] fails, the loop returns what it was given followed by
    those [k] rows, with no error. *)
Lemma factory_loop_prefix :
  forall fault (A : Type) (k : nat) (rows pp : list A) w,
    k <= List.length rows ->
    no_fault fault (clock w) (2 * k) ->
    (k = List.length rows \/ fault (clock w + 2 * k) <> None) ->
    snd (factory_loop fault rows pp w) = (pp ++ firstn k rows, None).
Proof.
  intros fault A k. induction k as [|k IH]; intros rows pp w Hk Hnf Hend.
  - cbn [firstn]. rewrite app_nil_r.
    destruct rows as [|r rs]; cbn [factory_loop]; unfold rows_Next;
      destruct (fault (clock w)) as [e|] eqn:E0; try reflexivity.
    exfalso. destruct Hend as [Hend|Hend]; [discriminate|].
    apply Hend. rewrite Nat.mul_0_r, Nat.add_0_r. exact E0.
  - destruct rows as [|r rs]; [cbn [List.length] in Hk; lia|].
    cbn [factory_loop]. unfold rows_Next.
    rewrite (no_fault_at fault (clock w) (2 * S k) (clock w) Hnf) by lia.
    unfold rows_Scan. cbn [tick clock].
    rewrite (no_fault_at fault (clock w) (2 * S k) (S (clock w)) Hnf) by lia.
    rewrite IH.
    + cbn [firstn]. rewrite <- app_assoc. reflexivity.
    + cbn [List.length] in Hk. lia.
    + cbn [tick clock]. intros i Hi.
      apply (no_fault_at fault (clock w) (2 * S k) _ Hnf); lia.
    + cbn [tick clock]. destruct Hend as [Hend|Hend].
      * left. cbn [List.length] in Hend. lia.
      * right. replace (S (S (clock w)) + 2 * k) with (clock w + 2 * S k) by lia.
        exact Hend.
Qed.

(** X12.  The list functions of plot configurations, which send queries
    without [ORDER BY].  [ListPlotConfigurations] never changes the
    committed tables and returns either, with no error, the first rows the
    server sent (each a plot configuration of the project) or an empty slice
    with the error of the query or of a scan.  It returns every plot
    configuration of the project, in the server's order, when no driver call
    fails; but when [rows.Next()] fails after [k] rows it returns those [k]
    rows with no error, as if they were all, because [PlotConfigFactory]
    never reads [rows.Err()].  [ListPlotConfigurationSlugs], which goes
    through [db.Select], returns the slugs of all the rows of
    [plot_configuration], in the server's order, or an empty slice with the
    error. *)
Theorem plot_configuration_lists_outcomes :
  forall (fault : nat -> option error)
         (row_order : list PlotConfiguration -> list PlotConfiguration)
         (slug_order : list string -> list string)
         (projectID : UUID) (w : World),
    arranges row_order ->
    arranges slug_order ->
    (let out := ListPlotConfigurations fault row_order projectID w in
     let rows := listPlotConfigurations_rows projectID (committed w) in
     committed (fst out) = committed w
     /\ ((exists k, snd out = (firstn k (row_order rows), None))
         \/ exists e, snd out = ([], Some e))
     /\ (forall p, In p (fst (snd out)) -> In p rows /\ pc_ProjectID p = projectID)
     /\ (no_fault fault (clock w) (2 + 2 * List.length rows) ->
         snd (snd out) = None /\ Permutation (fst (snd out)) rows)
     /\ (forall k, k < List.length rows ->
                   no_fault fault (clock w) (1 + 2 * k) ->
                   fault (clock w + (1 + 2 * k)) <> None ->
                   snd out = (firstn k (row_order rows), None)))
    /\ (let out := ListPlotConfigurationSlugs fault slug_order w in
        committed (fst out) = committed w
        /\ ((snd (snd out) = None
             /\ Permutation (fst (snd out)) (map pcr_slug (plot_configuration (committed w))))
            \/ exists e, snd out = ([], Some e))).
Proof.
  intros fault row_order slug_order projectID w Hro Hso. split.
  - cbv zeta.
    assert (Hlen : List.length (row_order (listPlotConfigurations_rows projectID (committed w)))
                   = List.length (listPlotConfigurations_rows projectID (committed w))).
    { apply Permutation_length. apply Hro. }
    assert (Hrows : forall p k,
              In p (firstn k (row_order (listPlotConfigurations_rows projectID (committed w)))) ->
              In p (listPlotConfigurations_rows projectID (committed w))
              /\ pc_ProjectID p = projectID).
    { intros p k Hp.
      assert (Hin : In p (listPlotConfigurations_rows projectID (committed w))).
      { apply (Permutation_in p (Hro _)).
        rewrite <- (firstn_skipn k (row_order _)). apply in_or_app. left. exact Hp. }
      split; [exact Hin|]. unfold listPlotConfigurations_rows in Hin.
      apply filter_In in Hin. destruct Hin as [_ Hin]. apply N.eqb_eq. exact Hin. }
    unfold ListPlotConfigurations, db_Query.
    destruct (fault (clock w)) as [e|] eqn:Ef.
    + cbn [fst snd]. split; [reflexivity|]. split; [right; exists e; reflexivity|].
      split; [intros p []|]. split.
      * intros Hnf. rewrite (no_fault_at fault _ _ (clock w) Hnf) in Ef by lia.
        discriminate.
      * intros k _ Hnf _. rewrite (no_fault_at fault _ _ (clock w) Hnf) in Ef by lia.
        discriminate.
    + unfold PlotConfigFactory.
      remember (row_order (listPlotConfigurations_rows projectID (committed w))) as R
        eqn:ER.
      pose proof (factory_loop_cases fault PlotConfiguration R []
                    (tick w (EvQuery true))) as Hcases.
      pose proof (factory_loop_prefix fault PlotConfiguration (List.length R) R []
                    (tick w (EvQuery true)) (le_n _)) as Hall.
      pose proof (fun j => factory_loop_prefix fault PlotConfiguration j R []
                             (tick w (EvQuery true))) as Hpart.
      destruct (factory_loop fault R [] (tick w (EvQuery true))) as [wf [pp oe]].
      cbn [fst snd app tick clock committed] in *.
      rewrite firstn_all in Hall.
      split; [|split; [|split; [|split]]].
      * destruct Hcases as [[w' [k [H Hc]]]|[w' [e [H Hc]]]]; inversion H; subst; exact Hc.
      * destruct Hcases as [[w' [k [H Hc]]]|[w' [e [H Hc]]]]; inversion H.
        -- left. exists k. reflexivity.
        -- right. exists e. reflexivity.
      * intros p Hp.
        destruct Hcases as [[w' [k [H Hc]]]|[w' [e [H Hc]]]]; inversion H; subst pp.
        -- exact (Hrows p k Hp).
        -- destruct Hp.
      * intros Hnf.
        assert (E : (pp, oe) = (R, None)).
        { apply Hall; [|left; reflexivity].
          intros i Hi. apply (no_fault_at fault _ _ _ Hnf); lia. }
        inversion E. split; [reflexivity|]. rewrite ER. apply Hro.
      * intros j Hj Hnf Hfail. apply Hpart.
        -- lia.
        -- intros i Hi. apply (no_fault_at fault _ _ _ Hnf); lia.
        -- right. replace (S (clock w) + 2 * j) with (clock w + (1 + 2 * j)) by lia.
           exact Hfail.
  - cbv zeta. unfold ListPlotConfigurationSlugs, db_Query.
    destruct (fault (clock w)) as [e|]; cbn [fst snd].
    + split; [reflexivity|]. right. exists e. reflexivity.
    + split; [reflexivity|]. left. split; [reflexivity|apply Hso].
Qed.

(** Project 3 has two plot configurations; with the server sending the
    later one first and [rows.Next()] failing after the first row, the list
    returned holds one plot configuration and no error. *)
Lemma plot_configuration_lists_outcomes_witness :
  snd (ListPlotConfigurations (fails_at 3 "driver: bad connection")
         (@rev PlotConfiguration) 3 ex_pc_world)
  = (firstn 1 (rev (listPlotConfigurations_rows 3 (committed ex_pc_world))), None).
Proof.
  refine (proj2 (proj2 (proj2 (proj2 (proj1
           (plot_configuration_lists_outcomes (fails_at 3 "driver: bad connection")
              (@rev PlotConfiguration) (@rev string) 3%N ex_pc_world _ _)))))
           1 _ _ _).
  - intros l. apply Permutation_sym, Permutation_rev.
  - intros l. apply Permutation_sym, Permutation_rev.
  - cbn. lia.
  - intros i Hi. destruct i as [|[|[|i]]]; try reflexivity. lia.
  - cbn. discriminate.
Defined.

(** ** [projectInstrumentNamesMap] *)

Section AssocLists.

Variables (K V : Type) (eqb : K -> K -> bool).
Hypothesis eqb_spec : forall a b, eqb a b = true <-> a = b.

Lemma assoc_get_set_same :
  forall k v (m : list (K * V)), assoc_get eqb k (assoc_set eqb k v m) = Some v.
Proof.
  intros k v m. induction m as [|[k' v'] m IH]; cbn.
  - rewrite (proj2 (eqb_spec k k) eq_refl). reflexivity.
  - destruct (eqb k' k) eqn:E; cbn.
    + rewrite (proj2 (eqb_spec k k) eq_refl). reflexivity.
    + rewrite E. exact IH.
Qed.

Lemma assoc_get_set_other :
  forall k k' v (m : list (K * V)),
    k <> k' -> assoc_get eqb k' (assoc_set eqb k v m) = assoc_get eqb k' m.
Proof.
  intros k k' v m Hne. induction m as [|[k0 v0] m IH]; cbn.
  - destruct (eqb k k') eqn:E; [apply eqb_spec in E; contradiction|reflexivity].
  - destruct (eqb k0 k) eqn:E; cbn.
    + apply eqb_spec in E. subst k0.
      destruct (eqb k k') eqn:E'; [apply eqb_spec in E'; contradiction|reflexivity].
    + destruct (eqb k0 k'); [reflexivity|exact IH].
Qed.

End AssocLists.

Lemma names_lookup_set :
  forall (m : NamesMap) (p p' : UUID) (inner : list (string * bool)) (s : string),
    names_lookup (assoc_set N.eqb p inner m) p' s
    = if (p =? p')%N
      then match assoc_get String.eqb s inner with
           | Some b => b
           | None => false
           end
      else names_lookup m p' s.
Proof.
  intros m p p' inner s. unfold names_lookup.
  destruct (p =? p')%N eqn:E.
  - apply N.eqb_eq in E. subst p'.
    rewrite (assoc_get_set_same _ _ N.eqb N.eqb_eq). reflexivity.
  - apply N.eqb_neq in E.
    rewrite (assoc_get_set_other _ _ N.eqb N.eqb_eq) by exact E. reflexivity.
Qed.

Lemma insert_by_project_In :
  forall x y l, In y (insert_by_project x l) <-> y = x \/ In y l.
Proof.
  intros x y l. induction l as [|z zs IH]; simpl.
  - intuition.
  - match goal with
    | |- context [if ?c then _ else _] => destruct c
    end; simpl; intuition.
Qed.

Lemma order_by_project_id_In :
  forall y l, In y (order_by_project_id l) <-> In y l.
Proof.
  intros y l. induction l as [|x xs IH]; simpl.
  - tauto.
  - rewrite insert_by_project_In, IH. intuition.
Qed.

Lemma insert_by_project_sorted :
  forall x l,
    StronglySorted (fun a b => (fst a <= fst b)%N) l ->
    StronglySorted (fun a b => (fst a <= fst b)%N) (insert_by_project x l).
Proof.
  intros x l Hs. unfold UUID in *. induction Hs as [|y ys Hys IH Hall]; simpl.
  - constructor; constructor.
  - match goal with
    | |- context [if ?c then _ else _] => destruct c eqn:E
    end.
    + apply N.leb_le in E. constructor.
      * constructor; assumption.
      * constructor; [exact E|].
        eapply Forall_impl; [|exact Hall]. simpl. intros z Hz.
        eapply N.le_trans; [exact E|exact Hz].
    + apply N.leb_gt in E. constructor.
      * exact IH.
      * apply Forall_forall. intros z Hz. apply insert_by_project_In in Hz.
        destruct Hz as [Hz|Hz]; [subst z; apply N.lt_le_incl; exact E|].
        rewrite Forall_forall in Hall. apply Hall. exact Hz.
Qed.

Lemma order_by_project_id_sorted :
  forall l, StronglySorted (fun a b => (fst a <= fst b)%N) (order_by_project_id l).
Proof.
  induction l as [|x l IH]; simpl.
  - constructor.
  - apply insert_by_project_sorted. exact IH.
Qed.

Section NamesLoop.

Variable strings_ToUpper : string -> string.

(** The loop on rows grouped by ascending project identifier, none of them
    the zero UUID: it ends without panic, and the map then holds exactly the
    upper-case names of the rows seen. *)
Lemma names_loop_spec :
  forall todo done (m : NamesMap) (cur : UUID),
    StronglySorted (fun a b => (fst a <= fst b)%N) todo ->
    (forall d, In d done -> (fst d <= cur)%N) ->
    (forall t, In t todo -> (cur <= fst t)%N) ->
    (forall t, In t todo -> fst t <> 0%N) ->
    ((done = [] /\ cur = 0%N /\ m = [])
     \/ exists inner, assoc_get N.eqb cur m = Some inner) ->
    (forall p s, names_lookup m p s = true <-> has_name strings_ToUpper done p s) ->
    exists m',
      names_loop strings_ToUpper todo m cur = Ok m'
      /\ forall p s, names_lookup m' p s = true
                     <-> has_name strings_ToUpper (done ++ todo) p s.
Proof.
  unfold UUID in *.
  induction todo as [|[p name] rest IH]; intros done m cur Hs Hdone Htodo Hnz Hvalid Hm.
  - exists m. split; [reflexivity|]. rewrite app_nil_r. exact Hm.
  - inversion Hs as [|x xs Hrest Hall]. subst.
    assert (Hp0 : p <> 0%N) by (apply (Hnz (p, name)); left; reflexivity).
    assert (Hcp : (cur <= p)%N) by (apply (Htodo (p, name)); left; reflexivity).
    cbn [names_loop fst snd].
    destruct (p =? cur)%N eqn:E; cbn [negb].
    + (* same project as the previous row *)
      apply N.eqb_eq in E. subst cur.
      destruct Hvalid as [[_ [Hz _]]|[inner Hinner]]; [contradiction|].
      rewrite Hinner.
      replace (done ++ (p, name) :: rest) with ((done ++ [(p, name)]) ++ rest)
        by (rewrite <- app_assoc; reflexivity).
      apply IH.
      * exact Hrest.
      * intros d Hd. apply in_app_or in Hd. destruct Hd as [Hd|[Hd|[]]].
        -- apply Hdone. exact Hd.
        -- subst d. cbn. lia.
      * intros t Ht. rewrite Forall_forall in Hall. apply (Hall t Ht).
      * intros t Ht. apply Hnz. right. exact Ht.
      * right. rewrite (assoc_get_set_same _ _ N.eqb N.eqb_eq). eexists. reflexivity.
      * intros p' s. rewrite names_lookup_set.
        destruct (p =? p')%N eqn:E'.
        -- apply N.eqb_eq in E'. subst p'.
           destruct (String.eqb (strings_ToUpper name) s) eqn:Es.
           ++ apply String.eqb_eq in Es. subst s.
              rewrite (assoc_get_set_same _ _ String.eqb String.eqb_eq).
              split; [intros _|reflexivity].
              exists name. split; [apply in_or_app; right; left; reflexivity|reflexivity].
           ++ apply String.eqb_neq in Es.
              rewrite (assoc_get_set_other _ _ String.eqb String.eqb_eq) by exact Es.
              specialize (Hm p s). unfold names_lookup in Hm. rewrite Hinner in Hm.
              rewrite Hm. split.
              ** intros [nm [Hin Hup]]. exists nm. split; [apply in_or_app; left; exact Hin|exact Hup].
              ** intros [nm [Hin Hup]]. apply in_app_or in Hin.
                 destruct Hin as [Hin|[Hin|[]]]; [exists nm; split; assumption|].
                 inversion Hin; subst nm. contradiction.
        -- apply N.eqb_neq in E'. rewrite Hm. split.
           ++ intros [nm [Hin Hup]]. exists nm. split; [apply in_or_app; left; exact Hin|exact Hup].
           ++ intros [nm [Hin Hup]]. apply in_app_or in Hin.
              destruct Hin as [Hin|[Hin|[]]]; [exists nm; split; assumption|].
              inversion Hin; subst. contradiction.
    + (* a new project *)
      apply N.eqb_neq in E.
      rewrite (assoc_get_set_same _ _ N.eqb N.eqb_eq).
      replace (done ++ (p, name) :: rest) with ((done ++ [(p, name)]) ++ rest)
        by (rewrite <- app_assoc; reflexivity).
      apply IH.
      * exact Hrest.
      * intros d Hd. apply in_app_or in Hd. destruct Hd as [Hd|[Hd|[]]].
        -- specialize (Hdone d Hd). lia.
        -- subst d. cbn. lia.
      * intros t Ht. rewrite Forall_forall in Hall. apply (Hall t Ht).
      * intros t Ht. apply Hnz. right. exact Ht.
      * right. rewrite (assoc_get_set_same _ _ N.eqb N.eqb_eq). eexists. reflexivity.
      * intros p' s. rewrite names_lookup_set.
        destruct (p =? p')%N eqn:E'.
        -- apply N.eqb_eq in E'. subst p'. cbn [assoc_set assoc_get].
           destruct (String.eqb (strings_ToUpper name) s) eqn:Es.
           ++ apply String.eqb_eq in Es. split; [intros _|reflexivity].
              exists name. split; [apply in_or_app; right; left; reflexivity|exact Es].
           ++ apply String.eqb_neq in Es. split; [discriminate|].
              intros [nm [Hin Hup]]. apply in_app_or in Hin.
              destruct Hin as [Hin|[Hin|[]]].
              ** specialize (Hdone (p, nm) Hin). cbn in Hdone. exfalso. lia.
              ** inversion Hin; subst nm. contradiction.
        -- apply N.eqb_neq in E'. rewrite names_lookup_set.
           destruct (p =? p')%N eqn:E''; [apply N.eqb_eq in E''; contradiction|].
           rewrite Hm. split.
           ++ intros [nm [Hin Hup]]. exists nm. split; [apply in_or_app; left; exact Hin|exact Hup].
           ++ intros [nm [Hin Hup]]. apply in_app_or in Hin.
              destruct Hin as [Hin|[Hin|[]]]; [exists nm; split; assumption|].
              inversion Hin; subst. contradiction.
Qed.

End NamesLoop.

(** X13.  [projectInstrumentNamesMap]: when at least one project is asked
    for, none of them is the zero UUID, and the query succeeds, the function
    returns a map (no error, no panic) in which [m[p][s]] is true exactly
    when [p] is one of the projects asked for and some instrument of [p] has
    a name whose upper-case form is [s]; the committed tables are not
    changed. *)
Theorem projectInstrumentNamesMap_holds_upper_case_names :
  forall (fault : nat -> option error)
         (instrument : Tables -> list (UUID * string))
         (strings_ToUpper : string -> string)
         (projectIDs : list UUID) (w : World),
    projectIDs <> [] ->
    ~ In 0%N projectIDs ->
    fault (clock w) = None ->
    exists w' m,
      projectInstrumentNamesMap fault instrument strings_ToUpper projectIDs w = (w', Ok m)
      /\ committed w' = committed w
      /\ forall p s,
           names_lookup m p s = true
           <-> In p projectIDs
               /\ exists name, In (p, name) (instrument (committed w))
                               /\ strings_ToUpper name = s.
Proof.
  intros fault instrument strings_ToUpper projectIDs w Hne Hnz Hf.
  unfold projectInstrumentNamesMap, sqlx_In_slice.
  destruct projectIDs as [|i ids] eqn:Eids; [contradiction|]. rewrite <- Eids in *.
  unfold db_Query. rewrite Hf.
  destruct (names_loop_spec strings_ToUpper
              (projectInstrumentNames_rows instrument projectIDs (committed w)) [] [] 0%N)
    as [m [Hm Hspec]].
  - apply order_by_project_id_sorted.
  - intros d [].
  - intros t _. apply N.le_0_l.
  - intros t Ht Hz. unfold projectInstrumentNames_rows in Ht.
    apply (proj1 (order_by_project_id_In _ _)) in Ht. apply filter_In in Ht.
    destruct Ht as [_ Ht].
    apply mem_uuid_true_In in Ht. apply Hnz. rewrite <- Hz. exact Ht.
  - left. repeat split.
  - intros p s. cbn. split; [discriminate|]. intros [name [[] _]].
  - exists (tick w (EvQuery true)), m. split; [rewrite Hm; reflexivity|].
    split; [reflexivity|]. intros p s. rewrite Hspec. cbn [app]. unfold has_name.
    unfold projectInstrumentNames_rows. split.
    + intros [name [Hin Hup]]. apply (proj1 (order_by_project_id_In _ _)) in Hin.
      apply filter_In in Hin. destruct Hin as [Hin Hmem]. cbn in Hmem.
      apply mem_uuid_true_In in Hmem. split; [exact Hmem|].
      exists name. split; assumption.
    + intros [Hp [name [Hin Hup]]]. exists name. split; [|exact Hup].
      apply order_by_project_id_In. apply filter_In. split; [exact Hin|].
      cbn. apply mem_uuid_In. exact Hp.
Qed.

Lemma projectInstrumentNamesMap_holds_upper_case_names_witness :
  exists w' m,
    projectInstrumentNamesMap never_fails ex_instrument ex_ToUpper [3%N; 4%N] ex_world
    = (w', Ok m)
    /\ committed w' = committed ex_world
    /\ forall p s,
         names_lookup m p s = true
         <-> In p [3%N; 4%N]
             /\ exists name, In (p, name) (ex_instrument (committed ex_world))
                             /\ ex_ToUpper name = s.
Proof.
  apply (projectInstrumentNamesMap_holds_upper_case_names
           never_fails ex_instrument ex_ToUpper [3%N; 4%N] ex_world).
  - discriminate.
  - intros [H|[H|[]]]; discriminate.
  - reflexivity.
Defined.

Lemma sorted_head_is_least :
  forall (l : list (UUID * string)) (x : UUID * string),
    StronglySorted (fun a b => (fst a <= fst b)%N) l ->
    In x l -> exists y rest, l = y :: rest /\ (fst y <= fst x)%N.
Proof.
  intros l x Hs Hin. destruct Hs as [|y ys Hys Hall]; [destruct Hin|].
  exists y, ys. split; [reflexivity|]. destruct Hin as [Heq|Hin].
  - subst x. apply N.le_refl.
  - rewrite Forall_forall in Hall. apply Hall. exact Hin.
Qed.

(** X14.  The edges of [projectInstrumentNamesMap]: with no project asked
    for it returns the error of [sqlx.In] without calling the driver; and
    when the zero UUID is asked for and has an instrument, the loop writes
    into an inner map that was never made, which is a run-time panic. *)
Theorem projectInstrumentNamesMap_edges :
  forall (fault : nat -> option error)
         (instrument : Tables -> list (UUID * string))
         (strings_ToUpper : string -> string) (w : World),
    projectInstrumentNamesMap fault instrument strings_ToUpper [] w
    = (w, Err "empty slice passed to 'in' query")
    /\ (forall projectIDs name,
          fault (clock w) = None ->
          In 0%N projectIDs ->
          In (0%N, name) (instrument (committed w)) ->
          snd (projectInstrumentNamesMap fault instrument strings_ToUpper projectIDs w)
          = Panic "assignment to entry in nil map").
Proof.
  intros fault instrument strings_ToUpper w. split; [reflexivity|].
  intros projectIDs name Hf Hz Hin.
  unfold projectInstrumentNamesMap, sqlx_In_slice.
  destruct projectIDs as [|i ids] eqn:Eids; [destruct Hz|]. rewrite <- Eids in *.
  unfold db_Query. rewrite Hf. cbn [snd].
  assert (Hrow : In (0%N, name)
                    (projectInstrumentNames_rows instrument projectIDs (committed w))).
  { unfold projectInstrumentNames_rows. apply order_by_project_id_In.
    apply filter_In. split; [exact Hin|]. cbn. apply mem_uuid_In. exact Hz. }
  destruct (sorted_head_is_least _ _
              (order_by_project_id_sorted
                 (filter (fun n => mem_uuid (fst n) projectIDs) (instrument (committed w))))
              Hrow) as [[p nm] [rest [Hl Hle]]].
  unfold projectInstrumentNames_rows. rewrite Hl.
  cbn in Hle. apply N.le_0_r in Hle. subst p. reflexivity.
Qed.

Lemma projectInstrumentNamesMap_edges_witness :
  snd (projectInstrumentNamesMap never_fails
         (fun _ => [(4%N, "PZ-2"%string); (0%N, "orphan"%string)]) ex_ToUpper
         [4%N; 0%N] ex_world)
  = Panic "assignment to entry in nil map".
Proof.
  apply (proj2 (projectInstrumentNamesMap_edges never_fails
                  (fun _ => [(4%N, "PZ-2"%string); (0%N, "orphan"%string)])
                  ex_ToUpper ex_world) [4%N; 0%N] "orphan"%string).
  - reflexivity.
  - right. left. reflexivity.
  - right. left. reflexivity.
Defined.

(** ** The handlers, beyond the claims *)

Lemma assign_fresh_ids_spec :
  forall (uuid_NewRandom : nat -> UUID + error) (items : list UUID) (k : nat)
         (ids : list UUID),
    assign_fresh_ids uuid_NewRandom items k = inl ids ->
    List.length ids = List.length items
    /\ forall i, i < List.length items -> uuid_NewRandom (k + i) = inl (nth i ids 0%N).
Proof.
  intros f items. induction items as [|x items IH]; intros k ids H; cbn in H.
  - inversion H. split; [reflexivity|]. intros i Hi. cbn in Hi. lia.
  - destruct (f k) as [id|e] eqn:Ek; [|discriminate].
    destruct (assign_fresh_ids f items (S k)) as [rest|e] eqn:Er; [|discriminate].
    inversion H; subst ids. destruct (IH _ _ Er) as [Hlen Hnth]. split.
    + cbn. rewrite Hlen. reflexivity.
    + intros i Hi. destruct i as [|i].
      * rewrite Nat.add_0_r. exact Ek.
      * cbn [nth]. replace (k + S i) with (S k + i) by lia. apply Hnth.
        cbn in Hi. lia.
Qed.

(** X15.  What the writing handlers hand to the data-access layer.
    [CreateOrUpdateInstrumentStatus] passes the parsed instrument and one
    identifier per bound item, the [i]-th being the one drawn by the [i]-th
    call of [uuid.NewRandom]: identifiers sent by the client are never
    stored.  [CreateInstrumentNote] passes the bound notes in order, each
    with [Creator] and [CreateDate] set from the profile and the clock and
    nothing else changed.  [UpdateInstrumentNote] only ever passes a note
    whose [ID] is the identifier of the path, with [Updater] and
    [UpdateDate] set from the profile and the clock and nothing else
    changed. *)
Theorem writing_handlers_arguments :
  forall (uuid_Parse : string -> UUID + error)
         (uuid_NewRandom : nat -> UUID + error)
         (Bind_InstrumentStatusCollection : Request -> list UUID + error)
         (Bind_InstrumentNoteCollection : Request -> list InstrumentNote + error)
         (Bind_InstrumentNote : Request -> InstrumentNote -> InstrumentNote + error)
         (time_Now : Time) (models : ModelCall -> option error) (c : Request),
    (forall m,
        In m (snd (CreateOrUpdateInstrumentStatus uuid_Parse uuid_NewRandom
                     Bind_InstrumentStatusCollection models c)) ->
        exists instrumentID items ids,
          uuid_Parse (Param c "instrument_id") = inl instrumentID
          /\ Bind_InstrumentStatusCollection c = inl items
          /\ m = models_CreateOrUpdateInstrumentStatus instrumentID ids
          /\ List.length ids = List.length items
          /\ forall i, i < List.length items -> uuid_NewRandom i = inl (nth i ids 0%N))
    /\ (forall m,
        In m (snd (CreateInstrumentNote Bind_InstrumentNoteCollection time_Now models c)) ->
        exists items notes,
          Bind_InstrumentNoteCollection c = inl items
          /\ m = models_CreateInstrumentNote notes
          /\ Forall2 same_but_creation items notes
          /\ Forall (fun n => in_Creator n = profile_ID c /\ in_CreateDate n = time_Now)
                    notes)
    /\ (forall m,
        In m (snd (UpdateInstrumentNote uuid_Parse Bind_InstrumentNote time_Now models c)) ->
        exists noteID n n',
          uuid_Parse (Param c "note_id") = inl noteID
          /\ Bind_InstrumentNote c (mkInstrumentNote noteID 0 "" "" 0 0 0 0 0) = inl n
          /\ m = models_UpdateInstrumentNote n'
          /\ in_ID n' = noteID
          /\ same_but_update n n'
          /\ in_Updater n' = profile_ID c /\ in_UpdateDate n' = time_Now).
Proof.
  intros uuid_Parse uuid_NewRandom Bind_s Bind_nc Bind_n time_Now models c.
  split; [|split].
  - intros m. unfold CreateOrUpdateInstrumentStatus.
    destruct (uuid_Parse (Param c "instrument_id")) as [instrumentID|e]; [|intros []].
    destruct (Bind_s c) as [items|e]; [|intros []].
    destruct (assign_fresh_ids uuid_NewRandom items 0) as [ids|e] eqn:E; [|intros []].
    destruct (assign_fresh_ids_spec _ _ _ _ E) as [Hlen Hnth].
    intros Hin.
    assert (Hm : m = models_CreateOrUpdateInstrumentStatus instrumentID ids).
    { destruct (models (models_CreateOrUpdateInstrumentStatus instrumentID ids));
        cbn in Hin; destruct Hin as [Hin|[]]; symmetry; exact Hin. }
    exists instrumentID, items, ids. repeat split; try assumption.
  - intros m. unfold CreateInstrumentNote.
    destruct (Bind_nc c) as [items|e]; [|intros []].
    intros Hin.
    match type of Hin with
    | context [models (models_CreateInstrumentNote ?st)] => set (notes := st) in *
    end.
    assert (Hm : m = models_CreateInstrumentNote notes).
    { destruct (models (models_CreateInstrumentNote notes));
        cbn in Hin; destruct Hin as [Hin|[]]; symmetry; exact Hin. }
    exists items, notes. split; [reflexivity|]. split; [exact Hm|]. subst notes. split.
    + clear Hin Hm. induction items as [|n items IH]; cbn; constructor.
      * unfold same_but_creation. cbn. repeat split.
      * exact IH.
    + apply Forall_forall. intros n Hn. apply in_map_iff in Hn.
      destruct Hn as [n0 [Hn0 _]]. subst n. cbn. split; reflexivity.
  - intros m. unfold UpdateInstrumentNote.
    destruct (uuid_Parse (Param c "note_id")) as [noteID|e]; [|intros []].
    destruct (Bind_n c (mkInstrumentNote noteID 0 "" "" 0 0 0 0 0)) as [n|e] eqn:Eb;
      [|intros []].
    destruct (noteID =? in_ID n)%N eqn:Eid; cbn [negb]; [|intros []].
    apply N.eqb_eq in Eid. intros Hin.
    match type of Hin with
    | context [models (models_UpdateInstrumentNote ?st)] => set (n' := st) in *
    end.
    assert (Hm : m = models_UpdateInstrumentNote n').
    { destruct (models (models_UpdateInstrumentNote n'));
        cbn in Hin; destruct Hin as [Hin|[]]; symmetry; exact Hin. }
    exists noteID, n, n'. split; [reflexivity|]. split; [exact Eb|].
    split; [exact Hm|]. subst n'. cbn. split; [symmetry; exact Eid|].
    unfold same_but_update. cbn. repeat split.
Qed.

Lemma writing_handlers_arguments_witness :
  exists noteID n n',
    ex_uuid_Parse (Param ex_request "note_id") = inl noteID
    /\ ex_Bind_InstrumentNote ex_request (mkInstrumentNote noteID 0 "" "" 0 0 0 0 0) = inl n
    /\ models_UpdateInstrumentNote (mkInstrumentNote 1 0 "" "" 0 0 0 100 (hour 9))
       = models_UpdateInstrumentNote n'
    /\ in_ID n' = noteID
    /\ same_but_update n n'
    /\ in_Updater n' = profile_ID ex_request /\ in_UpdateDate n' = hour 9.
Proof.
  apply (proj2 (proj2 (writing_handlers_arguments ex_uuid_Parse ex_uuid_NewRandom
                         ex_Bind_InstrumentStatusCollection
                         ex_Bind_InstrumentNoteCollection ex_Bind_InstrumentNote
                         (hour 9) ex_models_down ex_request))).
  left. reflexivity.
Defined.

(** X16.  [Shorten] gives one entry per instrument group, in the order of
    the groups, each carrying the [ID] and the [Slug] of its group. *)
Theorem Shorten_keeps_id_and_slug :
  forall (Items : list InstrumentGroup),
    Shorten Items = map (fun n => mkIDAndSlug (ig_ID n) (ig_Slug n)) Items
    /\ List.length (Shorten Items) = List.length Items
    /\ map ias_ID (Shorten Items) = map ig_ID Items
    /\ map ias_Slug (Shorten Items) = map ig_Slug Items.
Proof.
  intros Items.
  assert (H : forall acc,
             fold_left (fun ss n => ss ++ [mkIDAndSlug (ig_ID n) (ig_Slug n)]) Items acc
             = acc ++ map (fun n => mkIDAndSlug (ig_ID n) (ig_Slug n)) Items).
  { induction Items as [|n ns IH]; intros acc; cbn [fold_left map].
    - rewrite app_nil_r. reflexivity.
    - rewrite IH, <- app_assoc. reflexivity. }
  assert (E : Shorten Items = map (fun n => mkIDAndSlug (ig_ID n) (ig_Slug n)) Items)
    by (unfold Shorten; rewrite H; reflexivity).
  rewrite E. split; [reflexivity|]. split; [apply length_map|].
  split; rewrite map_map; reflexivity.
Qed.

(** ** The data-access functions of instrument notes *)

Lemma notes_update_hits :
  forall n rows,
    filter (Notes.has_id (in_ID n))
           (map (fun r => if Notes.has_id (in_ID n) r then Notes.set_columns n r else r) rows)
    = map (Notes.set_columns n) (filter (Notes.has_id (in_ID n)) rows).
Proof.
  intros n rows. induction rows as [|r rows IH]; [reflexivity|].
  cbn [map filter]. destruct (Notes.has_id (in_ID n) r) eqn:E.
  - assert (E' : Notes.has_id (in_ID n) (Notes.set_columns n r) = true) by exact E.
    rewrite E'. cbn [map]. f_equal. exact IH.
  - rewrite E. exact IH.
Qed.

Lemma notes_update_others :
  forall n rows,
    filter (fun r => negb (Notes.has_id (in_ID n) r))
           (map (fun r => if Notes.has_id (in_ID n) r then Notes.set_columns n r else r) rows)
    = filter (fun r => negb (Notes.has_id (in_ID n) r)) rows.
Proof.
  intros n rows. induction rows as [|r rows IH]; [reflexivity|].
  cbn [map filter]. destruct (Notes.has_id (in_ID n) r) eqn:E.
  - assert (E' : Notes.has_id (in_ID n) (Notes.set_columns n r) = true) by exact E.
    rewrite E'. cbn [negb]. exact IH.
  - rewrite E. cbn [negb]. f_equal. exact IH.
Qed.

(** X17.  Update, then get.  When [UpdateInstrumentNote] returns a note, it
    is the first stored note with that [id], with its title, body, time,
    updater and update date replaced by the ones given and its instrument,
    creator and create date kept; the notes with another [id] and the
    number of notes are unchanged; and a [GetInstrumentNote] of that [id]
    that follows returns the very same note. *)
Theorem notes_update_then_get :
  forall (fault : nat -> option error) (n u : InstrumentNote) (s s1 : Notes.Store),
    Notes.UpdateInstrumentNote fault n s = (s1, Ok u) ->
    (exists old,
        hd_error (filter (Notes.has_id (in_ID n)) (Notes.instrument_note s)) = Some old
        /\ u = Notes.set_columns n old)
    /\ in_ID u = in_ID n
    /\ filter (fun r => negb (Notes.has_id (in_ID n) r)) (Notes.instrument_note s1)
       = filter (fun r => negb (Notes.has_id (in_ID n) r)) (Notes.instrument_note s)
    /\ List.length (Notes.instrument_note s1) = List.length (Notes.instrument_note s)
    /\ (fault (Notes.calls s1) = None ->
        snd (Notes.GetInstrumentNote fault (in_ID n) s1) = Ok u).
Proof.
  intros fault n u s s1 H. unfold Notes.UpdateInstrumentNote in H.
  destruct (fault (Notes.calls s)); [discriminate|].
  rewrite notes_update_hits in H.
  destruct (filter (Notes.has_id (in_ID n)) (Notes.instrument_note s)) as [|old olds] eqn:E;
    cbn [map] in H; [discriminate|].
  inversion H; subst. cbn [Notes.instrument_note Notes.calls].
  split; [exists old; split; reflexivity|]. split.
  - assert (Hin : In old (filter (Notes.has_id (in_ID n)) (Notes.instrument_note s)))
      by (rewrite E; left; reflexivity).
    apply filter_In in Hin. destruct Hin as [_ Hin]. unfold Notes.has_id in Hin.
    apply N.eqb_eq in Hin. exact Hin.
  - split; [apply notes_update_others|]. split; [apply length_map|].
    intros Hf. unfold Notes.GetInstrumentNote. cbn [Notes.instrument_note Notes.calls].
    rewrite Hf, notes_update_hits, E. reflexivity.
Qed.

Lemma notes_update_then_get_witness :
  snd (Notes.GetInstrumentNote never_fails (in_ID Notes.ex_edit)
         (fst (Notes.UpdateInstrumentNote never_fails Notes.ex_edit Notes.ex_store)))
  = Ok (mkInstrumentNote 21 7 "Inspection (revised)" "Minor seepage" (hour 11)
          100 (hour 9) 101 (hour 12)).
Proof.
  refine (proj2 (proj2 (proj2 (proj2
            (notes_update_then_get never_fails Notes.ex_edit _ Notes.ex_store _ eq_refl))))
            eq_refl).
Defined.

(** X18.  [UpdateInstrumentNote] on a note that is not stored reports
    [sql.ErrNoRows]; and whenever it reports an error, this one or the
    driver's, the table is exactly as before. *)
Theorem notes_update_error_changes_nothing :
  forall (fault : nat -> option error) (n : InstrumentNote) (s : Notes.Store),
    (forall s1 e,
        Notes.UpdateInstrumentNote fault n s = (s1, Err e) ->
        Notes.instrument_note s1 = Notes.instrument_note s)
    /\ (fault (Notes.calls s) = None ->
        (forall r, In r (Notes.instrument_note s) -> in_ID r <> in_ID n) ->
        snd (Notes.UpdateInstrumentNote fault n s) = Err ErrNoRows).
Proof.
  intros fault n s.
  assert (Hmiss : filter (Notes.has_id (in_ID n)) (Notes.instrument_note s) = [] ->
                  map (fun r => if Notes.has_id (in_ID n) r then Notes.set_columns n r else r)
                      (Notes.instrument_note s)
                  = Notes.instrument_note s).
  { induction (Notes.instrument_note s) as [|r rows IH]; [reflexivity|].
    cbn [filter map]. destruct (Notes.has_id (in_ID n) r); [discriminate|].
    intros Hnil. f_equal. apply IH. exact Hnil. }
  split.
  - intros s1 e H. unfold Notes.UpdateInstrumentNote in H.
    destruct (fault (Notes.calls s)); [inversion H; reflexivity|].
    rewrite notes_update_hits in H.
    destruct (filter (Notes.has_id (in_ID n)) (Notes.instrument_note s)) as [|old olds] eqn:E;
      cbn [map] in H; [|discriminate].
    inversion H. cbn [Notes.instrument_note]. apply Hmiss. reflexivity.
  - intros Hf Hnone. unfold Notes.UpdateInstrumentNote. rewrite Hf, notes_update_hits.
    rewrite filter_keeps_none; [reflexivity|].
    intros r Hr. unfold Notes.has_id. apply N.eqb_neq. apply Hnone. exact Hr.
Qed.

Lemma notes_update_error_changes_nothing_witness :
  snd (Notes.UpdateInstrumentNote never_fails
         (mkInstrumentNote 99 0 "t" "b" 0 0 0 0 0) Notes.ex_store)
  = Err ErrNoRows.
Proof.
  apply (proj2 (notes_update_error_changes_nothing never_fails
                  (mkInstrumentNote 99 0 "t" "b" 0 0 0 0 0) Notes.ex_store)).
  - reflexivity.
  - intros r [H|[H|[]]]; subst r; discriminate.
Defined.

(** X19.  Delete, then get.  After a [DeleteInstrumentNote] that returned
    no error, no note with that [id] is stored and every other note is
    stored as before, in the same order; a [GetInstrumentNote] of that [id]
    reports [sql.ErrNoRows]; and deleting the same [id] again returns no
    error and changes nothing. *)
Theorem notes_delete_then_get :
  forall (fault : nat -> option error) (id : UUID) (s s1 : Notes.Store),
    Notes.DeleteInstrumentNote fault id s = (s1, None) ->
    (forall r, In r (Notes.instrument_note s1) -> in_ID r <> id)
    /\ Notes.instrument_note s1
       = filter (fun r => negb (in_ID r =? id)%N) (Notes.instrument_note s)
    /\ (fault (Notes.calls s1) = None ->
        snd (Notes.GetInstrumentNote fault id s1) = Err ErrNoRows
        /\ snd (Notes.DeleteInstrumentNote fault id s1) = None
        /\ Notes.instrument_note (fst (Notes.DeleteInstrumentNote fault id s1))
           = Notes.instrument_note s1).
Proof.
  intros fault id s s1 H. unfold Notes.DeleteInstrumentNote in H.
  destruct (fault (Notes.calls s)); [discriminate|]. inversion H; subst.
  cbn [Notes.instrument_note Notes.calls].
  assert (Hgone : forall r,
             In r (filter (fun r => negb (Notes.has_id id r)) (Notes.instrument_note s)) ->
             Notes.has_id id r = false).
  { intros r Hr. apply filter_In in Hr. destruct Hr as [_ Hr].
    apply negb_true_iff in Hr. exact Hr. }
  split; [|split; [reflexivity|]].
  - intros r Hr. apply Hgone in Hr. unfold Notes.has_id in Hr. apply N.eqb_neq. exact Hr.
  - intros Hf. unfold Notes.GetInstrumentNote, Notes.DeleteInstrumentNote.
    cbn [Notes.instrument_note Notes.calls]. rewrite Hf.
    rewrite (filter_keeps_none _ (Notes.has_id id) _ Hgone).
    split; [reflexivity|]. split; [reflexivity|]. cbn [fst Notes.instrument_note].
    apply filter_keeps_all. intros r Hr. rewrite (Hgone r Hr). reflexivity.
Qed.

Lemma notes_delete_then_get_witness :
  snd (Notes.GetInstrumentNote never_fails 21
         (fst (Notes.DeleteInstrumentNote never_fails 21 Notes.ex_store)))
  = Err ErrNoRows
  /\ snd (Notes.DeleteInstrumentNote never_fails 21
            (fst (Notes.DeleteInstrumentNote never_fails 21 Notes.ex_store))) = None
  /\ Notes.instrument_note
       (fst (Notes.DeleteInstrumentNote never_fails 21
               (fst (Notes.DeleteInstrumentNote never_fails 21 Notes.ex_store))))
     = Notes.instrument_note (fst (Notes.DeleteInstrumentNote never_fails 21 Notes.ex_store)).
Proof.
  refine (proj2 (proj2
            (notes_delete_then_get never_fails 21%N Notes.ex_store _ eq_refl)) eq_refl).
Defined.

Lemma notes_copy_rows_spec :
  forall fault notes copied s s2 r,
    Notes.copy_rows fault notes copied s = (s2, r) ->
    Notes.instrument_note s2 = Notes.instrument_note s
    /\ (forall c, r = inl c -> c = copied ++ notes).
Proof.
  intros fault notes. induction notes as [|n notes IH]; intros copied s s2 r H;
    cbn [Notes.copy_rows] in H.
  - inversion H; subst. split; [reflexivity|].
    intros c Hc. inversion Hc. rewrite app_nil_r. reflexivity.
  - destruct (fault (Notes.calls s)).
    + inversion H; subst. split; [reflexivity|]. intros; discriminate.
    + apply IH in H. destruct H as [H1 H2]. split; [exact H1|].
      intros c Hc. rewrite (H2 c Hc), <- app_assoc. reflexivity.
Qed.

Lemma notes_copy_rows_run :
  forall fault notes copied s,
    no_fault fault (Notes.calls s) (List.length notes) ->
    Notes.copy_rows fault notes copied s
    = (Notes.mkStore (Notes.instrument_note s) (Notes.calls s + List.length notes),
       inl (copied ++ notes)).
Proof.
  intros fault notes. induction notes as [|n notes IH]; intros copied s Hnf;
    cbn [Notes.copy_rows List.length].
  - rewrite Nat.add_0_r, app_nil_r. destruct s; reflexivity.
  - rewrite (no_fault_head _ _ _ Hnf). rewrite IH.
    + cbn [Notes.called Notes.instrument_note Notes.calls].
      rewrite <- app_assoc. cbn [app]. f_equal. f_equal. lia.
    + cbn [Notes.called Notes.calls]. apply no_fault_tail. exact Hnf.
Qed.

(** Either every note is appended and no error is returned, or an error is
    returned and the table is the old one. *)
Lemma CreateInstrumentNote_cases :
  forall (fault : nat -> option error) (notes : list InstrumentNote) (s : Notes.Store),
    (snd (Notes.CreateInstrumentNote fault notes s) = None
     /\ Notes.instrument_note (fst (Notes.CreateInstrumentNote fault notes s))
        = Notes.instrument_note s ++ notes)
    \/ (exists e,
          snd (Notes.CreateInstrumentNote fault notes s) = Some e
          /\ Notes.instrument_note (fst (Notes.CreateInstrumentNote fault notes s))
             = Notes.instrument_note s).
Proof.
  intros fault notes s.
  - unfold Notes.CreateInstrumentNote.
    destruct (fault (Notes.calls s)) as [e|];
      [right; exists e; split; reflexivity|].
    destruct (fault (Notes.calls (Notes.called s))) as [e|];
      [right; exists e; split; reflexivity|].
    destruct (Notes.copy_rows fault notes [] (Notes.called (Notes.called s)))
      as [s2 [copied|e]] eqn:E;
      destruct (notes_copy_rows_spec _ _ _ _ _ _ E) as [Ht Hc];
      cbn [Notes.called Notes.instrument_note] in Ht;
      [|right; exists e; split; [reflexivity|exact Ht]].
    specialize (Hc copied eq_refl). cbn [app] in Hc. subst copied.
    destruct (fault (Notes.calls s2)) as [e|];
      [right; exists e; split; [reflexivity|exact Ht]|].
    destruct (fault (Notes.calls (Notes.called s2))) as [e|];
      [right; exists e; split; [reflexivity|exact Ht]|].
    destruct (fault (Notes.calls (Notes.called (Notes.called s2)))) as [e|];
      [right; exists e; split; [reflexivity|exact Ht]|].
    left. split; [reflexivity|]. cbn [fst Notes.instrument_note Notes.called].
    rewrite Ht. reflexivity.
Qed.

(** X20.  [CreateInstrumentNote] stores all the notes or none: when it
    returns no error the table is the old one followed by the notes given,
    in order; when it returns an error, whichever driver call failed, the
    table is exactly the old one; and it returns no error when none of its
    driver calls (begin, prepare, one per note, the closing exec, close,
    commit) fails. *)
Theorem notes_create_all_or_nothing :
  forall (fault : nat -> option error) (notes : list InstrumentNote) (s : Notes.Store),
    ((snd (Notes.CreateInstrumentNote fault notes s) = None
      /\ Notes.instrument_note (fst (Notes.CreateInstrumentNote fault notes s))
         = Notes.instrument_note s ++ notes)
     \/ (exists e,
           snd (Notes.CreateInstrumentNote fault notes s) = Some e
           /\ Notes.instrument_note (fst (Notes.CreateInstrumentNote fault notes s))
              = Notes.instrument_note s))
    /\ (no_fault fault (Notes.calls s) (5 + List.length notes) ->
        snd (Notes.CreateInstrumentNote fault notes s) = None).
Proof.
  intros fault notes s. split; [apply CreateInstrumentNote_cases|].
  - intros Hnf. unfold Notes.CreateInstrumentNote.
    rewrite (no_fault_at _ _ _ (Notes.calls s) Hnf) by lia.
    cbn [Notes.called Notes.calls].
    rewrite (no_fault_at _ _ _ (S (Notes.calls s)) Hnf) by lia.
    rewrite notes_copy_rows_run.
    2:{ intros i Hi. cbn [Notes.called Notes.calls].
        apply (no_fault_at _ _ _ _ Hnf); lia. }
    cbn [Notes.called Notes.calls Notes.instrument_note].
    rewrite (no_fault_at _ _ _ (S (S (Notes.calls s)) + List.length notes) Hnf) by lia.
    rewrite (no_fault_at _ _ _ (S (S (S (Notes.calls s)) + List.length notes)) Hnf) by lia.
    rewrite (no_fault_at _ _ _ (S (S (S (S (Notes.calls s)) + List.length notes))) Hnf)
      by lia.
    reflexivity.
Qed.

Lemma notes_create_all_or_nothing_witness :
  snd (Notes.CreateInstrumentNote never_fails [Notes.ex_edit] Notes.ex_store) = None.
Proof.
  apply (proj2 (notes_create_all_or_nothing never_fails [Notes.ex_edit] Notes.ex_store)).
  intros i _. reflexivity.
Defined.

Lemma filter_unique_id :
  forall (l : list InstrumentNote) (n : InstrumentNote),
    NoDup (map in_ID l) -> In n l -> filter (Notes.has_id (in_ID n)) l = [n].
Proof.
  intros l n Hnd. induction l as [|r l IH]; intros Hin; [destruct Hin|].
  cbn [map] in Hnd. inversion Hnd as [|x xs Hni Hnd']. subst.
  cbn [filter]. destruct Hin as [Heq|Hin].
  - subst r. unfold Notes.has_id at 1. rewrite N.eqb_refl. f_equal.
    apply filter_keeps_none. intros r Hr. unfold Notes.has_id.
    apply N.eqb_neq. intros Heq. apply Hni. rewrite <- Heq. apply in_map. exact Hr.
  - destruct (Notes.has_id (in_ID n) r) eqn:E.
    + exfalso. unfold Notes.has_id in E. apply N.eqb_eq in E. apply Hni.
      rewrite E. apply in_map. exact Hin.
    + apply IH; assumption.
Qed.

(** X21.  Create, then read back.  After a [CreateInstrumentNote] that
    returned no error, [ListInstrumentNotes] returns the old notes and the
    new ones, each once, in the order the server chooses (the query has no
    [ORDER BY]); [ListInstrumentInstrumentNotes] returns, in the server's
    order, exactly those of them that belong to the instrument asked for;
    and, when the identifiers stored are all different, [GetInstrumentNote]
    returns each new note by its [id]. *)
Theorem notes_create_then_read :
  forall (fault : nat -> option error)
         (row_order : list InstrumentNote -> list InstrumentNote)
         (notes : list InstrumentNote) (s s1 : Notes.Store),
    arranges row_order ->
    Notes.CreateInstrumentNote fault notes s = (s1, None) ->
    fault (Notes.calls s1) = None ->
    (exists found,
        snd (Notes.ListInstrumentNotes fault row_order s1) = (found, None)
        /\ Permutation found (Notes.instrument_note s ++ notes))
    /\ (forall instrumentID,
          exists found,
            snd (Notes.ListInstrumentInstrumentNotes fault row_order instrumentID s1)
            = (found, None)
            /\ Permutation found
                 (filter (fun r => (in_InstrumentID r =? instrumentID)%N)
                         (Notes.instrument_note s ++ notes))
            /\ forall r, In r found <->
                         In r (Notes.instrument_note s ++ notes)
                         /\ in_InstrumentID r = instrumentID)
    /\ (NoDup (map in_ID (Notes.instrument_note s ++ notes)) ->
        forall n, In n notes -> snd (Notes.GetInstrumentNote fault (in_ID n) s1) = Ok n).
Proof.
  intros fault row_order notes s s1 Hro H Hf.
  assert (Ht : Notes.instrument_note s1 = Notes.instrument_note s ++ notes).
  { destruct (CreateInstrumentNote_cases fault notes s) as [[_ Hall]|[e [He _]]];
      rewrite H in *; cbn [fst snd] in *; [exact Hall|discriminate]. }
  split; [|split].
  - unfold Notes.ListInstrumentNotes. rewrite Hf, Ht. cbn [snd].
    eexists. split; [reflexivity|apply Hro].
  - intros instrumentID. unfold Notes.ListInstrumentInstrumentNotes. rewrite Hf, Ht.
    cbn [snd]. eexists. split; [reflexivity|]. split; [apply Hro|].
    intros r. split.
    + intros Hr. apply (Permutation_in r (Hro _)) in Hr.
      apply filter_In in Hr. rewrite N.eqb_eq in Hr. exact Hr.
    + intros Hr. apply (Permutation_in r (Permutation_sym (Hro _))).
      apply filter_In. rewrite N.eqb_eq. exact Hr.
  - intros Hnd n Hn. unfold Notes.GetInstrumentNote. rewrite Hf, Ht.
    rewrite (filter_unique_id _ n Hnd); [reflexivity|].
    apply in_or_app. right. exact Hn.
Qed.

(** With a server that returns the rows latest first, the list read back
    after adding note 23 is a rearrangement of the two old notes and the
    new one. *)
Lemma notes_create_then_read_witness :
  exists found,
    snd (Notes.ListInstrumentNotes never_fails (@rev InstrumentNote)
           (fst (Notes.CreateInstrumentNote never_fails
                   [mkInstrumentNote 23 7 "Survey" "Crest level checked" (hour 12)
                      100 (hour 12) 0 0] Notes.ex_store)))
    = (found, None)
    /\ Permutation found
         (Notes.instrument_note Notes.ex_store
          ++ [mkInstrumentNote 23 7 "Survey" "Crest level checked" (hour 12)
                100 (hour 12) 0 0]).
Proof.
  refine (proj1 (notes_create_then_read never_fails (@rev InstrumentNote)
                   [mkInstrumentNote 23 7 "Survey" "Crest level checked" (hour 12)
                      100 (hour 12) 0 0] Notes.ex_store _ _ eq_refl eq_refl)).
  intros l. apply Permutation_sym, Permutation_rev.
Defined.

(** ** Retrying a batch of measurements *)

Lemma tables_ext :
  forall a b : Tables,
    timeseries a = timeseries b ->
    timeseries_measurement a = timeseries_measurement b ->
    plot_configuration a = plot_configuration b ->
    plot_configuration_timeseries a = plot_configuration_timeseries b ->
    v_project a = v_project b ->
    a = b.
Proof.
  intros [a1 a2 a3 a4 a5] [b1 b2 b3 b4 b5]. cbn. intros; subst. reflexivity.
Qed.

(** A table is determined by the order of its keys and the rows stored
    under each key. *)
Lemma rows_determined :
  forall l1 l2 : list MeasurementRow,
    map row_key l1 = map row_key l2 ->
    (forall tsid t, filter (same_key tsid t) l1 = filter (same_key tsid t) l2) ->
    l1 = l2.
Proof.
  induction l1 as [|r1 l1 IH]; intros l2 Hk Hf; destruct l2 as [|r2 l2];
    try discriminate; [reflexivity|].
  cbn [map] in Hk.
  assert (Hk1 : row_key r1 = row_key r2) by congruence.
  assert (Hk2 : map row_key l1 = map row_key l2) by congruence.
  assert (Hs1 : same_key (r_timeseries_id r1) (r_time r1) r1 = true)
    by (apply same_key_true; reflexivity).
  assert (Hs2 : same_key (r_timeseries_id r1) (r_time r1) r2 = true)
    by (apply same_key_true; symmetry; exact Hk1).
  pose proof (Hf (r_timeseries_id r1) (r_time r1)) as H0.
  cbn [filter] in H0. rewrite Hs1, Hs2 in H0. inversion H0 as [[Hr Htail]]. subst r2.
  f_equal. apply IH; [exact Hk2|].
  intros tsid t. specialize (Hf tsid t). cbn [filter] in Hf.
  destruct (same_key tsid t r1); [inversion Hf; reflexivity|exact Hf].
Qed.

Lemma existsb_same_key_In :
  forall tsid t rows,
    existsb (same_key tsid t) rows = true <-> In (tsid, t) (map row_key rows).
Proof.
  intros tsid t rows. rewrite existsb_exists, in_map_iff. split.
  - intros [r [Hr Hs]]. exists r. split; [apply same_key_true; exact Hs|exact Hr].
  - intros [r [Hs Hr]]. exists r. split; [exact Hr|apply same_key_true; exact Hs].
Qed.

Lemma upsert_measurement_keys_grow :
  forall tsid t v rows k,
    In k (map row_key rows) ->
    In k (map row_key (fst (upsert_measurement tsid t v rows))).
Proof.
  intros tsid t v rows k Hk. rewrite upsert_measurement_keys.
  destruct (existsb (same_key tsid t) rows); [exact Hk|].
  apply in_or_app. left. exact Hk.
Qed.

Lemma upsert_measurement_own_key :
  forall tsid t v rows,
    In (tsid, t) (map row_key (fst (upsert_measurement tsid t v rows))).
Proof.
  intros tsid t v rows. rewrite upsert_measurement_keys.
  destruct (existsb (same_key tsid t) rows) eqn:E.
  - apply existsb_same_key_In. exact E.
  - apply in_or_app. right. left. reflexivity.
Qed.

Lemma upsert_all_keys_grow :
  forall ps tb k,
    In k (map row_key (timeseries_measurement tb)) ->
    In k (map row_key (timeseries_measurement (upsert_all ps tb))).
Proof.
  induction ps as [|p ps IH]; intros tb k Hk; [exact Hk|].
  rewrite upsert_all_cons. apply IH. rewrite exec_upsert_measurement_table.
  apply upsert_measurement_keys_grow. exact Hk.
Qed.

(** After a batch every key it names is stored. *)
Lemma upsert_all_keys_present :
  forall ps tb p,
    In p ps ->
    In (fst p, m_Time (snd p)) (map row_key (timeseries_measurement (upsert_all ps tb))).
Proof.
  induction ps as [|q ps IH]; intros tb p Hp; [destruct Hp|].
  rewrite upsert_all_cons. destruct Hp as [Hp|Hp].
  - subst q. apply upsert_all_keys_grow. rewrite exec_upsert_measurement_table.
    apply upsert_measurement_own_key.
  - apply IH. exact Hp.
Qed.

(** A batch whose keys are all stored adds no row and moves none. *)
Lemma upsert_all_keys_stable :
  forall ps tb,
    (forall p, In p ps ->
               In (fst p, m_Time (snd p)) (map row_key (timeseries_measurement tb))) ->
    map row_key (timeseries_measurement (upsert_all ps tb))
    = map row_key (timeseries_measurement tb).
Proof.
  induction ps as [|q ps IH]; intros tb Hall; [reflexivity|].
  rewrite upsert_all_cons.
  assert (Hq : map row_key (timeseries_measurement (fst (exec_stmt (upsert_of q) tb)))
               = map row_key (timeseries_measurement tb)).
  { rewrite exec_upsert_measurement_table, upsert_measurement_keys.
    rewrite (proj2 (existsb_same_key_In _ _ _) (Hall q (or_introl eq_refl))).
    reflexivity. }
  rewrite IH; [exact Hq|].
  intros p Hp. rewrite Hq. apply Hall. right. exact Hp.
Qed.

(** A key is either named by no point of the batch, or has a last point. *)
Lemma last_point_of_key :
  forall (ps : list (UUID * Measurement)) (tsid : UUID) (t : Time),
    Forall (fun q => (fst q, m_Time (snd q)) <> (tsid, t)) ps
    \/ exists pre v post,
         ps = pre ++ (tsid, mkMeasurement t v) :: post
         /\ Forall (fun q => (fst q, m_Time (snd q)) <> (tsid, t)) post.
Proof.
  induction ps as [|p ps IH]; intros tsid t.
  - left. constructor.
  - destruct (IH tsid t) as [Hno|[pre [v [post [Heq Hpost]]]]].
    + destruct p as [a [tm v]].
      destruct (N.eq_dec a tsid) as [Ha|Ha]; [destruct (Z.eq_dec tm t) as [Ht|Ht]|].
      * right. subst a tm. exists [], v, ps. split; [reflexivity|exact Hno].
      * left. constructor; [cbn; congruence|exact Hno].
      * left. constructor; [cbn; congruence|exact Hno].
    + right. exists (p :: pre), v, post. split; [rewrite Heq; reflexivity|exact Hpost].
Qed.

(** Upserting the same batch a second time changes nothing. *)
Lemma upsert_all_twice :
  forall ps tb,
    timeseries_unique_time (timeseries_measurement tb) ->
    upsert_all ps (upsert_all ps tb) = upsert_all ps tb.
Proof.
  intros ps tb Hu.
  destruct (upsert_all_other_tables ps (upsert_all ps tb)) as [H1 [H2 [H3 H4]]].
  apply tables_ext; try assumption.
  apply rows_determined.
  - apply upsert_all_keys_stable. intros p Hp. apply upsert_all_keys_present. exact Hp.
  - intros tsid t. fold (rows_at tsid t (upsert_all ps (upsert_all ps tb))).
    fold (rows_at tsid t (upsert_all ps tb)).
    destruct (last_point_of_key ps tsid t) as [Hno|[pre [v [post [Heq Hpost]]]]].
    + apply upsert_all_other_keys. exact Hno.
    + rewrite Heq at 1 3.
      rewrite (upsert_all_last_wins tsid t v pre post tb Hu Hpost).
      apply upsert_all_last_wins; [|exact Hpost].
      apply upsert_all_unique. exact Hu.
Qed.

(** X22.  Sending a batch again is harmless: when
    [CreateOrUpdateTimeseriesMeasurements] succeeds and the same batch is
    sent a second time and succeeds, the committed tables after the second
    call are exactly those after the first (no row added, moved or
    changed), whatever values and repeated keys the batch holds. *)
Theorem CreateOrUpdateTimeseriesMeasurements_retry_is_harmless :
  forall (fault : nat -> option error) (mc r1 r2 : list MeasurementCollection)
         (w w1 w2 : World),
    timeseries_unique_time (timeseries_measurement (committed w)) ->
    CreateOrUpdateTimeseriesMeasurements fault mc w = (w1, Ok r1) ->
    CreateOrUpdateTimeseriesMeasurements fault mc w1 = (w2, Ok r2) ->
    committed w2 = committed w1.
Proof.
  intros fault mc r1 r2 w w1 w2 Hu H1 H2.
  apply CreateOrUpdateTimeseriesMeasurements_ok in H1. destruct H1 as [_ H1].
  apply CreateOrUpdateTimeseriesMeasurements_ok in H2. destruct H2 as [_ H2].
  rewrite H2, H1. apply upsert_all_twice. exact Hu.
Qed.

Lemma CreateOrUpdateTimeseriesMeasurements_retry_is_harmless_witness :
  committed (fst (CreateOrUpdateTimeseriesMeasurements never_fails ex_batch
                    (fst (CreateOrUpdateTimeseriesMeasurements never_fails
                            ex_batch ex_world))))
  = committed (fst (CreateOrUpdateTimeseriesMeasurements never_fails ex_batch ex_world)).
Proof.
  assert (Hu : timeseries_unique_time (timeseries_measurement (committed ex_world))).
  { unfold timeseries_unique_time. simpl.
    repeat constructor; simpl; intuition discriminate. }
  exact (CreateOrUpdateTimeseriesMeasurements_retry_is_harmless
           never_fails ex_batch _ _ ex_world _ _ Hu eq_refl eq_refl).
Defined.

(* ------------------------------------------------------------------ *)
(** ** Promoting and demoting a timeseries *)

Lemma pair_eqb_false : forall a b, pair_eqb a b = false <-> a <> b.
Proof.
  intros a b. split.
  - intros H E. subst b. rewrite pair_eqb_refl in H. discriminate.
  - intros H. destruct (pair_eqb a b) eqn:E; [|reflexivity].
    apply pair_eqb_true in E. contradiction.
Qed.

Lemma existsb_pair_In :
  forall a rows, existsb (pair_eqb a) rows = true <-> In a rows.
Proof.
  intros a rows. rewrite existsb_exists. split.
  - intros [b [Hb E]]. apply pair_eqb_true in E. subst b. exact Hb.
  - intros H. exists a. split; [exact H|apply pair_eqb_refl].
Qed.

Lemma filter_other_pairs_id :
  forall a rows,
    ~ In a rows -> filter (fun b => negb (pair_eqb a b)) rows = rows.
Proof.
  intros a rows. induction rows as [|b rows IH]; intros Hn; [reflexivity|].
  cbn [filter]. destruct (pair_eqb a b) eqn:E.
  - exfalso. apply Hn. left. apply pair_eqb_true in E. congruence.
  - cbn [negb]. rewrite IH; [reflexivity|]. intros H. apply Hn. right. exact H.
Qed.

(** X23.  Promoting and demoting a timeseries.  A failing [db.Exec] is
    returned by [CreateProjectTimeseries] and [DeleteProjectTimeseries] and
    leaves the table as it was.  Otherwise promoting stores the pair, keeps
    every row and the constraint [project_unique_timeseries], and changes
    nothing when the pair was already stored; demoting removes the pair and
    no other row; and demoting right after promoting a pair that was not
    stored gives back the table as it was before both. *)
Theorem ProjectTimeseries_promote_demote :
  forall (fault : nat -> option error) (p t : UUID)
         (s s1 s2 : ProjectTimeseries.Store) (e1 e2 : option error),
    ProjectTimeseries.CreateProjectTimeseries fault p t s = (s1, e1) ->
    ProjectTimeseries.DeleteProjectTimeseries fault p t s1 = (s2, e2) ->
    let rows := ProjectTimeseries.project_timeseries s in
    let rows1 := ProjectTimeseries.project_timeseries s1 in
    let rows2 := ProjectTimeseries.project_timeseries s2 in
    (e1 = fault (ProjectTimeseries.calls s) /\
     e2 = fault (S (ProjectTimeseries.calls s)))
    /\ (e1 <> None -> rows1 = rows)
    /\ (e2 <> None -> rows2 = rows1)
    /\ (e1 = None ->
          In (p, t) rows1
          /\ (forall a, In a rows -> In a rows1)
          /\ (forall a, In a rows1 -> a = (p, t) \/ In a rows)
          /\ (In (p, t) rows -> rows1 = rows)
          /\ (ProjectTimeseries.project_unique_timeseries rows ->
                ProjectTimeseries.project_unique_timeseries rows1))
    /\ (e2 = None ->
          ~ In (p, t) rows2
          /\ (forall a, a <> (p, t) -> (In a rows2 <-> In a rows1)))
    /\ (e1 = None -> e2 = None -> ~ In (p, t) rows -> rows2 = rows).
Proof.
  intros fault p t s s1 s2 e1 e2 H1 H2 rows rows1 rows2.
  unfold ProjectTimeseries.CreateProjectTimeseries in H1.
  unfold ProjectTimeseries.DeleteProjectTimeseries in H2.
  assert (Hc : ProjectTimeseries.calls s1 = S (ProjectTimeseries.calls s)).
  { destruct (fault (ProjectTimeseries.calls s)); inversion H1; reflexivity. }
  rewrite Hc in H2.
  assert (Hins :
    e1 = None ->
    rows1 = fst (insert_assoc_do_nothing p t rows)).
  { intros E. subst rows1 rows. destruct (fault (ProjectTimeseries.calls s));
      inversion H1; subst; [discriminate|reflexivity]. }
  assert (Hdel :
    e2 = None ->
    rows2 = filter (fun a => negb (pair_eqb (p, t) a)) rows1).
  { intros E. subst rows2 rows1. destruct (fault (S (ProjectTimeseries.calls s)));
      inversion H2; subst; [discriminate|reflexivity]. }
  split; [|split; [|split; [|split; [|split]]]].
  - split.
    + destruct (fault (ProjectTimeseries.calls s)); inversion H1; reflexivity.
    + destruct (fault (S (ProjectTimeseries.calls s))); inversion H2; reflexivity.
  - intros E. subst rows1 rows. destruct (fault (ProjectTimeseries.calls s));
      inversion H1; subst; [reflexivity|contradiction].
  - intros E. subst rows2 rows1. destruct (fault (S (ProjectTimeseries.calls s)));
      inversion H2; subst; [reflexivity|contradiction].
  - intros E. specialize (Hins E). rewrite Hins. unfold insert_assoc_do_nothing.
    destruct (existsb (pair_eqb (p, t)) rows) eqn:Ex; cbn [fst].
    + apply existsb_pair_In in Ex.
      repeat split; auto.
    + assert (Hn : ~ In (p, t) rows).
      { intros Hin. apply existsb_pair_In in Hin. congruence. }
      split; [apply in_or_app; right; left; reflexivity|].
      split; [intros a Ha; apply in_or_app; left; exact Ha|].
      split.
      { intros a Ha. apply in_app_or in Ha. destruct Ha as [Ha|[Ha|[]]];
          [right; exact Ha|left; symmetry; exact Ha]. }
      split; [intros Hin; contradiction|].
      unfold ProjectTimeseries.project_unique_timeseries. intros Hu.
      apply NoDup_app; [exact Hu|repeat constructor; intros []|].
      intros a Ha [Hb|[]]. subst a. contradiction.
  - intros E. specialize (Hdel E). rewrite Hdel. split.
    + intros Hin. apply filter_In in Hin. destruct Hin as [_ Hb].
      rewrite pair_eqb_refl in Hb. discriminate.
    + intros a Ha. rewrite filter_In. split; [tauto|].
      intros Hin. split; [exact Hin|].
      apply negb_true_iff. apply pair_eqb_false. congruence.
  - intros E1 E2 Hn. rewrite (Hdel E2), (Hins E1). unfold insert_assoc_do_nothing.
    assert (Ex : existsb (pair_eqb (p, t)) rows = false).
    { destruct (existsb (pair_eqb (p, t)) rows) eqn:Ex; [|reflexivity].
      apply existsb_pair_In in Ex. contradiction. }
    rewrite Ex. cbn [fst]. rewrite filter_app. cbn [filter].
    rewrite pair_eqb_refl. cbn [negb]. rewrite app_nil_r.
    apply filter_other_pairs_id. exact Hn.
Qed.

Lemma ProjectTimeseries_promote_demote_witness :
  ProjectTimeseries.project_timeseries
    (fst (ProjectTimeseries.DeleteProjectTimeseries never_fails 51 2
            (fst (ProjectTimeseries.CreateProjectTimeseries never_fails 51 2
                    ProjectTimeseries.ex_store))))
  = ProjectTimeseries.project_timeseries ProjectTimeseries.ex_store.
Proof.
  refine (proj2 (proj2 (proj2 (proj2 (proj2
           (ProjectTimeseries_promote_demote never_fails 51 2
              ProjectTimeseries.ex_store _ _ None None eq_refl eq_refl)))))
           eq_refl eq_refl _).
  cbn. intros H. repeat (destruct H as [H|H]; [discriminate|]). exact H.
Defined.
